(** * personal-news-feed: the RSS aggregator and its search, verified

    A shallow embedding of [rss-aggregator.js] (class [RSSAggregator]):
    image extraction, feed aggregation with deduplication and sorting,
    weighted search with pagination, and the JSON cache.

    Conventions of the model.
    - A JavaScript string is a [string] of 8-bit characters; the model is
      exact on ASCII text ([toLowerCase] folds A-Z, [\s] is the six ASCII
      white-space characters).
    - A JavaScript [Date] is its time value: an integer number of
      milliseconds, or NaN for an [Invalid Date].
    - Integers that the code computes with (scores, limits, offsets, time
      values) are [Z]; a Number that may be NaN is an [option Z].
    - The clock ([Date.now()], [new Date()]), the network ([parseURL]) and the
      engine-specific date parser are inputs of the functions that use them. *)

From Stdlib Require Import ZArith Ascii String List Lia Permutation.
From stdpp Require Import base option list gmap strings sorting.

Local Open Scope Z_scope.
#[local] Set Warnings "-register-all".

(** ** JavaScript built-ins used by the aggregator *)

Module JS.

(** *** Strings *)

Definition is_upper (c : ascii) : bool :=
  let n := nat_of_ascii c in (Nat.leb 65 n && Nat.leb n 90)%bool.

Definition lower_char (c : ascii) : ascii :=
  if is_upper c then ascii_of_nat (nat_of_ascii c + 32) else c.

(** [s.toLowerCase()] *)
Fixpoint toLowerCase (s : string) : string :=
  match s with
  | "" => ""
  | String c s' => String (lower_char c) (toLowerCase s')
  end.

(** [s.startsWith(p)] *)
Definition startsWith (s p : string) : bool := String.prefix p s.

(** [s.includes(w)]: [w] occurs in [s] as a contiguous substring; the empty
    string occurs in every string. *)
Fixpoint includes (s w : string) : bool :=
  (String.prefix w s ||
   match s with
   | "" => false
   | String _ s' => includes s' w
   end)%bool.

Fixpoint dropWhile_space (s : string) : string :=
  match s with
  | "" => ""
  | String c s' => if Ascii.is_space c then dropWhile_space s' else s
  end.

(** [s.trim()] *)
Definition trim (s : string) : string :=
  String.rev (dropWhile_space (String.rev (dropWhile_space s))).

(** [s.split(/\s+/)]: the pieces between maximal white-space runs.  A run
    at the start or at the end of [s] leaves an empty piece there, and
    the empty string splits into one empty piece.  [skipping] tells that
    the previous character belonged to a separator. *)
Fixpoint split_go (skipping : bool) (s : string) : list string :=
  match s with
  | "" => [""]
  | String c s' =>
      if Ascii.is_space c then
        if skipping then split_go true s' else "" :: split_go true s'
      else
        match split_go false s' with
        | piece :: pieces => String c piece :: pieces
        | [] => [String c ""]
        end
  end.

Definition split_ws (s : string) : list string := split_go false s.

(** [s.substring(0, n)] for [n >= 0] *)
Fixpoint substring0 (n : nat) (s : string) : string :=
  match n, s with
  | S n', String c s' => String c (substring0 n' s')
  | _, _ => ""
  end.

Fixpoint drop_chars (n : nat) (s : string) : string :=
  match n, s with
  | S n', String _ s' => drop_chars n' s'
  | _, _ => s
  end.

(** Truthiness of a possibly absent string: present and not empty. *)
Definition truthy (o : option string) : bool :=
  match o with
  | Some s => negb (String.eqb s "")
  | None => false
  end.

(** [a || b] on possibly absent strings *)
Definition or_else (a b : option string) : option string :=
  if truthy a then a else b.

(** *** Numbers and dates *)

(** A Number that is an integer or NaN ([None]). *)
Definition number := option Z.

Inductive Date := ValidDate (t : Z) | InvalidDate.

Definition valueOf (d : Date) : number :=
  match d with
  | ValidDate t => Some t
  | InvalidDate => None
  end.

(** [x - y]: NaN as soon as one side is NaN. *)
Definition sub (x y : number) : number :=
  match x, y with
  | Some a, Some b => Some (a - b)
  | _, _ => None
  end.

(** [x < c] for a constant [c]: false on NaN. *)
Definition ltb (x : number) (c : Z) : bool :=
  match x with
  | Some a => a <? c
  | None => false
  end.

(** *** Arrays *)

(** [l.slice(start, end)], with the negative indices counted from the end
    as ECMA-262 prescribes. *)
Definition relative_index (len i : Z) : Z :=
  if i <? 0 then Z.max (len + i) 0 else Z.min i len.

Definition slice {A} (start end_ : Z) (l : list A) : list A :=
  let len := Z.of_nat (length l) in
  let k := relative_index len start in
  let final := relative_index len end_ in
  take (Z.to_nat (final - k)) (drop (Z.to_nat k) l).

(** [l.sort(comparefn)].  ECMA-262 (2019) requires the sort to be stable;
    a NaN returned by [comparefn] counts as 0.  For a consistent comparator
    the result is the one stable sorted arrangement, which this insertion
    sort computes: [x], which stood before every element of [l], goes
    behind [y] only when [comparefn x y > 0]. *)
Section Sort.
Context {A : Type} (comparefn : A → A → number).

Definition sorts_after (x y : A) : bool :=
  match comparefn x y with
  | Some v => 0 <? v
  | None => false
  end.

Fixpoint sort_insert (x : A) (l : list A) : list A :=
  match l with
  | [] => [x]
  | y :: l' => if sorts_after x y then y :: sort_insert x l' else x :: l
  end.

Definition sort (l : list A) : list A := foldr sort_insert [] l.
End Sort.

End JS.

(** ** The data of the aggregator *)

(** An entry of [feeds.json]. *)
Record FeedConfig := {
  feed_url : string;
  feed_category : string;
  feed_source : string;
  feed_keywords : list string
}.

(** An article as [fetchAllFeeds] builds it. *)
Record Article := {
  title : string;
  url : string;
  snippet : string;
  content : string;
  imageUrl : option string;
  source : string;
  category : string;
  keywords : list string;
  pubDate : JS.Date;
  fetchedAt : JS.Date
}.

(** The fields of [this]. *)
Record RSSAggregator := {
  articles : list Article;
  feeds : list FeedConfig;
  lastUpdate : option JS.Date
}.

(** ** search *)

(** The element [{ article, score }] of [scoredArticles]. *)
Record Scored := { sc_article : Article; sc_score : Z }.

Definition ms_per_day : Z := 1000 * 60 * 60 * 24.

(** The recency boost.  [ageInDays] is [(Date.now() - pubDate) / ms_per_day];
    on integers of this size the quotient is below 1 (below 7) exactly when
    the difference is below one day (seven days) of milliseconds. *)
Definition recency_boost (now : Z) (d : JS.Date) : Z :=
  let age := JS.sub (Some now) (JS.valueOf d) in
  if JS.ltb age ms_per_day then 2
  else if JS.ltb age (7 * ms_per_day) then 1
  else 0.

(** The body of the [map] callback of [search]; each [forEach] is a left
    fold that threads [score].  [now] is the reading of [Date.now()]: the
    clock is taken as fixed during one call of [search]. *)
Definition score_article (now : Z) (queryLower : string)
    (queryWords : list string) (article : Article) : Scored :=
  let score := 0 in
  let titleLower := JS.toLowerCase (title article) in
  let score :=
    fold_left (fun score word =>
      if JS.includes titleLower word then score + 10 else score)
      queryWords score in
  let snippetLower := JS.toLowerCase (snippet article) in
  let score :=
    fold_left (fun score word =>
      if JS.includes snippetLower word then score + 5 else score)
      queryWords score in
  let score :=
    fold_left (fun score keyword =>
      fold_left (fun score word =>
        if (JS.includes (JS.toLowerCase keyword) word
            || JS.includes word (JS.toLowerCase keyword))%bool
        then score + 3 else score)
        queryWords score)
      (keywords article) score in
  let score :=
    if JS.includes (JS.toLowerCase (category article)) queryLower
    then score + 7 else score in
  let score := score + recency_boost now (pubDate article) in
  {| sc_article := article; sc_score := score |}.

(** [!query || query.trim() === ''] *)
Definition no_query (query : string) : bool :=
  (String.eqb query "" || String.eqb (JS.trim query) "")%bool.

(** [(a, b) => b.score - a.score] *)
Definition by_score (a b : Scored) : JS.number :=
  Some (sc_score b - sc_score a).

(** The scored, filtered and sorted array before [slice]. *)
Definition ranked (this : RSSAggregator) (now : Z) (query : string)
    : list Scored :=
  let queryLower := JS.toLowerCase query in
  let queryWords := JS.split_ws queryLower in
  let scoredArticles :=
    map (score_article now queryLower queryWords) (articles this) in
  JS.sort by_score (filter (fun item => 0 < sc_score item) scoredArticles).

(** [search(query, limit, offset)] *)
Definition search (this : RSSAggregator) (now : Z) (query : string)
    (limit offset : Z) : list Article :=
  if no_query query then JS.slice 0 limit (articles this)
  else
    map sc_article (JS.slice offset (offset + limit) (ranked this now query)).


(** ** Feed items and image extraction *)

(** An item as [rss-parser] hands it over.  The media fields come from
    xml2js: an element is an object whose attributes sit under [$]. *)
Module Item.

(** The attribute object [m.$]. *)
Record Attrs := { attr_url : option string; attr_medium : option string }.

(** A [media:content] or [media:thumbnail] node [m], read through [m.$],
    [m.url] and [m.medium]. *)
Record Media := {
  dollar : option Attrs;
  m_url : option string;
  m_medium : option string
}.

(** [item['media:content']] is one node or an array of nodes. *)
Inductive MediaContent := One (m : Media) | Many (ms : list Media).

Record Enclosure := { enc_url : option string; enc_type : option string }.

Record t := {
  title : option string;
  link : option string;
  guid : option string;
  contentSnippet : option string;
  description : option string;
  content : option string;
  pubDate : option string;
  media_content : option MediaContent;
  media_thumbnail : option Media;
  enclosure : option Enclosure
}.

End Item.

(** The first match of the image pattern in [html], as its capture group.
    The pattern is: the literal <img, then one or more characters other
    than >, then the literal src=, a quote, one or more characters other
    than a quote (the group), and a quote; a quote is the double or the
    single one, and letters match in either case (flag i).  The engine
    tries the start positions from the left; at a start it takes the
    longest run of non-> characters first and gives characters back one at
    a time until the rest matches. *)
Module ImgRegex.

Definition is_quote (c : ascii) : bool :=
  (Ascii.eqb c "034" || Ascii.eqb c "'")%bool%char.

Definition is_gt (c : ascii) : bool := Ascii.eqb c ">"%char.

(** The longest prefix of characters outside the class [stop], and what
    follows it. *)
Fixpoint span_until (stop : ascii → bool) (s : string) : string * string :=
  match s with
  | "" => ("", "")
  | String c s' =>
      if stop c then ("", s)
      else let (run, rest) := span_until stop s' in (String c run, rest)
  end.

(** A literal under the [i] flag. *)
Definition prefix_ci (lit s : string) : bool :=
  String.prefix lit (JS.toLowerCase (JS.substring0 (String.length lit) s)).

(** The part of the pattern from src= on, at the start of [s]. *)
Definition match_src (s : string) : option string :=
  if prefix_ci "src=" s then
    match JS.drop_chars 4 s with
    | String q r =>
        if is_quote q then
          match span_until is_quote r with
          | ("", _) => None
          | (group, String _ _) => Some group
          | (_, "") => None
          end
        else None
    | "" => None
    end
  else None.

(** A run of [k] non-> characters, then of [k - 1], ..., then of one,
    each followed by [match_src]. *)
Fixpoint backtrack (k : nat) (r : string) : option string :=
  match k with
  | O => None
  | S k' =>
      match match_src (JS.drop_chars k r) with
      | Some group => Some group
      | None => backtrack k' r
      end
  end.

Definition match_here (s : string) : option string :=
  if prefix_ci "<img" s then
    let r := JS.drop_chars 4 s in
    backtrack (String.length (fst (span_until is_gt r))) r
  else None.

Fixpoint exec (html : string) : option string :=
  match match_here html with
  | Some group => Some group
  | None =>
      match html with
      | "" => None
      | String _ html' => exec html'
      end
  end.

End ImgRegex.

(** [m?.$?.url || m?.url] *)
Definition media_url (m : Item.Media) : option string :=
  JS.or_else (a ← Item.dollar m; Item.attr_url a) (Item.m_url m).

(** [m?.$ ? m.$.medium : m?.medium] *)
Definition media_medium (m : Item.Media) : option string :=
  match Item.dollar m with
  | Some a => Item.attr_medium a
  | None => Item.m_medium m
  end.

(** The [for (const m of entries)] loop: [Some url] is its [return url]. *)
Fixpoint media_content_loop (entries : list Item.Media) : option string :=
  match entries with
  | [] => None
  | m :: rest =>
      let url := media_url m in
      let medium := media_medium m in
      if (JS.truthy url &&
          (negb (JS.truthy medium) || bool_decide (medium = Some "image")))%bool
      then url
      else media_content_loop rest
  end.

(** [mediaThumbnail?.$ ? mediaThumbnail.$.url : mediaThumbnail?.url] *)
Definition thumbnail_url (m : Item.Media) : option string :=
  match Item.dollar m with
  | Some a => Item.attr_url a
  | None => Item.m_url m
  end.

(** The steps of [extractImageFromItem], each one [None] when the code
    falls through to the next. *)
Definition from_media_content (item : Item.t) : option string :=
  match Item.media_content item with
  | Some mediaContent =>
      let entries :=
        match mediaContent with
        | Item.Many ms => ms
        | Item.One m => [m]
        end in
      media_content_loop entries
  | None => None
  end.

Definition from_media_thumbnail (item : Item.t) : option string :=
  match Item.media_thumbnail item with
  | Some mediaThumbnail =>
      let url := thumbnail_url mediaThumbnail in
      if JS.truthy url then url else None
  | None => None
  end.

Definition from_enclosure (item : Item.t) : option string :=
  match Item.enclosure item with
  | Some e =>
      if (JS.truthy (Item.enc_url e) &&
          match Item.enc_type e with
          | Some ty => JS.startsWith ty "image/"
          | None => false
          end)%bool
      then Item.enc_url e
      else None
  | None => None
  end.

(** [item.content || item.description || ''] *)
Definition item_html (item : Item.t) : string :=
  default "" (JS.or_else (Item.content item) (Item.description item)).

Definition from_img_tag (item : Item.t) : option string :=
  ImgRegex.exec (item_html item).

(** [extractImageFromItem(item)]; [None] is [null]. *)
Definition extractImageFromItem (item : Item.t) : option string :=
  match from_media_content item with
  | Some url => Some url
  | None =>
      match from_media_thumbnail item with
      | Some url => Some url
      | None =>
          match from_enclosure item with
          | Some url => Some url
          | None => from_img_tag item
          end
      end
  end.

(** ** Dates as text *)

(** [Date.prototype.toISOString], [toJSON] and the part of the [Date]
    constructor that ECMA-262 fixes: the format that [toISOString] writes,
    YYYY-MM-DDTHH:mm:ss.sssZ with a four-digit year or a signed six-digit
    one.  Every other string is left to the engine's own parser. *)
Module JSDate.
Import JS.

Definition msPerDay : Z := 86400000.

(** The largest time value of a [Date], 8.64e15 ms. *)
Definition maxTime : Z := 8640000000000000.

(** [TimeClip] *)
Definition time_clip (t : Z) : Date :=
  if (Z.abs t <=? maxTime) then ValidDate t else InvalidDate.

(** The proleptic Gregorian date of day number [z] (day 0 is
    1970-01-01), computed on 400-year eras that begin on 1 March. *)
Definition civil_from_days (z : Z) : Z * Z * Z :=
  let z := z + 719468 in
  let era := z / 146097 in
  let doe := z - era * 146097 in
  let yoe := (doe - doe / 1460 + doe / 36524 - doe / 146096) / 365 in
  let doy := doe - (365 * yoe + yoe / 4 - yoe / 100) in
  let mp := (5 * doy + 2) / 153 in
  let d := doy - (153 * mp + 2) / 5 + 1 in
  let m := if mp <? 10 then mp + 3 else mp - 9 in
  let y := yoe + era * 400 in
  (if m <=? 2 then y + 1 else y, m, d).

Definition days_from_civil (y m d : Z) : Z :=
  let y := if m <=? 2 then y - 1 else y in
  let era := y / 400 in
  let yoe := y - era * 400 in
  let mp := if 2 <? m then m - 3 else m + 9 in
  let doy := (153 * mp + 2) / 5 + d - 1 in
  let doe := yoe * 365 + yoe / 4 - yoe / 100 + doy in
  era * 146097 + doe - 719468.

Definition is_leap (y : Z) : bool :=
  ((y mod 4 =? 0) && (negb (y mod 100 =? 0) || (y mod 400 =? 0)))%bool.

Definition days_in_month (y m : Z) : Z :=
  if m =? 2 then (if is_leap y then 29 else 28)
  else if ((m =? 4) || (m =? 6) || (m =? 9) || (m =? 11))%bool then 30
  else 31.

Definition digit (n : Z) : ascii := ascii_of_nat (48 + Z.to_nat n).

Definition pad2 (n : Z) : string :=
  String (digit (n / 10)) (String (digit (n mod 10)) "").
Definition pad3 (n : Z) : string := String (digit (n / 100)) (pad2 (n mod 100)).
Definition pad4 (n : Z) : string := String (digit (n / 1000)) (pad3 (n mod 1000)).
Definition pad6 (n : Z) : string :=
  String (digit (n / 100000))
    (String (digit (n / 10000 mod 10)) (pad4 (n mod 10000))).

Definition format_year (y : Z) : string :=
  if ((0 <=? y) && (y <=? 9999))%bool then pad4 y
  else String (if y <? 0 then "-"%char else "+"%char) (pad6 (Z.abs y)).

(** [new Date(t).toISOString()] for a time value [t] *)
Definition toISOString (t : Z) : string :=
  let day := t / msPerDay in
  let ms := t mod msPerDay in
  let '(y, m, d) := civil_from_days day in
  format_year y +:+ "-" +:+ pad2 m +:+ "-" +:+ pad2 d +:+ "T" +:+
  pad2 (ms / 3600000) +:+ ":" +:+ pad2 (ms / 60000 mod 60) +:+ ":" +:+
  pad2 (ms / 1000 mod 60) +:+ "." +:+ pad3 (ms mod 1000) +:+ "Z".

(** [d.toJSON()]: the ISO string, or [null] for an Invalid Date. *)
Definition toJSON (d : Date) : option string :=
  match d with
  | ValidDate t => Some (toISOString t)
  | InvalidDate => None
  end.

Definition digit_value (c : ascii) : option Z :=
  let n := nat_of_ascii c in
  if (Nat.leb 48 n && Nat.leb n 57)%bool then Some (Z.of_nat n - 48) else None.

(** Exactly [n] decimal digits at the start of [s]: their value, on top
    of [acc], and the rest of [s]. *)
Fixpoint read_digits (n : nat) (acc : Z) (s : string) : option (Z * string) :=
  match n with
  | O => Some (acc, s)
  | S n' =>
      match s with
      | String c s' =>
          v ← digit_value c; read_digits n' (10 * acc + v) s'
      | "" => None
      end
  end.

Definition expect (c : ascii) (s : string) : option string :=
  match s with
  | String c' s' => if Ascii.eqb c c' then Some s' else None
  | "" => None
  end.

Definition read_year (s : string) : option (Z * string) :=
  match s with
  | String "+" s' => read_digits 6 0 s'
  | String "-" s' =>
      '(y, rest) ← read_digits 6 0 s';
      if y =? 0 then None else Some (- y, rest)
  | _ => read_digits 4 0 s
  end.

(** The time value written by a string in the [toISOString] format, when
    its fields are in range. *)
Definition parse_iso (s : string) : option Z :=
  '(y, s) ← read_year s;
  s ← expect "-" s;
  '(m, s) ← read_digits 2 0 s;
  s ← expect "-" s;
  '(d, s) ← read_digits 2 0 s;
  s ← expect "T" s;
  '(hh, s) ← read_digits 2 0 s;
  s ← expect ":" s;
  '(mm, s) ← read_digits 2 0 s;
  s ← expect ":" s;
  '(ss, s) ← read_digits 2 0 s;
  s ← expect "." s;
  '(ms, s) ← read_digits 3 0 s;
  s ← expect "Z" s;
  if (String.eqb s "" && (1 <=? m) && (m <=? 12) && (1 <=? d)
      && (d <=? days_in_month y m) && (hh <=? 23) && (mm <=? 59)
      && (ss <=? 59))%bool
  then Some (days_from_civil y m d * msPerDay
             + hh * 3600000 + mm * 60000 + ss * 1000 + ms)
  else None.

(** [new Date(s)] for a string [s]: the ISO format is read as ECMA-262
    says and clipped to the range of time values; for any other string
    the engine falls back on its own heuristics, [legacy]. *)
Definition parse (legacy : string → Date) (s : string) : Date :=
  match parse_iso s with
  | Some t => time_clip t
  | None => legacy s
  end.

End JSDate.

(** ** cleanDescription *)

Module Clean.

Fixpoint has_gt (s : string) : bool :=
  match s with
  | "" => false
  | String c s' => (Ascii.eqb c ">"%char || has_gt s')%bool
  end.

(** [text.replace(/<[^>]*>/g, '')]: a < that has a > somewhere after it
    opens a match that runs to the first such >; [in_tag] tells that the
    scan is inside a match. *)
Fixpoint strip_tags_go (in_tag : bool) (s : string) : string :=
  match s with
  | "" => ""
  | String c s' =>
      if in_tag then strip_tags_go (negb (Ascii.eqb c ">"%char)) s'
      else if (Ascii.eqb c "<"%char && has_gt s')%bool
           then strip_tags_go true s'
           else String c (strip_tags_go false s')
  end.

Definition strip_tags (s : string) : string := strip_tags_go false s.

(** [s.replace(/pat/g, rep)] for a literal, non-empty [pat]; [skip]
    counts the characters of the current match still to be dropped. *)
Fixpoint replace_go (pat rep : string) (skip : nat) (s : string) : string :=
  match s with
  | "" => ""
  | String c s' =>
      match skip with
      | S k => replace_go pat rep k s'
      | O =>
          if String.prefix pat s
          then rep +:+ replace_go pat rep (String.length pat - 1) s'
          else String c (replace_go pat rep 0 s')
      end
  end.

Definition replaceAll (pat rep s : string) : string := replace_go pat rep 0 s.

Definition double_quote : string := String "034"%char "".

End Clean.

Definition cleanDescription (text : string) : string :=
  let cleaned := Clean.strip_tags text in
  let cleaned :=
    Clean.replaceAll "&#39;" "'"
      (Clean.replaceAll "&quot;" Clean.double_quote
        (Clean.replaceAll "&gt;" ">"
          (Clean.replaceAll "&lt;" "<"
            (Clean.replaceAll "&amp;" "&"
              (Clean.replaceAll "&nbsp;" " " cleaned))))) in
  JS.substring0 300 (JS.trim cleaned).

(** ** removeDuplicates *)

(** The [filter] callback with its [seen] set: the callback runs on the
    articles in array order, and [seen] grows by each url it lets through. *)
Fixpoint removeDuplicates_go (seen : gset string) (articles : list Article)
    : list Article :=
  match articles with
  | [] => []
  | article :: rest =>
      if decide (url article ∈ seen) then removeDuplicates_go seen rest
      else article :: removeDuplicates_go ({[url article]} ∪ seen) rest
  end.

Definition removeDuplicates (articles : list Article) : list Article :=
  removeDuplicates_go ∅ articles.

(** ** The cache file *)

(** A JSON document.  [JSON.stringify] prints one and [JSON.parse] reads it
    back; the model keeps the document and leaves its text out.  Numbers
    are integers. *)
Module JSON.

Inductive value :=
  | Null
  | Bool (b : bool)
  | Num (n : Z)
  | Str (s : string)
  | Arr (elements : list value)
  | Obj (members : list (string * value)).

(** The property [key] of a parsed object; [None] is [undefined]. *)
Fixpoint get (key : string) (members : list (string * value))
    : option value :=
  match members with
  | [] => None
  | (k, v) :: rest => if String.eqb k key then Some v else get key rest
  end.

End JSON.

(** [./articles-cache.json]: missing, holding text that is not JSON, or
    holding a document. *)
Inductive File := Absent | Malformed | Document (v : JSON.value).

(** ** fetchAllFeeds *)

(** The outcome of a promise once settled. *)
Inductive Settled (A : Type) :=
  | Fulfilled (value : A)
  | Rejected (reason : string).
Arguments Fulfilled {A} value.
Arguments Rejected {A} reason.

(** A parsed feed. *)
Record Feed := { items : list Item.t }.

(** What the aggregator meets outside: the network, the engine's parser
    for dates that are not in the ISO format, the clock, whose [n]-th
    reading is [clock n], and the error of [fs.writeFile], if it fails. *)
Record Env := {
  parseURL : string → Settled Feed;
  legacy_date : string → JS.Date;
  clock : nat → Z;
  write_error : option string
}.

(** The lines written to the console. *)
Inductive LogLine :=
  | LogStart
  | LogFeedOk (source : string) (count : nat)
  | LogFeedFailed (reason : string)
  | LogComplete (duration_ms : Z)
  | LogFetched (successCount : Z) (total : nat)
  | LogTotal (count : nat)
  | LogFailed (errorCount : Z)
  | LogCached
  | LogCacheError (message : string)
  | LogLoaded (count : nat)
  | LogNoCache.

(** The state a method runs in: the object, the clock readings taken so
    far, the console and the cache file. *)
Record World := {
  self : RSSAggregator;
  ticks : nat;
  console : list LogLine;
  disk : File
}.

(** How a statement completes: normally, or by throwing. *)
Inductive Completion (A : Type) :=
  | Normal (a : A)
  | Throw (error : string).
Arguments Normal {A} a.
Arguments Throw {A} error.

Definition M (A : Type) : Type := World → Completion (A * World).

#[global] Instance M_ret : MRet M := λ A a w, Normal (a, w).

#[global] Instance M_bind : MBind M := λ A B f m w,
  match m w with
  | Normal (a, w') => f a w'
  | Throw e => Throw e
  end.

(** [await p]: the value of a fulfilled promise; a rejected one throws. *)
Definition await {A} (p : Settled A) : M A := λ w,
  match p with
  | Fulfilled v => Normal (v, w)
  | Rejected reason => Throw reason
  end.

(** [Promise.allSettled(ps)] is fulfilled with the outcomes of [ps],
    whatever they are. *)
Definition Promise_allSettled {A} (ps : list (Settled A))
    : Settled (list (Settled A)) :=
  Fulfilled ps.

(** [p.then(f)] *)
Definition then_ {A B} (f : A → B) (p : Settled A) : Settled B :=
  match p with
  | Fulfilled v => Fulfilled (f v)
  | Rejected reason => Rejected reason
  end.

Definition Date_now (env : Env) : M Z := λ w,
  Normal (clock env (ticks w),
          {| self := self w; ticks := S (ticks w); console := console w;
             disk := disk w |}).

(** [new Date()] *)
Definition new_Date (env : Env) : M JS.Date :=
  t ← Date_now env; mret (JS.ValidDate t).

Definition console_log (line : LogLine) : M unit := λ w,
  Normal (tt, {| self := self w; ticks := ticks w;
                 console := console w ++ [line]; disk := disk w |}).

Definition get_this : M RSSAggregator := λ w, Normal (self w, w).

Definition set_this (this : RSSAggregator) : M unit := λ w,
  Normal (tt, {| self := this; ticks := ticks w; console := console w;
                 disk := disk w |}).

(** [this.articles = v] *)
Definition set_articles (v : list Article) : M unit :=
  this ← get_this;
  set_this {| articles := v; feeds := feeds this;
              lastUpdate := lastUpdate this |}.

(** [this.lastUpdate = d] *)
Definition set_lastUpdate (d : JS.Date) : M unit :=
  this ← get_this;
  set_this {| articles := articles this; feeds := feeds this;
              lastUpdate := Some d |}.

(** A loop over [l] that threads the variables [acc] it assigns. *)
Fixpoint for_each {A S} (body : S → A → M S) (acc : S) (l : list A) : M S :=
  match l with
  | [] => mret acc
  | x :: l' => acc' ← body acc x; for_each body acc' l'
  end.

(** The [forEach] callback on the items of one feed; [newArticles] is the
    array it pushes to. *)
Definition push_item (env : Env) (feedConfig : FeedConfig)
    (newArticles : list Article) (item : Item.t) : M (list Article) :=
  let url_ := default "" (JS.or_else (Item.link item) (Item.guid item)) in
  if String.eqb url_ "" then mret newArticles
  else
    pub ← (if JS.truthy (Item.pubDate item)
           then mret (JSDate.parse (legacy_date env)
                        (default "" (Item.pubDate item)))
           else new_Date env);
    fetched ← new_Date env;
    mret (newArticles ++ [
      {| title := default "Untitled" (JS.or_else (Item.title item) None);
         url := url_;
         snippet :=
           cleanDescription
             (default "" (JS.or_else (Item.contentSnippet item)
                                     (Item.description item)));
         content :=
           default "" (JS.or_else (Item.content item) (Item.description item));
         imageUrl := extractImageFromItem item;
         source := feed_source feedConfig;
         category := feed_category feedConfig;
         keywords := feed_keywords feedConfig;
         pubDate := pub;
         fetchedAt := fetched |} ]).

(** The variables that the loop over [results] assigns. *)
Record Tally := {
  newArticles : list Article;
  successCount : Z;
  errorCount : Z
}.

Definition collect (env : Env) (acc : Tally)
    (result : Settled (Feed * FeedConfig)) : M Tally :=
  match result with
  | Fulfilled (feed, feedConfig) =>
      arts ← for_each (push_item env feedConfig) (newArticles acc) (items feed);
      console_log (LogFeedOk (feed_source feedConfig) (length (items feed)));;
      mret {| newArticles := arts;
              successCount := successCount acc + 1;
              errorCount := errorCount acc |}
  | Rejected reason =>
      console_log (LogFeedFailed reason);;
      mret {| newArticles := newArticles acc;
              successCount := successCount acc;
              errorCount := errorCount acc + 1 |}
  end.

(** [(a, b) => b.pubDate - a.pubDate] *)
Definition by_pubDate (a b : Article) : JS.number :=
  JS.sub (JS.valueOf (pubDate b)) (JS.valueOf (pubDate a)).

(** The promises handed to [Promise.allSettled], settled: one per
    configured feed, in the order of [this.feeds]. *)
Definition feed_promises (env : Env) (this : RSSAggregator)
    : list (Settled (Feed * FeedConfig)) :=
  map (λ feedConfig,
         then_ (λ feed, (feed, feedConfig))
               (parseURL env (feed_url feedConfig)))
      (feeds this).

(** The first half of [fetchAllFeeds], through the loop over [results]:
    [startTime] and the variables of the loop. *)
Definition gather (env : Env) : M (Z * Tally) :=
  console_log LogStart;;
  startTime ← Date_now env;
  this ← get_this;
  results ← await (Promise_allSettled (feed_promises env this));
  tally ← for_each (collect env)
            {| newArticles := []; successCount := 0; errorCount := 0 |}
            results;
  mret (startTime, tally).

Definition fetchAllFeeds (env : Env) : M (list Article) :=
  '(startTime, tally) ← gather env;
  let uniqueArticles := removeDuplicates (newArticles tally) in
  let uniqueArticles := JS.sort by_pubDate uniqueArticles in
  set_articles uniqueArticles;;
  endTime ← Date_now env;
  console_log (LogComplete (endTime - startTime));;
  this ← get_this;
  console_log (LogFetched (successCount tally) (length (feeds this)));;
  console_log (LogTotal (length (articles this)));;
  console_log (LogFailed (errorCount tally));;
  now ← new_Date env;
  set_lastUpdate now;;
  this ← get_this;
  mret (articles this).

(** ** search on the heap *)

(** [search] again, with the arrays where JavaScript keeps them: in the
    heap, behind references.  [slice], [map] and [filter] allocate the array
    they return; [sort] rearranges the array it is called on and returns the
    same reference.  [search] writes to no article (the score sits in a
    wrapper object), so the articles are kept as values in the arrays. *)
Module Heap.

Definition ref := positive.

Inductive Cell :=
  | ArticleArray (l : list Article)
  | ScoredArray (l : list Scored)
  | FeedArray (l : list FeedConfig).

(** The object [this]: two references and a value. *)
Record Instance := {
  articles_ref : ref;
  feeds_ref : ref;
  lastUpdate_val : option JS.Date
}.

Record Store := {
  this_obj : Instance;
  cells : gmap ref Cell
}.

(** A heap operation yields a value and the next heap; [None] is a read
    through a reference that does not hold the expected kind of array. *)
Definition Op (A : Type) : Type := gmap ref Cell → option (A * gmap ref Cell).

Definition alloc (c : Cell) : Op ref := λ h,
  let r := fresh (dom h) in Some (r, <[r := c]> h).

Definition read_articles (r : ref) : Op (list Article) := λ h,
  match h !! r with
  | Some (ArticleArray l) => Some (l, h)
  | _ => None
  end.

Definition read_scored (r : ref) : Op (list Scored) := λ h,
  match h !! r with
  | Some (ScoredArray l) => Some (l, h)
  | _ => None
  end.

Definition write (r : ref) (c : Cell) : Op unit := λ h,
  Some (tt, <[r := c]> h).

Definition op_ret {A} (a : A) : Op A := λ h, Some (a, h).

Definition op_bind {A B} (m : Op A) (f : A → Op B) : Op B := λ h,
  match m h with
  | Some (a, h') => f a h'
  | None => None
  end.

Notation "'let*' x := m 'in' k" := (op_bind m (λ x, k))
  (at level 10, x name, m at level 100, k at level 200, only parsing).

(** [r.slice(start, end)] on an array of articles *)
Definition slice_articles (start end_ : Z) (r : ref) : Op ref :=
  let* l := read_articles r in
  alloc (ArticleArray (JS.slice start end_ l)).

(** [r.map(f)] from articles to scored items *)
Definition map_score (f : Article → Scored) (r : ref) : Op ref :=
  let* l := read_articles r in
  alloc (ScoredArray (map f l)).

(** [r.filter(p)] *)
Definition filter_scored (P : Scored → Prop) `{!∀ x, Decision (P x)}
    (r : ref) : Op ref :=
  let* l := read_scored r in
  alloc (ScoredArray (filter P l)).

(** [r.sort(comparefn)]: in place *)
Definition sort_scored (comparefn : Scored → Scored → JS.number) (r : ref)
    : Op ref :=
  let* l := read_scored r in
  let* _ := write r (ScoredArray (JS.sort comparefn l)) in
  op_ret r.

(** [r.slice(start, end)] on an array of scored items *)
Definition slice_scored (start end_ : Z) (r : ref) : Op ref :=
  let* l := read_scored r in
  alloc (ScoredArray (JS.slice start end_ l)).

(** [r.map(item => item.article)] *)
Definition map_article (r : ref) : Op ref :=
  let* l := read_scored r in
  alloc (ArticleArray (map sc_article l)).

(** [search(query, limit, offset)]: the reference it returns and the
    store it leaves.  No statement of [search] assigns a field of [this]. *)
Definition search (s : Store) (now : Z) (query : string) (limit offset : Z)
    : option (ref * Store) :=
  let this := this_obj s in
  let run : Op ref :=
    if no_query query then slice_articles 0 limit (articles_ref this)
    else
      let queryLower := JS.toLowerCase query in
      let queryWords := JS.split_ws queryLower in
      let* scoredArticles :=
        map_score (score_article now queryLower queryWords)
                  (articles_ref this) in
      let* filtered :=
        filter_scored (λ item, 0 < sc_score item) scoredArticles in
      let* sorted := sort_scored by_score filtered in
      let* sliced := slice_scored offset (offset + limit) sorted in
      map_article sliced in
  match run (cells s) with
  | Some (r, h) => Some (r, {| this_obj := this; cells := h |})
  | None => None
  end.

(** The aggregator that a store holds, when its references are sound. *)
Definition view (s : Store) : option RSSAggregator :=
  match cells s !! articles_ref (this_obj s),
        cells s !! feeds_ref (this_obj s) with
  | Some (ArticleArray a), Some (FeedArray f) =>
      Some {| articles := a; feeds := f;
              lastUpdate := lastUpdate_val (this_obj s) |}
  | _, _ => None
  end.

End Heap.

(** ** saveToFile and loadFromFile *)

(** A [Date] under [JSON.stringify]: its [toJSON()]. *)
Definition json_of_date (d : JS.Date) : JSON.value :=
  match JSDate.toJSON d with
  | Some s => JSON.Str s
  | None => JSON.Null
  end.

Definition json_of_nullable (o : option string) : JSON.value :=
  match o with
  | Some s => JSON.Str s
  | None => JSON.Null
  end.

(** An article under [JSON.stringify], property by property. *)
Definition json_of_article (a : Article) : JSON.value :=
  JSON.Obj [
    ("title", JSON.Str (title a));
    ("url", JSON.Str (url a));
    ("snippet", JSON.Str (snippet a));
    ("content", JSON.Str (content a));
    ("imageUrl", json_of_nullable (imageUrl a));
    ("source", JSON.Str (source a));
    ("category", JSON.Str (category a));
    ("keywords", JSON.Arr (map JSON.Str (keywords a)));
    ("pubDate", json_of_date (pubDate a));
    ("fetchedAt", json_of_date (fetchedAt a)) ].

(** [{ articles: this.articles, lastUpdate: this.lastUpdate }] under
    [JSON.stringify] *)
Definition json_of_data (this : RSSAggregator) : JSON.value :=
  JSON.Obj [
    ("articles", JSON.Arr (map json_of_article (articles this)));
    ("lastUpdate",
       match lastUpdate this with
       | Some d => json_of_date d
       | None => JSON.Null
       end) ].

Definition write_disk (f : File) : M unit := λ w,
  Normal (tt, {| self := self w; ticks := ticks w; console := console w;
                 disk := f |}).

Definition saveToFile (env : Env) : M unit :=
  this ← get_this;
  let data := json_of_data this in
  match write_error env with
  | None => write_disk (Document data);; console_log LogCached
  | Some message => console_log (LogCacheError message)
  end.

(** [new Date(v)] for a property [v] of a parsed document ([None] is
    [undefined]).  The outer [None] of the result marks an array or an
    object, whose conversion the model does not follow. *)
Definition date_of_json (legacy : string → JS.Date) (v : option JSON.value)
    : option JS.Date :=
  match v with
  | None => Some JS.InvalidDate
  | Some JSON.Null => Some (JS.ValidDate 0)
  | Some (JSON.Bool b) => Some (JS.ValidDate (if b then 1 else 0))
  | Some (JSON.Num n) => Some (JSDate.time_clip n)
  | Some (JSON.Str s) => Some (JSDate.parse legacy s)
  | Some (JSON.Arr _) | Some (JSON.Obj _) => None
  end.

Definition as_string (v : option JSON.value) : option string :=
  match v with
  | Some (JSON.Str s) => Some s
  | _ => None
  end.

Definition as_nullable (v : option JSON.value) : option (option string) :=
  match v with
  | Some (JSON.Str s) => Some (Some s)
  | Some JSON.Null => Some None
  | _ => None
  end.

Definition as_strings (v : option JSON.value) : option (list string) :=
  match v with
  | Some (JSON.Arr elements) => mapM (λ e, as_string (Some e)) elements
  | _ => None
  end.

(** What the [map] callback of [loadFromFile] makes of an element. *)
Inductive Revived :=
  | RevivedArticle (a : Article)
  | RevivedThrows.

(** [{ ...a, pubDate: new Date(a.pubDate), fetchedAt: new Date(a.fetchedAt) }]:
    the properties of [a], with the two dates rebuilt.  On [null] the
    property read throws.  The result is [None] when the object has not the
    properties of an [Article], so that the model has no record for it. *)
Definition revive (legacy : string → JS.Date) (a : JSON.value)
    : option Revived :=
  match a with
  | JSON.Null => Some RevivedThrows
  | JSON.Obj members =>
      title_ ← as_string (JSON.get "title" members);
      url_ ← as_string (JSON.get "url" members);
      snippet_ ← as_string (JSON.get "snippet" members);
      content_ ← as_string (JSON.get "content" members);
      imageUrl_ ← as_nullable (JSON.get "imageUrl" members);
      source_ ← as_string (JSON.get "source" members);
      category_ ← as_string (JSON.get "category" members);
      keywords_ ← as_strings (JSON.get "keywords" members);
      pubDate_ ← date_of_json legacy (JSON.get "pubDate" members);
      fetchedAt_ ← date_of_json legacy (JSON.get "fetchedAt" members);
      Some (RevivedArticle
        {| title := title_; url := url_; snippet := snippet_;
           content := content_; imageUrl := imageUrl_; source := source_;
           category := category_; keywords := keywords_;
           pubDate := pubDate_; fetchedAt := fetchedAt_ |})
  | _ => None
  end.

(** [parsed.articles.map(...)] over the elements, from the left: the array
    of revived articles, or [Throw] at the first element that throws. *)
Fixpoint revive_all (legacy : string → JS.Date) (elements : list JSON.value)
    : option (Completion (list Article)) :=
  match elements with
  | [] => Some (Normal [])
  | e :: rest =>
      r ← revive legacy e;
      match r with
      | RevivedThrows => Some (Throw "TypeError")
      | RevivedArticle a =>
          rs ← revive_all legacy rest;
          match rs with
          | Normal l => Some (Normal (a :: l))
          | Throw error => Some (Throw error)
          end
      end
  end.

(** The [try] block of [loadFromFile] after [JSON.parse]: the new
    [articles] and [lastUpdate], or [Throw] when [parsed.articles.map] is
    not there to call. *)
Definition revive_document (legacy : string → JS.Date) (parsed : JSON.value)
    : option (Completion (list Article * JS.Date)) :=
  match parsed with
  | JSON.Obj members =>
      match JSON.get "articles" members with
      | Some (JSON.Arr elements) =>
          rs ← revive_all legacy elements;
          match rs with
          | Normal arts =>
              lu ← date_of_json legacy (JSON.get "lastUpdate" members);
              Some (Normal (arts, lu))
          | Throw error => Some (Throw error)
          end
      | _ => Some (Throw "TypeError")
      end
  | _ => Some (Throw "TypeError")
  end.

(** The [catch] block of [loadFromFile] *)
Definition load_failed : M bool := console_log LogNoCache;; mret false.

(** [loadFromFile()]; the outer [None] is a document that the model has no
    records for (see [revive]). *)
Definition loadFromFile (env : Env) (w : World)
    : option (Completion (bool * World)) :=
  match disk w with
  | Document parsed =>
      r ← revive_document (legacy_date env) parsed;
      match r with
      | Normal (arts, lu) =>
          Some ((set_articles arts;;
                 set_lastUpdate lu;;
                 this ← get_this;
                 console_log (LogLoaded (length (articles this)));;
                 mret true) w)
      | Throw _ => Some (load_failed w)
      end
  | Absent | Malformed => Some (load_failed w)
  end.

(** * Notions used to state the properties *)

#[global] Instance Date_eq_dec : EqDecision JS.Date.
Proof. solve_decision. Defined.

#[global] Instance Article_eq_dec : EqDecision Article.
Proof. solve_decision. Defined.

(** ** Sorting by a key *)

(** [comparefn] orders the elements of [l] by [key], largest first. *)
Definition descending_on {A} (comparefn : A → A → JS.number) (key : A → Z)
    (l : list A) : Prop :=
  ∀ x y, x ∈ l → y ∈ l →
    JS.sorts_after comparefn x y = bool_decide (key x < key y).

(** ** The refresh cycle *)

Definition is_fulfilled {A} (p : Settled A) : bool :=
  match p with
  | Fulfilled _ => true
  | Rejected _ => false
  end.

(** The feeds of [this] whose fetch succeeds, and those whose fetch fails. *)
Definition fulfilled_feeds (env : Env) (this : RSSAggregator)
    : list FeedConfig :=
  filter (λ fc, is_fulfilled (parseURL env (feed_url fc)) = true) (feeds this).

Definition rejected_feeds (env : Env) (this : RSSAggregator)
    : list FeedConfig :=
  filter (λ fc, is_fulfilled (parseURL env (feed_url fc)) = false) (feeds this).

(** The candidate articles of a refresh: [newArticles] after the loop over
    the results. *)
Definition candidates (env : Env) (w : World) : list Article :=
  match gather env w with
  | Normal (_, tally, _) => newArticles tally
  | Throw _ => []
  end.

(** Two worlds with the same object and the same cache file. *)
Definition same_object (w w' : World) : Prop :=
  self w' = self w ∧ disk w' = disk w.

(** [a.pubDate >= b.pubDate]: false as soon as one date is invalid. *)
Definition not_older (a b : Article) : Prop :=
  match JS.valueOf (pubDate a), JS.valueOf (pubDate b) with
  | Some ta, Some tb => tb ≤ ta
  | _, _ => False
  end.

(** Sorted descending by publication date: every article is at least as
    recent as every article behind it. *)
Definition newest_first (l : list Article) : Prop :=
  StronglySorted not_older l.

Definition has_valid_date (a : Article) : Prop :=
  ∃ t, pubDate a = JS.ValidDate t.

(** The time value of a date, 0 standing in for NaN. *)
Definition time_of (d : JS.Date) : Z := default 0 (JS.valueOf d).

(** ** The score in closed form *)

(** How many elements of [l] satisfy [p]. *)
Definition count {A} (p : A → bool) (l : list A) : Z :=
  Z.of_nat (length (filter (λ x, p x = true) l)).

(** A keyword and a query word hit when one contains the other, the
    keyword taken in lower case. *)
Definition keyword_hit (pair : string * string) : bool :=
  (JS.includes (JS.toLowerCase pair.1) pair.2
   || JS.includes pair.2 (JS.toLowerCase pair.1))%bool.

(** The part of the score that does not depend on the clock, over a list
    [words] of query words: 10 for each word found in the title, 5 for each
    word found in the snippet, 3 for each hit of a keyword and a word, 7
    when the category contains the whole query. *)
Definition text_score (queryLower : string) (words : list string)
    (a : Article) : Z :=
  10 * count (JS.includes (JS.toLowerCase (title a))) words
  + 5 * count (JS.includes (JS.toLowerCase (snippet a))) words
  + 3 * count keyword_hit (cprod (keywords a) words)
  + (if JS.includes (JS.toLowerCase (category a)) queryLower then 7 else 0).

Definition score_formula (now : Z) (queryLower : string)
    (words : list string) (a : Article) : Z :=
  text_score queryLower words a + recency_boost now (pubDate a).

(** The words that the code scores with: the pieces that [split] cuts
    the lower-cased query into, as often as they occur. *)
Definition split_words (query : string) : list string :=
  JS.split_ws (JS.toLowerCase query).



(** The score that the code computes for [query]. *)
Definition score (now : Z) (query : string) (a : Article) : Z :=
  sc_score (score_article now (JS.toLowerCase query) (split_words query) a).

(** The whole result sequence that the pages are cut from: the collection
    for an empty query, the ranked articles otherwise. *)
Definition full_results (this : RSSAggregator) (now : Z) (query : string)
    : list Article :=
  if no_query query then articles this
  else sc_article <$> ranked this now query.

(** ** Image extraction as the specification words it *)


(** An entry is accepted when it has a url and its medium is absent (or
    empty) or is [image]. *)
Definition accepted (m : Item.Media) : Prop :=
  JS.truthy (media_url m) = true
  ∧ (JS.truthy (media_medium m) = false ∨ media_medium m = Some "image").

#[global] Instance accepted_dec (m : Item.Media) : Decision (accepted m).
Proof. unfold accepted. apply _. Defined.


(** ** Dates that a cache file can hold *)

(** A date with a time value, within the range of a [Date]. *)
Definition in_range (d : JS.Date) : Prop :=
  match d with
  | JS.ValidDate t => Z.abs t ≤ JSDate.maxTime
  | JS.InvalidDate => False
  end.

Definition dates_in_range (a : Article) : Prop :=
  in_range (pubDate a) ∧ in_range (fetchedAt a).

(** ** Checking the calendar over one era *)

Module Calendar.
Import JSDate.

(** What [civil_from_days] relies on for day [doe] of a 400-year era:
    the year of the era is in range, the day of the year is not
    negative, the month index is below 12, and the day exists in its
    month. *)
Definition era_day_ok (doe : Z) : bool :=
  let yoe := (doe - doe / 1460 + doe / 36524 - doe / 146096) / 365 in
  let doy := doe - (365 * yoe + yoe / 4 - yoe / 100) in
  let mp := (5 * doy + 2) / 153 in
  let d := doy - (153 * mp + 2) / 5 + 1 in
  let m := if mp <? 10 then mp + 3 else mp - 9 in
  let y := if m <=? 2 then yoe + 1 else yoe in
  ((0 <=? yoe) && (yoe <=? 399) && (0 <=? doy) && (mp <=? 11)
   && (1 <=? d) && (d <=? days_in_month y m))%bool.

(** [p] on the [2 ^ depth] integers from [lo] on. *)
Fixpoint all_from (depth : nat) (lo : Z) (p : Z → bool) : bool :=
  match depth with
  | O => p lo
  | S depth' =>
      (all_from depth' lo p
       && all_from depth' (lo + 2 ^ Z.of_nat depth') p)%bool
  end.

End Calendar.

(** ** Sample data *)

Module Sample.

Definition article (title_ url_ category_ : string)
    (keywords_ : list string) (pubDate_ : JS.Date) : Article :=
  {| title := title_; url := url_; snippet := ""; content := "";
     imageUrl := None; source := "Example"; category := category_;
     keywords := keywords_; pubDate := pubDate_;
     fetchedAt := JS.ValidDate 0 |}.

(** The two articles of the specification's search example, with a
    publication date to choose. *)
Definition ai (d : JS.Date) : Article :=
  article "AI breakthrough" "https://example.com/ai" "technology"
          ["ai"; "tech"] d.

Definition sports (d : JS.Date) : Article :=
  article "Sports update" "https://example.com/sports" "sports"
          ["football"] d.

Definition two (d1 d2 : JS.Date) : RSSAggregator :=
  {| articles := [ai d1; sports d2]; feeds := []; lastUpdate := None |}.

Definition day : Z := 86400000.

Definition feed (url_ : string) : FeedConfig :=
  {| feed_url := url_; feed_category := "technology";
     feed_source := "Example"; feed_keywords := ["tech"] |}.

(** An item with a link and a publication date string, nothing else. *)
Definition item (link_ : string) (pubDate_ : option string) : Item.t :=
  {| Item.title := Some "Entry"; Item.link := Some link_;
     Item.guid := None; Item.contentSnippet := None;
     Item.description := None; Item.content := None;
     Item.pubDate := pubDate_; Item.media_content := None;
     Item.media_thumbnail := None; Item.enclosure := None |}.


(** A network on which [https://up.example/rss] answers with three
    items, the second with a date that no parser reads, and every other
    address fails. *)
Definition env : Env :=
  {| parseURL := λ u,
       if String.eqb u "https://up.example/rss" then
         Fulfilled {| items := [
           item "https://up.example/1" (Some "1970-01-01T00:00:01.000Z");
           item "https://up.example/2" (Some "not a date");
           item "https://up.example/3" (Some "1970-01-01T00:00:02.000Z") ] |}
       else Rejected "ENOTFOUND";
     legacy_date := λ _, JS.InvalidDate;
     clock := λ n, 5000 + Z.of_nat n;
     write_error := None |}.

Definition world (l : list Article) (fs : list FeedConfig) : World :=
  {| self := {| articles := l; feeds := fs; lastUpdate := None |};
     ticks := 0; console := []; disk := Absent |}.

(** A store that holds the two sample articles. *)
Definition store : Heap.Store :=
  {| Heap.this_obj :=
       {| Heap.articles_ref := 1%positive; Heap.feeds_ref := 2%positive;
          Heap.lastUpdate_val := None |};
     Heap.cells :=
       <[1%positive :=
           Heap.ArticleArray [ai (JS.ValidDate 0); sports (JS.ValidDate 0)]]>
         (<[2%positive := Heap.FeedArray []]> ∅) |}.

End Sample.

(** ** Tactics *)

(** Runs the binds of [M] on the world at hand. *)
Ltac run := unfold mbind, mret, M_bind, M_ret; simpl.

(** * The rest of the code *)

(** ** getStats *)

(** [[...new Set(l)]]: the elements of [l] in the order of their first
    occurrence, each once. *)
Fixpoint Set_spread_go (seen : gset string) (l : list string) : list string :=
  match l with
  | [] => []
  | x :: rest =>
      if decide (x ∈ seen) then Set_spread_go seen rest
      else x :: Set_spread_go ({[x]} ∪ seen) rest
  end.

Definition Set_spread (l : list string) : list string := Set_spread_go ∅ l.

(** The object that [getStats] returns. *)
Module Stats.

Record t := {
  totalArticles : nat;
  totalFeeds : nat;
  lastUpdate : option JS.Date;
  categories : list string;
  sources : list string
}.

End Stats.

Definition getStats (this : RSSAggregator) : Stats.t :=
  {| Stats.totalArticles := length (articles this);
     Stats.totalFeeds := length (feeds this);
     Stats.lastUpdate := lastUpdate this;
     Stats.categories := Set_spread (map category (articles this));
     Stats.sources := Set_spread (map source (articles this)) |}.

(** ** The server *)

(** [parseInt(s)] without a radix, where [None] is an absent query
    parameter ([undefined]): white space is skipped, then a sign, then
    [0x] or [0X] selects radix 16, then the longest run of digits is read;
    no digit gives NaN. *)
Module JSNum.

Definition digit_in (radix : Z) (c : ascii) : option Z :=
  let n := Z.of_nat (nat_of_ascii c) in
  let v :=
    if ((48 <=? n) && (n <=? 57))%bool then Some (n - 48)
    else if ((97 <=? n) && (n <=? 122))%bool then Some (n - 87)
    else if ((65 <=? n) && (n <=? 90))%bool then Some (n - 55)
    else None in
  match v with
  | Some d => if d <? radix then Some d else None
  | None => None
  end.

(** The value of the longest run of digits at the start of [s], on top of
    [acc]; [acc] is [None] as long as no digit was read. *)
Fixpoint read_int (radix : Z) (acc : option Z) (s : string) : option Z :=
  match s with
  | "" => acc
  | String c s' =>
      match digit_in radix c with
      | Some d => read_int radix (Some (radix * default 0 acc + d)) s'
      | None => acc
      end
  end.

Definition strip_sign (s : string) : Z * string :=
  match s with
  | String "-" r => (-1, r)
  | String "+" r => (1, r)
  | _ => (1, s)
  end.

Definition strip_hex_prefix (s : string) : Z * string :=
  match s with
  | String "0" (String "x" r) => (16, r)
  | String "0" (String "X" r) => (16, r)
  | _ => (10, s)
  end.

Definition parseInt (input : option string) : JS.number :=
  match input with
  | None => None
  | Some s =>
      let '(sign, s1) := strip_sign (JS.dropWhile_space s) in
      let '(radix, s2) := strip_hex_prefix s1 in
      n ← read_int radix None s2; Some (sign * n)
  end.

(** The decimal digits of [n >= 0], at most [fuel] of them. *)
Fixpoint digits (fuel : nat) (n : Z) : string :=
  match fuel with
  | O => ""
  | S fuel' =>
      (if n <? 10 then "" else digits fuel' (n / 10))
      +:+ String (JSDate.digit (n mod 10)) ""
  end.

(** [String(x)], as a template literal writes a Number: NaN, or the
    decimal digits with a minus sign for a negative integer.  (Numbers are
    integers taken exactly in this model; JavaScript writes them so below
    10^21.) *)
Definition toString (x : JS.number) : string :=
  match x with
  | None => "NaN"
  | Some n =>
      if n <? 0 then "-" +:+ digits (S (Z.to_nat (Z.log2 (- n)))) (- n)
      else digits (S (Z.to_nat (Z.log2 n))) n
  end.

(** [x || d] on a Number: NaN and 0 are falsy. *)
Definition or_default (x : JS.number) (d : Z) : Z :=
  match x with
  | Some n => if n =? 0 then d else n
  | None => d
  end.

End JSNum.

(** The query string of a request, as Express parses it: [req.query.q],
    [req.query.limit] and [req.query.offset], each one there or not. *)
Record Query := {
  query_q : option string;
  query_limit : option string;
  query_offset : option string
}.

(** An article as the search endpoint sends it. *)
Record SearchArticle := {
  sa_title : string;
  sa_url : string;
  sa_snippet : string;
  sa_imageUrl : option string;
  sa_source : string;
  sa_category : string;
  sa_pubDate : JS.Date;
  sa_interest : string
}.

(** The answers of [GET /search]: status 503 with an error and no
    articles, or status 200 with [{ query, count, articles }]. *)
Inductive SearchResponse :=
  | NotLoaded (error : string) (articles_ : list SearchArticle)
  | Found (query_ : string) (count_ : nat) (articles_ : list SearchArticle).

(** The object that the handler makes of an article of the result. *)
Definition to_search_article (query : string) (article : Article)
    : SearchArticle :=
  {| sa_title := title article;
     sa_url := url article;
     sa_snippet := snippet article;
     sa_imageUrl := JS.or_else (imageUrl article) None;
     sa_source := source article;
     sa_category := category article;
     sa_pubDate := pubDate article;
     sa_interest := query |}.

(** The handler of [GET /search] on the aggregator [this], at clock
    reading [now].  [search] does not throw on the records of the model,
    so that the [catch] of the handler (status 500) is not reached. *)
Definition search_handler (this : RSSAggregator) (now : Z) (req : Query)
    : SearchResponse :=
  let query := default "" (JS.or_else (query_q req) None) in
  let limit := JSNum.or_default (JSNum.parseInt (query_limit req)) 20 in
  let offset := JSNum.or_default (JSNum.parseInt (query_offset req)) 0 in
  if Nat.eqb (length (articles this)) 0 then
    NotLoaded "Articles not yet loaded. Please try again in a moment." []
  else
    let results := search this now query limit offset in
    Found query (length results) (map (to_search_article query) results).

(** What the server process writes to the console: its own lines, the
    lines of [loadFeeds], and the lines of the other methods of the
    aggregator. *)
Inductive ProcessLine :=
  | Starting
  | FeedsLoaded (count : nat)
  | FeedsError (message : string)
  | AutoRefreshTriggered
  | AutoRefreshFailed (message : string)
  | Scheduled (minutes : Z)
  | InitFailed (message : string)
  | Running
  | SearchEndpoint
  | StatsEndpoint
  | ManualRefresh
  | RefreshError (message : string)
  | ShuttingDown
  | Aggregator (line : LogLine).

(** The server process: the aggregator in its world, the lines written
    to the console ([console.log] and [console.error] alike), whether the
    refresh timer is set, whether the server listens, and the exit code
    once the process has exited.  The handlers and the timer callback run
    one at a time, each to its end. *)
Record Process := {
  world : World;
  stdout : list ProcessLine;
  timer : bool;
  listening : bool;
  exit_code : option Z
}.

(** How a step of the process completes; both ways leave a process. *)
Inductive Outcome (A : Type) :=
  | Done (a : A) (p : Process)
  | Thrown (error : string) (p : Process).
Arguments Done {A} a p.
Arguments Thrown {A} error p.

(** A step of the process; [None] is a step that leaves the object in a
    shape the records of the model do not have. *)
Definition P (A : Type) : Type := Process → option (Outcome A).

#[global] Instance P_ret : MRet P := λ A a p, Some (Done a p).

#[global] Instance P_bind : MBind P := λ A B f m p,
  match m p with
  | Some (Done a p') => f a p'
  | Some (Thrown e p') => Some (Thrown e p')
  | None => None
  end.

Definition with_world (p : Process) (w : World) : Process :=
  {| world := w; stdout := stdout p; timer := timer p;
     listening := listening p; exit_code := exit_code p |}.

Definition with_stdout (p : Process) (out : list ProcessLine) : Process :=
  {| world := world p; stdout := out; timer := timer p;
     listening := listening p; exit_code := exit_code p |}.

Definition print (line : ProcessLine) : P unit := λ p,
  Some (Done tt (with_stdout p (stdout p ++ [line]))).

(** [throw error] *)
Definition throw {A} (error : string) : P A := λ p, Some (Thrown error p).

(** A step that the model does not follow. *)
Definition unmodelled {A} : P A := λ _, None.

(** The aggregator of the process. *)
Definition aggregator : P RSSAggregator := λ p, Some (Done (self (world p)) p).

(** A method of the aggregator run by the process: its console lines go to
    the console of the process.  The methods lifted here do not throw. *)
Definition lift {A} (m : M A) : P A := λ p,
  match m (world p) with
  | Normal (a, w') =>
      Some (Done a
        (with_stdout (with_world p w')
           (stdout p ++
            (Aggregator <$> drop (length (console (world p))) (console w')))))
  | Throw e => Some (Thrown e p)
  end.

(** [loadFromFile] run by the process *)
Definition lift_load (env : Env) : P bool := λ p,
  match loadFromFile env (world p) with
  | Some c => lift (λ _, c) p
  | None => None
  end.

(** [try { body } catch (error) { handler(error) }] *)
Definition try_catch {A} (body : P A) (handler : string → P A) : P A := λ p,
  match body p with
  | Some (Thrown e p') => handler e p'
  | r => r
  end.

(** ** loadFeeds *)

(** An entry of the [feeds] array of [feeds.json]. *)
Definition feed_of_json (v : JSON.value) : option FeedConfig :=
  match v with
  | JSON.Obj members =>
      url_ ← as_string (JSON.get "url" members);
      category_ ← as_string (JSON.get "category" members);
      source_ ← as_string (JSON.get "source" members);
      keywords_ ← as_strings (JSON.get "keywords" members);
      Some {| feed_url := url_; feed_category := category_;
              feed_source := source_; feed_keywords := keywords_ |}
  | _ => None
  end.

Definition set_feeds (v : list FeedConfig) : M unit :=
  this ← get_this;
  set_this {| articles := articles this; feeds := v;
              lastUpdate := lastUpdate this |}.

(** The [try] block of [loadFeeds] on the content [file] of
    [./feeds.json].  Reading a missing file, parsing text that is not
    JSON, and reading [.feeds] of [null] throw before anything is
    assigned.  A document whose [feeds] is an array of feed entries gives
    the new registry.  On every other document the code assigns a value
    that is no list of feeds: the model has no record for it. *)
Definition loadFeeds_try (file : File) : P unit :=
  match file with
  | Absent => throw "ENOENT"
  | Malformed => throw "SyntaxError"
  | Document JSON.Null => throw "TypeError"
  | Document (JSON.Obj members) =>
      match JSON.get "feeds" members with
      | Some (JSON.Arr elements) =>
          match mapM feed_of_json elements with
          | Some fs =>
              lift (set_feeds fs);;
              print (FeedsLoaded (length fs))
          | None => unmodelled
          end
      | _ => unmodelled
      end
  | Document _ => unmodelled
  end.

(** [loadFeeds()]: the error is logged and thrown again. *)
Definition loadFeeds (file : File) : P unit :=
  try_catch (loadFeeds_try file)
    (λ error, print (FeedsError error);; throw error).

(** ** The life of the server *)

(** The body of the timer callback and of [POST /refresh] after their
    first line: [await aggregator.fetchAllFeeds(); await
    aggregator.saveToFile();] *)
Definition refresh_and_save (env : Env) : P unit :=
  lift (fetchAllFeeds env);; lift (saveToFile env).

(** The callback of [setInterval] *)
Definition auto_refresh (env : Env) : P unit :=
  try_catch (print AutoRefreshTriggered;; refresh_and_save env)
    (λ error, print (AutoRefreshFailed error)).

Definition set_timer : P unit := λ p,
  Some (Done tt {| world := world p; stdout := stdout p; timer := true;
                   listening := listening p; exit_code := exit_code p |}).

(** [process.exit(code)] *)
Definition exit (code : Z) : P unit := λ p,
  Some (Done tt {| world := world p; stdout := stdout p; timer := timer p;
                   listening := listening p; exit_code := Some code |}).

(** [initialize()], on the content [feeds_file] of [./feeds.json]. *)
Definition initialize (env : Env) (feeds_file : File) : P unit :=
  try_catch
    (print Starting;;
     loadFeeds feeds_file;;
     cacheLoaded ← lift_load env;
     (if negb cacheLoaded then refresh_and_save env else mret tt);;
     set_timer;;
     print (Scheduled 30))
    (λ error, print (InitFailed error);; exit 1).

(** [app.listen(PORT, callback)] *)
Definition listen : P unit := λ p,
  Some (Done tt {| world := world p;
                   stdout := stdout p ++ [Running; SearchEndpoint; StatsEndpoint];
                   timer := timer p; listening := true;
                   exit_code := exit_code p |}).

(** [initialize().then(() => app.listen(...))]: a process that has exited
    does not go on. *)
Definition start (env : Env) (feeds_file : File) : P unit := λ p,
  match initialize env feeds_file p with
  | Some (Done tt p') =>
      match exit_code p' with
      | Some _ => Some (Done tt p')
      | None => listen p'
      end
  | r => r
  end.

(** The answers of [POST /refresh]: success with the statistics, or
    status 500 with the message of the error. *)
Inductive RefreshResponse :=
  | Refreshed (stats : Stats.t)
  | RefreshFailed (message : string).

(** The handler of [POST /refresh] *)
Definition refresh_handler (env : Env) : P RefreshResponse :=
  try_catch
    (print ManualRefresh;;
     refresh_and_save env;;
     this ← aggregator;
     mret (Refreshed (getStats this)))
    (λ error, print (RefreshError error);; mret (RefreshFailed error)).

(** The handler of [SIGINT] *)
Definition shutdown (env : Env) : P unit :=
  print ShuttingDown;; lift (saveToFile env);; exit 0.

(** A process that has just created its aggregator: [new RSSAggregator()]
    has no articles, no feeds and no last update. *)
Definition new_process (cache : File) : Process :=
  {| world := {| self := {| articles := []; feeds := []; lastUpdate := None |};
                 ticks := 0; console := []; disk := cache |};
     stdout := []; timer := false; listening := false; exit_code := None |}.

(** ** Where an article comes from *)

(** [item.link || item.guid || ''] *)
Definition item_url (item : Item.t) : string :=
  default "" (JS.or_else (Item.link item) (Item.guid item)).

(** The article [a] is what the [forEach] callback of [fetchAllFeeds]
    builds from [item] for the feed [fc], up to the clock readings. *)
Definition built_from (fc : FeedConfig) (item : Item.t) (a : Article)
    : Prop :=
  url a = item_url item
  ∧ url a ≠ ""
  ∧ title a = default "Untitled" (JS.or_else (Item.title item) None)
  ∧ snippet a =
      cleanDescription
        (default "" (JS.or_else (Item.contentSnippet item)
                                (Item.description item)))
  ∧ content a =
      default "" (JS.or_else (Item.content item) (Item.description item))
  ∧ imageUrl a = extractImageFromItem item
  ∧ source a = feed_source fc
  ∧ category a = feed_category fc
  ∧ keywords a = feed_keywords fc
  ∧ (∃ t, fetchedAt a = JS.ValidDate t).

(** [a] was built from an item of a configured feed that answered. *)
Definition fetched_from (env : Env) (this : RSSAggregator) (a : Article)
    : Prop :=
  ∃ fc feed item,
    fc ∈ feeds this
    ∧ parseURL env (feed_url fc) = Fulfilled feed
    ∧ item ∈ items feed
    ∧ built_from fc item a.

(** ** Text without markup *)

(** [s] starts with a white-space character. *)
Definition starts_with_space (s : string) : bool :=
  match s with
  | "" => false
  | String c _ => Ascii.is_space c
  end.

(** Some < of [s] has a > after it: the pattern of the tag removal,
    a <, characters other than >, and a >, matches somewhere in [s]. *)
Fixpoint has_tag (s : string) : bool :=
  match s with
  | "" => false
  | String c s' => ((Ascii.eqb c "<"%char && Clean.has_gt s') || has_tag s')%bool
  end.

Fixpoint has_char (x : ascii) (s : string) : bool :=
  match s with
  | "" => false
  | String c s' => (Ascii.eqb c x || has_char x s')%bool
  end.


(** ** What the server finds in its files *)

(** The error that [loadFeeds] throws on the content of [feeds.json],
    when it throws. *)
Definition feeds_error (file : File) : option string :=
  match file with
  | Absent => Some "ENOENT"
  | Malformed => Some "SyntaxError"
  | Document JSON.Null => Some "TypeError"
  | Document _ => None
  end.

(** The registry that [feeds.json] holds: its [feeds] array, when every
    element is a feed entry. *)
Definition feeds_of_file (file : File) : option (list FeedConfig) :=
  match file with
  | Document (JSON.Obj members) =>
      match JSON.get "feeds" members with
      | Some (JSON.Arr elements) => mapM feed_of_json elements
      | _ => None
      end
  | _ => None
  end.

(** What the cache file gives to [loadFromFile]: the articles and the
    date of the last update ([Some (Some _)]), nothing that can be loaded
    ([Some None]: no file, no JSON, no array of articles, or a null
    element), or a document outside the model ([None]). *)
Definition cache_of (env : Env) (file : File)
    : option (option (list Article * JS.Date)) :=
  match file with
  | Absent | Malformed => Some None
  | Document parsed =>
      match revive_document (legacy_date env) parsed with
      | Some (Normal loaded) => Some (Some loaded)
      | Some (Throw _) => Some None
      | None => None
      end
  end.

(** The lines of the process that do not come from the aggregator. *)
Definition is_fetch_line (line : ProcessLine) : bool :=
  match line with
  | Aggregator LogStart => true
  | _ => false
  end.

Module ServerSample.

(** A [feeds.json] with the one feed of [Sample.env] that answers. *)
Definition feeds_file : File :=
  Document (JSON.Obj [("feeds", JSON.Arr [
    JSON.Obj [("url", JSON.Str "https://up.example/rss");
              ("category", JSON.Str "technology");
              ("source", JSON.Str "Example");
              ("keywords", JSON.Arr [JSON.Str "tech"])]])]).

(** A server that runs on a collection [l]. *)
Definition running (l : list Article) (cache : File) : Process :=
  {| world := {| self := {| articles := l;
                            feeds := [Sample.feed "https://up.example/rss"];
                            lastUpdate := Some (JS.ValidDate 5000) |};
                 ticks := 0; console := []; disk := cache |};
     stdout := []; timer := true; listening := true; exit_code := None |}.

End ServerSample.

(** ** The page *)

(** The script of the page: its variables, the parts of the document it
    reads and writes, and [localStorage].  The functions run one at a
    time, each to its end.  [settings] is taken with the shape that
    [saveToLocalStorage] leaves: a list of interests and two Numbers. *)
Module Frontend.

Record Settings := {
  interests : list string;
  totalArticles : JS.number;
  articlesPerInterest : JS.number
}.

(** An article of the answer of [/search], as the JSON text carries it. *)
Record Wire := {
  w_title : string;
  w_url : string;
  w_snippet : string;
  w_imageUrl : option string;
  w_source : string;
  w_category : string;
  w_pubDate : option string
}.

(** An article of [allArticles]. *)
Record Shown := {
  s_title : string;
  s_url : string;
  s_snippet : string;
  s_interest : string;
  s_source : string;
  s_category : string;
  s_pubDate : option string;
  s_imageUrl : option string
}.

(** The query string of the request that [fetchArticles] sends. *)
Record Request := {
  r_q : string;
  r_limit : string;
  r_offset : string
}.

(** What the [try] block gets from the network: the articles of the
    answer, or an error thrown by [fetch], by the status check or by
    [response.json()]. *)
Inductive Response :=
  | Answer (articles : list Wire)
  | Failed (error : string).

(** What lies outside the page: the backend, which answers the [n]-th
    request of the page, and [Math.random], by the order that the [n]-th
    [sort] with the random comparator leaves; whatever the comparator
    says, [sort] rearranges the elements it is given. *)
Record Browser := {
  backend : nat → Request → Response;
  shuffle : nat → list Shown → list Shown;
  shuffle_perm : ∀ n l, shuffle n l ≡ₚ l
}.

(** The texts of [showMessage] and the HTML written to the feed. *)
Inductive Message :=
  | AddInterestFirst
  | FetchFailed (interest : string).

Inductive Html :=
  | Loading
  | Heading
  | NoArticles
  | ArticleHTML (article : Shown)
  | DoomscrollWarning.

(** The operations on the feed element, in the order they happen. *)
Inductive FeedOp :=
  | SetInner (html : Html)
  | AppendInner (html : Html)
  | ShowMessage (message : Message)
  | RemoveWarning.

(** What [renderInterests] writes into the interest list. *)
Inductive InterestList :=
  | NoInterests
  | Tags (shown : list string).

Record Page := {
  settings : Settings;
  loadedArticles : gset string;
  currentPage : Z;
  isLoading : bool;
  interestInput : string;
  totalArticlesInput : string;
  articlesPerInterestInput : string;
  interestList : InterestList;
  feed : list FeedOp;
  newsReaderSettings : option JSON.value;
  requests : nat;
  sorts : nat;
  errors : list string
}.

Definition F (A : Type) : Type := Page → A * Page.

#[global] Instance F_ret : MRet F := λ A a page, (a, page).

#[global] Instance F_bind : MBind F := λ A B f m page,
  let (a, page') := m page in f a page'.

Definition get : F Page := λ page, (page, page).

Definition set_settings (v : Settings) : F unit := λ page,
  (tt, {| settings := v; loadedArticles := loadedArticles page;
          currentPage := currentPage page; isLoading := isLoading page;
          interestInput := interestInput page;
          totalArticlesInput := totalArticlesInput page;
          articlesPerInterestInput := articlesPerInterestInput page;
          interestList := interestList page; feed := feed page;
          newsReaderSettings := newsReaderSettings page;
          requests := requests page; sorts := sorts page;
          errors := errors page |}).

Definition set_loadedArticles (v : gset string) : F unit := λ page,
  (tt, {| settings := settings page; loadedArticles := v;
          currentPage := currentPage page; isLoading := isLoading page;
          interestInput := interestInput page;
          totalArticlesInput := totalArticlesInput page;
          articlesPerInterestInput := articlesPerInterestInput page;
          interestList := interestList page; feed := feed page;
          newsReaderSettings := newsReaderSettings page;
          requests := requests page; sorts := sorts page;
          errors := errors page |}).

Definition set_currentPage (v : Z) : F unit := λ page,
  (tt, {| settings := settings page; loadedArticles := loadedArticles page;
          currentPage := v; isLoading := isLoading page;
          interestInput := interestInput page;
          totalArticlesInput := totalArticlesInput page;
          articlesPerInterestInput := articlesPerInterestInput page;
          interestList := interestList page; feed := feed page;
          newsReaderSettings := newsReaderSettings page;
          requests := requests page; sorts := sorts page;
          errors := errors page |}).

Definition set_isLoading (v : bool) : F unit := λ page,
  (tt, {| settings := settings page; loadedArticles := loadedArticles page;
          currentPage := currentPage page; isLoading := v;
          interestInput := interestInput page;
          totalArticlesInput := totalArticlesInput page;
          articlesPerInterestInput := articlesPerInterestInput page;
          interestList := interestList page; feed := feed page;
          newsReaderSettings := newsReaderSettings page;
          requests := requests page; sorts := sorts page;
          errors := errors page |}).

Definition set_interestInput (v : string) : F unit := λ page,
  (tt, {| settings := settings page; loadedArticles := loadedArticles page;
          currentPage := currentPage page; isLoading := isLoading page;
          interestInput := v;
          totalArticlesInput := totalArticlesInput page;
          articlesPerInterestInput := articlesPerInterestInput page;
          interestList := interestList page; feed := feed page;
          newsReaderSettings := newsReaderSettings page;
          requests := requests page; sorts := sorts page;
          errors := errors page |}).

Definition set_interestList (v : InterestList) : F unit := λ page,
  (tt, {| settings := settings page; loadedArticles := loadedArticles page;
          currentPage := currentPage page; isLoading := isLoading page;
          interestInput := interestInput page;
          totalArticlesInput := totalArticlesInput page;
          articlesPerInterestInput := articlesPerInterestInput page;
          interestList := v; feed := feed page;
          newsReaderSettings := newsReaderSettings page;
          requests := requests page; sorts := sorts page;
          errors := errors page |}).

Definition feed_op (op : FeedOp) : F unit := λ page,
  (tt, {| settings := settings page; loadedArticles := loadedArticles page;
          currentPage := currentPage page; isLoading := isLoading page;
          interestInput := interestInput page;
          totalArticlesInput := totalArticlesInput page;
          articlesPerInterestInput := articlesPerInterestInput page;
          interestList := interestList page; feed := feed page ++ [op];
          newsReaderSettings := newsReaderSettings page;
          requests := requests page; sorts := sorts page;
          errors := errors page |}).

(** [localStorage.setItem('newsReaderSettings', text)], by the document
    that [text] is. *)
Definition setItem (v : JSON.value) : F unit := λ page,
  (tt, {| settings := settings page; loadedArticles := loadedArticles page;
          currentPage := currentPage page; isLoading := isLoading page;
          interestInput := interestInput page;
          totalArticlesInput := totalArticlesInput page;
          articlesPerInterestInput := articlesPerInterestInput page;
          interestList := interestList page; feed := feed page;
          newsReaderSettings := Some v;
          requests := requests page; sorts := sorts page;
          errors := errors page |}).

Definition console_error (error : string) : F unit := λ page,
  (tt, {| settings := settings page; loadedArticles := loadedArticles page;
          currentPage := currentPage page; isLoading := isLoading page;
          interestInput := interestInput page;
          totalArticlesInput := totalArticlesInput page;
          articlesPerInterestInput := articlesPerInterestInput page;
          interestList := interestList page; feed := feed page;
          newsReaderSettings := newsReaderSettings page;
          requests := requests page; sorts := sorts page;
          errors := errors page ++ [error] |}).

(** [await fetch(url)] through [await response.json()] *)
Definition fetch (browser : Browser) (request : Request) : F Response :=
  λ page,
  (backend browser (requests page) request,
   {| settings := settings page; loadedArticles := loadedArticles page;
      currentPage := currentPage page; isLoading := isLoading page;
      interestInput := interestInput page;
      totalArticlesInput := totalArticlesInput page;
      articlesPerInterestInput := articlesPerInterestInput page;
      interestList := interestList page; feed := feed page;
      newsReaderSettings := newsReaderSettings page;
      requests := S (requests page); sorts := sorts page;
      errors := errors page |}).

(** [l.sort(() => Math.random() - 0.5)] *)
Definition random_sort (browser : Browser) (l : list Shown)
    : F (list Shown) := λ page,
  (shuffle browser (sorts page) l,
   {| settings := settings page; loadedArticles := loadedArticles page;
      currentPage := currentPage page; isLoading := isLoading page;
      interestInput := interestInput page;
      totalArticlesInput := totalArticlesInput page;
      articlesPerInterestInput := articlesPerInterestInput page;
      interestList := interestList page; feed := feed page;
      newsReaderSettings := newsReaderSettings page;
      requests := requests page; sorts := S (sorts page);
      errors := errors page |}).

(** A loop over [l] that threads the variables [acc] it assigns. *)
Fixpoint for_each {A S} (body : S → A → F S) (acc : S) (l : list A) : F S :=
  match l with
  | [] => mret acc
  | x :: l' => acc' ← body acc x; for_each body acc' l'
  end.

(** *** The interests *)

(** [renderInterests()] *)
Definition renderInterests : F unit :=
  page ← get;
  if Nat.eqb (length (interests (settings page))) 0
  then set_interestList NoInterests
  else set_interestList (Tags (interests (settings page))).

(** A Number under [JSON.stringify]: NaN is written as [null]. *)
Definition json_of_number (x : JS.number) : JSON.value :=
  match x with
  | Some n => JSON.Num n
  | None => JSON.Null
  end.

Definition json_of_settings (v : Settings) : JSON.value :=
  JSON.Obj [
    ("interests", JSON.Arr (map JSON.Str (interests v)));
    ("totalArticles", json_of_number (totalArticles v));
    ("articlesPerInterest", json_of_number (articlesPerInterest v)) ].

(** [saveToLocalStorage()] *)
Definition saveToLocalStorage : F unit :=
  page ← get;
  set_settings
    {| interests := interests (settings page);
       totalArticles := JSNum.parseInt (Some (totalArticlesInput page));
       articlesPerInterest := articlesPerInterest (settings page) |};;
  page ← get;
  set_settings
    {| interests := interests (settings page);
       totalArticles := totalArticles (settings page);
       articlesPerInterest :=
         JSNum.parseInt (Some (articlesPerInterestInput page)) |};;
  page ← get;
  setItem (json_of_settings (settings page)).

(** [addInterest()] *)
Definition addInterest : F unit :=
  page ← get;
  let interest := JS.trim (interestInput page) in
  if (negb (String.eqb interest "")
      && negb (bool_decide (interest ∈ interests (settings page))))%bool
  then
    set_settings
      {| interests := interests (settings page) ++ [interest];
         totalArticles := totalArticles (settings page);
         articlesPerInterest := articlesPerInterest (settings page) |};;
    set_interestInput "";;
    renderInterests;;
    saveToLocalStorage
  else mret tt.

(** [removeInterest(interest)] *)
Definition removeInterest (interest : string) : F unit :=
  page ← get;
  set_settings
    {| interests := filter (λ i, i ≠ interest) (interests (settings page));
       totalArticles := totalArticles (settings page);
       articlesPerInterest := articlesPerInterest (settings page) |};;
  renderInterests;;
  saveToLocalStorage.

(** *** The feed *)

(** [currentPage * articlesPerInterest] *)
Definition times (k : Z) (x : JS.number) : JS.number :=
  n ← x; Some (k * n).

(** [added >= articlesPerInterest]: false on NaN. *)
Definition at_least (added : Z) (x : JS.number) : bool :=
  match x with
  | Some n => n <=? added
  | None => false
  end.

(** The object pushed to [allArticles]. *)
Definition to_shown (interest : string) (article : Wire) : Shown :=
  {| s_title := w_title article;
     s_url := w_url article;
     s_snippet :=
       if String.eqb (w_snippet article) "" then "No description available"
       else w_snippet article;
     s_interest := interest;
     s_source := w_source article;
     s_category := w_category article;
     s_pubDate := w_pubDate article;
     s_imageUrl := JS.or_else (w_imageUrl article) None |}.

(** The loop over [data.articles]: [break] once [added] has reached
    [articlesPerInterest], [continue] on a url already loaded. *)
Fixpoint take_articles (articlesPerInterest : JS.number) (interest : string)
    (articles : list Wire) (allArticles : list Shown) (added : Z)
    : F (list Shown) :=
  match articles with
  | [] => mret allArticles
  | article :: rest =>
      if at_least added articlesPerInterest then mret allArticles
      else
        page ← get;
        if decide (w_url article ∈ loadedArticles page)
        then take_articles articlesPerInterest interest rest allArticles added
        else
          set_loadedArticles ({[w_url article]} ∪ loadedArticles page);;
          take_articles articlesPerInterest interest rest
            (allArticles ++ [to_shown interest article]) (added + 1)
  end.

(** The body of the loop over the interests, with its [try] and
    [catch]. *)
Definition fetch_interest (browser : Browser) (articlesPerInterest : JS.number)
    (allArticles : list Shown) (interest : string) : F (list Shown) :=
  page ← get;
  let offset := times (currentPage page) articlesPerInterest in
  response ← fetch browser
    {| r_q := interest;
       r_limit := JSNum.toString articlesPerInterest;
       r_offset := JSNum.toString offset |};
  match response with
  | Answer articles =>
      take_articles articlesPerInterest interest articles allArticles 0
  | Failed error =>
      console_error error;;
      feed_op (ShowMessage (FetchFailed interest));;
      mret allArticles
  end.

(** [fetchArticles()] *)
Definition fetchArticles (browser : Browser) : F (list Shown) :=
  page ← get;
  let articlesPerInterest := articlesPerInterest (settings page) in
  allArticles ←
    for_each (fetch_interest browser articlesPerInterest) []
             (interests (settings page));
  shuffled ← random_sort browser allArticles;
  page ← get;
  mret (JS.slice 0 (default 0 (totalArticles (settings page))) shuffled).

(** [loadFeed(loadMore)].  [fetchArticles] catches the errors of each
    request, so that the [catch] of [loadFeed] is not reached. *)
Definition loadFeed (browser : Browser) (loadMore : bool) : F unit :=
  page ← get;
  if isLoading page then mret tt
  else if Nat.eqb (length (interests (settings page))) 0 then
    feed_op (ShowMessage AddInterestFirst)
  else
    (if negb loadMore
     then set_currentPage 0;; set_loadedArticles ∅
     else mret tt);;
    set_isLoading true;;
    (if negb loadMore then feed_op (SetInner Loading) else mret tt);;
    articles ← fetchArticles browser;
    (if negb loadMore then feed_op (SetInner Heading) else mret tt);;
    (if Nat.eqb (length articles) 0 then feed_op (AppendInner NoArticles)
     else
       for_each (λ _ article, feed_op (AppendInner (ArticleHTML article)))
                tt articles;;
       feed_op (AppendInner DoomscrollWarning));;
    page ← get;
    set_currentPage (currentPage page + 1);;
    set_isLoading false.

(** [loadMoreArticles()] *)
Definition loadMoreArticles (browser : Browser) : F unit :=
  feed_op RemoveWarning;;
  loadFeed browser true.

End Frontend.

(** ** Notions about the page *)

Module FrontendSpec.
Import Frontend.

(** The articles that a stretch of feed operations appends. *)
Definition appended (ops : list FeedOp) : list Shown :=
  omap (λ op, match op with
              | AppendInner (ArticleHTML a) => Some a
              | _ => None
              end) ops.

(** An operation other than a message. *)
Definition is_message (op : FeedOp) : bool :=
  match op with
  | ShowMessage _ => true
  | _ => false
  end.

(** An interest as [addInterest] stores it: not empty, no white space
    around it. *)
Definition tidy (interest : string) : Prop :=
  interest ≠ "" ∧ JS.trim interest = interest.

(** [page'] is [page] with other loaded urls. *)
Definition with_loaded (loaded : gset string) (page : Page) : Page :=
  snd (set_loadedArticles loaded page).

(** What stays and what grows while [fetchArticles] runs: the variables
    of the script other than the loaded urls stay, the loaded urls grow,
    and the feed gets messages only. *)
Definition fetching (page page' : Page) : Prop :=
  settings page' = settings page
  ∧ currentPage page' = currentPage page
  ∧ isLoading page' = isLoading page
  ∧ loadedArticles page ⊆ loadedArticles page'
  ∧ ∃ ops, feed page' = feed page ++ ops ∧ appended ops = [].

(** The request that [fetchArticles] sends for [interest] from [page]. *)
Definition request_for (page : Page) (interest : string) : Request :=
  let perInterest := articlesPerInterest (settings page) in
  {| r_q := interest;
     r_limit := JSNum.toString perInterest;
     r_offset := JSNum.toString (times (currentPage page) perInterest) |}.

(** [a] was made from an article of an answer that the backend gave,
    during the call that began on [page], to the request for the interest
    of [a]. *)
Definition answered (browser : Browser) (page : Page) (a : Shown) : Prop :=
  ∃ (n : nat) (articles : list Wire) (w : Wire),
    (requests page ≤ n < requests page
                         + length (interests (settings page)))%nat
    ∧ backend browser n (request_for page (s_interest a)) = Answer articles
    ∧ w ∈ articles
    ∧ a = to_shown (s_interest a) w.

(** The articles that a call of [fetchArticles] on [page] gathers in
    [allArticles], before the shuffle and the cut. *)
Definition gathered (browser : Browser) (page : Page) : list Shown :=
  fst (for_each
         (fetch_interest browser (articlesPerInterest (settings page)))
         [] (interests (settings page)) page).

(** The articles written to the feed since [page], on a later page. *)
Definition shown_since (page later : Page) : list Shown :=
  appended (drop (length (feed page)) (feed later)).

(** The page after [n] further calls of [loadMoreArticles]. *)
Fixpoint more_times (browser : Browser) (n : nat) (page : Page) : Page :=
  match n with
  | O => page
  | S n' => snd (loadMoreArticles browser (more_times browser n' page))
  end.

(** The transfer of an article of the server's answer through JSON. *)
Definition wire (a : SearchArticle) : Wire :=
  {| w_title := sa_title a;
     w_url := sa_url a;
     w_snippet := sa_snippet a;
     w_imageUrl := sa_imageUrl a;
     w_source := sa_source a;
     w_category := sa_category a;
     w_pubDate := JSDate.toJSON (sa_pubDate a) |}.

(** The answer that the page gets when its backend is this server on the
    aggregator [this]: [req.query] holds the three parameters as text,
    status 503 fails the status check, and status 200 carries the
    articles as JSON. *)
Definition served (this : RSSAggregator) (now : Z) (request : Request)
    : Response :=
  match search_handler this now
          {| query_q := Some (r_q request);
             query_limit := Some (r_limit request);
             query_offset := Some (r_offset request) |} with
  | NotLoaded _ _ => Failed "Server returned 503"
  | Found _ _ sent => Answer (wire <$> sent)
  end.

End FrontendSpec.

Module FrontendSample.
Import Frontend.

Definition wire_article (url_ : string) : Wire :=
  {| w_title := "Entry"; w_url := url_; w_snippet := "";
     w_imageUrl := None; w_source := "Example";
     w_category := "technology"; w_pubDate := None |}.

(** A backend that has two articles for every interest but "down", and a
    sort that reverses. *)
Definition browser : Browser :=
  {| backend := λ _ request,
       if String.eqb (r_q request) "down" then Failed "Failed to fetch"
       else Answer [wire_article "https://up.example/1";
                    wire_article "https://up.example/2"];
     shuffle := λ _ l, rev l;
     shuffle_perm := λ _ l, Permutation_sym (Permutation_rev l) |}.

(** A page that was just opened, with [l] as interests. *)
Definition page (l : list string) : Page :=
  {| settings := {| interests := l; totalArticles := Some 10;
                    articlesPerInterest := Some 5 |};
     loadedArticles := ∅; currentPage := 0; isLoading := false;
     interestInput := ""; totalArticlesInput := "10";
     articlesPerInterestInput := "5"; interestList := NoInterests;
     feed := []; newsReaderSettings := None;
     requests := 0; sorts := 0; errors := [] |}.

(** A browser whose backend is the server on the aggregator [this],
    with the clock standing at [now]. *)
Definition server_browser (this : RSSAggregator) (now : Z) : Browser :=
  {| backend := λ _ request, FrontendSpec.served this now request;
     shuffle := λ _ l, rev l;
     shuffle_perm := λ _ l, Permutation_sym (Permutation_rev l) |}.

(** A page with one interest, and another one typed into the input. *)
Definition editing : Page :=
  {| settings := {| interests := ["ai"]; totalArticles := Some 10;
                    articlesPerInterest := Some 5 |};
     loadedArticles := ∅; currentPage := 0; isLoading := false;
     interestInput := "  rust "; totalArticlesInput := "10";
     articlesPerInterestInput := ""; interestList := Tags ["ai"];
     feed := []; newsReaderSettings := None;
     requests := 0; sorts := 0; errors := [] |}.

End FrontendSample.

(** ** More tactics *)


(** * The model on known values *)

(** What Node prints for the same expressions. *)

Example toLowerCase_title : JS.toLowerCase "AI Breakthrough" = "ai breakthrough".
Proof. reflexivity. Qed.

Example split_two_words :
  JS.split_ws "machine  learning" = ["machine"; "learning"].
Proof. reflexivity. Qed.

Example split_keeps_empty_ends :
  JS.split_ws " ai news " = [""; "ai"; "news"; ""].
Proof. reflexivity. Qed.

Example includes_empty_word : JS.includes "sports" "" = true.
Proof. reflexivity. Qed.

Example trim_both_ends : JS.trim "  top stories " = "top stories".
Proof. reflexivity. Qed.

Example slice_window : JS.slice 1 3 [10; 20; 30; 40; 50] = [20; 30].
Proof. reflexivity. Qed.

Example slice_from_the_end : JS.slice (-2) 10 [10; 20; 30; 40; 50] = [40; 50].
Proof. reflexivity. Qed.

Example sort_keeps_ties_in_order :
  JS.sort (λ a b : Z * string, Some (b.1 - a.1))
          [(1, "a"); (2, "b"); (1, "c"); (2, "d")]
  = [(2, "b"); (2, "d"); (1, "a"); (1, "c")].
Proof. reflexivity. Qed.

Example toISOString_epoch : JSDate.toISOString 0 = "1970-01-01T00:00:00.000Z".
Proof. vm_compute. reflexivity. Qed.

Example toISOString_millis :
  JSDate.toISOString 1700000000123 = "2023-11-14T22:13:20.123Z".
Proof. vm_compute. reflexivity. Qed.

Example toISOString_before_epoch :
  JSDate.toISOString (-1) = "1969-12-31T23:59:59.999Z".
Proof. vm_compute. reflexivity. Qed.

Example toISOString_last_day :
  JSDate.toISOString JSDate.maxTime = "+275760-09-13T00:00:00.000Z".
Proof. vm_compute. reflexivity. Qed.

Example parse_leap_day :
  JSDate.parse_iso "2024-02-29T23:59:59.999Z" = Some 1709251199999.
Proof. vm_compute. reflexivity. Qed.

Example parse_no_such_day :
  JSDate.parse_iso "2023-02-29T00:00:00.000Z" = None.
Proof. vm_compute. reflexivity. Qed.

Example img_takes_last_src_of_tag :
  ImgRegex.exec "<p><IMG class='hero' src='a.png' data-src='b.png'></p>"
  = Some "b.png".
Proof. vm_compute. reflexivity. Qed.

Example img_needs_a_quoted_src :
  ImgRegex.exec "<img alt='x'> src='c.png'" = None.
Proof. vm_compute. reflexivity. Qed.

Example cleanDescription_strips_and_decodes :
  cleanDescription "<p>Fish &amp; chips &lt;3 <b>today</b></p>  "
  = "Fish & chips <3 today".
Proof. vm_compute. reflexivity. Qed.
(** * Facts about the built-ins *)

Module JSFacts.
Import JS.

(** ** slice *)

Lemma slice_nonneg {A} (s e : Z) (l : list A) :
  0 ≤ s → 0 ≤ e →
  slice s e l = take (Z.to_nat (e - s)) (drop (Z.to_nat s) l).
Proof.
  intros Hs He. unfold slice, relative_index.
  destruct (Z.ltb_spec s 0) as [|_]; [lia|].
  destruct (Z.ltb_spec e 0) as [|_]; [lia|].
  destruct (Z_lt_le_dec s (Z.of_nat (length l))) as [Hlt|Hge].
  - rewrite (Z.min_l s) by lia.
    destruct (Z_lt_le_dec e (Z.of_nat (length l))) as [He'|He'].
    + by rewrite (Z.min_l e) by lia.
    + rewrite (Z.min_r e) by lia.
      rewrite !take_ge; [done | |]; rewrite length_drop; lia.
  - rewrite (Z.min_r s) by lia.
    rewrite !(drop_ge l) by lia. by rewrite !take_nil.
Qed.

Lemma slice_from_start {A} (e : Z) (l : list A) :
  0 ≤ e → slice 0 e l = take (Z.to_nat e) l.
Proof.
  intros He. rewrite slice_nonneg by lia.
  by rewrite Z.sub_0_r.
Qed.

Lemma slice_length_le {A} (s e : Z) (l : list A) :
  0 ≤ s → 0 ≤ e → (length (slice s e l) ≤ Z.to_nat (e - s))%nat.
Proof.
  intros Hs He. rewrite slice_nonneg by done. rewrite length_take. lia.
Qed.

(** Two consecutive windows of width [n] make the window of width [2 n]. *)
Lemma slice_consecutive {A} (o n : Z) (l : list A) :
  0 ≤ o → 0 ≤ n →
  slice o (o + n) l ++ slice (o + n) (o + n + n) l = slice o (o + n + n) l.
Proof.
  intros Ho Hn. rewrite !slice_nonneg by lia.
  replace (o + n - o) with n by lia.
  replace (o + n + n - (o + n)) with n by lia.
  replace (o + n + n - o) with (n + n) by lia.
  rewrite (Z2Nat.inj_add o n), (Z2Nat.inj_add n n) by lia.
  by rewrite <- (drop_drop l), take_take_drop.
Qed.


Lemma slice_fmap {A B} (f : A → B) (s e : Z) (l : list A) :
  slice s e (f <$> l) = f <$> slice s e l.
Proof. unfold slice. by rewrite length_fmap, fmap_take, fmap_drop. Qed.

(** ** sort *)

Section SortFacts.
Context {A : Type} (comparefn : A → A → number).

Lemma sort_insert_perm (x : A) (l : list A) :
  sort_insert comparefn x l ≡ₚ x :: l.
Proof.
  induction l as [|y l IH]; simpl; [done|].
  destruct (sorts_after comparefn x y); [|done].
  rewrite IH. apply Permutation_swap.
Qed.

Lemma sort_perm (l : list A) : sort comparefn l ≡ₚ l.
Proof.
  induction l as [|x l IH]; simpl; [done|].
  by rewrite sort_insert_perm, IH.
Qed.

Lemma elem_of_sort (x : A) (l : list A) : x ∈ sort comparefn l ↔ x ∈ l.
Proof. by rewrite sort_perm. Qed.

Lemma length_sort (l : list A) : length (sort comparefn l) = length l.
Proof. by rewrite sort_perm. Qed.

(** Insertion passes [x] only over elements that sort strictly before
    it, so it keeps the order within any class [P] of elements that
    never sort strictly apart. *)
Lemma filter_sort_insert (P : A → Prop) `{!∀ a, Decision (P a)}
    (x : A) (l : list A) :
  (∀ y, y ∈ l → P x → P y → sorts_after comparefn x y = false) →
  filter P (sort_insert comparefn x l) = filter P (x :: l).
Proof.
  induction l as [|y l IH]; intros Hcls; simpl; [done|].
  destruct (sorts_after comparefn x y) eqn:Hxy; [|done].
  rewrite filter_cons, IH by (intros; apply Hcls; [by right|done..]).
  rewrite !filter_cons.
  destruct (decide (P y)) as [Hy|Hy], (decide (P x)) as [Hx|Hx]; try done.
  rewrite Hcls in Hxy by (done || by left). done.
Qed.

(** The comparator orders by a key, largest first. *)
Section Descending.
Context (key : A → Z).

Lemma descending_on_cons x l :
  descending_on comparefn key (x :: l) → descending_on comparefn key l.
Proof. intros H a b Ha Hb. apply H; by right. Qed.

Lemma sort_insert_sorted (x : A) (l : list A) :
  descending_on comparefn key (x :: l) →
  StronglySorted (λ a b, key b ≤ key a) l →
  StronglySorted (λ a b, key b ≤ key a) (sort_insert comparefn x l).
Proof.
  intros Hd Hs. induction Hs as [|y l Hs IH Hy]; simpl.
  { repeat constructor. }
  rewrite (Hd x y) by (by left || by right; left).
  case_bool_decide as Hxy.
  - constructor.
    + apply IH. intros a b Ha Hb. apply Hd.
      * apply elem_of_cons in Ha as [->|Ha]; [by left|by right; right].
      * apply elem_of_cons in Hb as [->|Hb]; [by left|by right; right].
    + rewrite Forall_forall. intros z Hz.
      rewrite sort_insert_perm in Hz.
      apply elem_of_cons in Hz as [->|Hz]; [lia|].
      rewrite Forall_forall in Hy. by apply Hy.
  - constructor; [by constructor|].
    constructor; [lia|].
    rewrite Forall_forall in Hy |- *. intros z Hz.
    specialize (Hy z Hz). lia.
Qed.

Lemma sort_sorted (l : list A) :
  descending_on comparefn key l →
  StronglySorted (λ a b, key b ≤ key a) (sort comparefn l).
Proof.
  induction l as [|x l IH]; intros Hd; simpl; [constructor|].
  apply sort_insert_sorted.
  - intros a b Ha Hb. apply Hd.
    + apply elem_of_cons in Ha as [->|Ha]; [by left|].
      right. by apply (proj1 (elem_of_sort a l)).
    + apply elem_of_cons in Hb as [->|Hb]; [by left|].
      right. by apply (proj1 (elem_of_sort b l)).
  - apply IH. by eapply descending_on_cons.
Qed.

(** Stability: the elements of one key keep their order. *)
Lemma sort_stable (k : Z) (l : list A) :
  descending_on comparefn key l →
  filter (λ a, key a = k) (sort comparefn l) = filter (λ a, key a = k) l.
Proof.
  induction l as [|x l IH]; intros Hd; simpl; [done|].
  rewrite filter_sort_insert.
  - rewrite !filter_cons, IH; [done|by eapply descending_on_cons].
  - intros y Hy Hx Hy'. rewrite Hd.
    + apply bool_decide_eq_false. lia.
    + by left.
    + right. by apply (proj1 (elem_of_sort y l)).
Qed.
End Descending.
End SortFacts.
End JSFacts.

(** * Dates as text: reading back what toISOString writes *)

Module JSDateFacts.
Import JS JSDate.

Lemma digit_value_digit (k : Z) :
  0 ≤ k ≤ 9 → digit_value (digit k) = Some k.
Proof.
  intros Hk.
  assert (k = 0 ∨ k = 1 ∨ k = 2 ∨ k = 3 ∨ k = 4 ∨ k = 5 ∨ k = 6 ∨ k = 7
          ∨ k = 8 ∨ k = 9) as Hcases by lia.
  repeat (destruct Hcases as [->|Hcases]; [reflexivity|]).
  by subst.
Qed.

Lemma digit_is_no_sign (k : Z) (s : string) :
  0 ≤ k ≤ 9 →
  read_year (String (digit k) s) = read_digits 4 0 (String (digit k) s).
Proof.
  intros Hk.
  assert (k = 0 ∨ k = 1 ∨ k = 2 ∨ k = 3 ∨ k = 4 ∨ k = 5 ∨ k = 6 ∨ k = 7
          ∨ k = 8 ∨ k = 9) as Hcases by lia.
  repeat (destruct Hcases as [->|Hcases]; [reflexivity|]).
  by subst.
Qed.

Lemma read_digit (n : nat) (acc k : Z) (s : string) :
  0 ≤ k ≤ 9 →
  read_digits (S n) acc (String (digit k) s) = read_digits n (10 * acc + k) s.
Proof.
  intros Hk. cbn [read_digits]. rewrite digit_value_digit by done.
  reflexivity.
Qed.

Lemma append_cons (c : ascii) (s r : string) :
  String c s +:+ r = String c (s +:+ r).
Proof. reflexivity. Qed.

Lemma append_nil (r : string) : "" +:+ r = r.
Proof. reflexivity. Qed.

Lemma read_pad2 (n acc : Z) (rest : string) :
  0 ≤ n < 100 →
  read_digits 2 acc (pad2 n +:+ rest) = Some (100 * acc + n, rest).
Proof.
  intros Hn. unfold pad2. rewrite ?append_cons, ?append_nil.
  rewrite !read_digit by (Z.div_mod_to_equations; lia).
  cbn [read_digits]. do 2 f_equal. Z.div_mod_to_equations; lia.
Qed.

Lemma read_pad3 (n acc : Z) (rest : string) :
  0 ≤ n < 1000 →
  read_digits 3 acc (pad3 n +:+ rest) = Some (1000 * acc + n, rest).
Proof.
  intros Hn. unfold pad3. rewrite ?append_cons, ?append_nil.
  rewrite read_digit by (Z.div_mod_to_equations; lia).
  rewrite read_pad2 by (Z.div_mod_to_equations; lia).
  do 2 f_equal. Z.div_mod_to_equations; lia.
Qed.

Lemma read_pad4 (n acc : Z) (rest : string) :
  0 ≤ n < 10000 →
  read_digits 4 acc (pad4 n +:+ rest) = Some (10000 * acc + n, rest).
Proof.
  intros Hn. unfold pad4. rewrite ?append_cons, ?append_nil.
  rewrite read_digit by (Z.div_mod_to_equations; lia).
  rewrite read_pad3 by (Z.div_mod_to_equations; lia).
  do 2 f_equal. Z.div_mod_to_equations; lia.
Qed.

Lemma read_pad6 (n acc : Z) (rest : string) :
  0 ≤ n < 1000000 →
  read_digits 6 acc (pad6 n +:+ rest) = Some (1000000 * acc + n, rest).
Proof.
  intros Hn. unfold pad6. rewrite ?append_cons, ?append_nil.
  rewrite !read_digit by (Z.div_mod_to_equations; lia).
  rewrite read_pad4 by (Z.div_mod_to_equations; lia).
  do 2 f_equal. Z.div_mod_to_equations; lia.
Qed.

Lemma read_format_year (y : Z) (rest : string) :
  -1000000 < y < 1000000 →
  read_year (format_year y +:+ rest) = Some (y, rest).
Proof.
  intros Hy. unfold format_year.
  destruct (Z.leb_spec 0 y) as [H0|H0];
    [destruct (Z.leb_spec y 9999) as [H9|H9]|]; cbn [andb].
  - unfold pad4 at 1. rewrite ?append_cons, ?append_nil.
    rewrite digit_is_no_sign by (Z.div_mod_to_equations; lia).
    change (String (digit (y / 1000)) (pad3 (y mod 1000) +:+ rest))
      with (pad4 y +:+ rest).
    rewrite read_pad4 by lia. by replace (10000 * 0 + y) with y by lia.
  - destruct (Z.ltb_spec y 0); [lia|]. rewrite ?append_cons, ?append_nil. cbn [read_year].
    rewrite read_pad6 by lia.
    by replace (1000000 * 0 + Z.abs y) with y by lia.
  - destruct (Z.ltb_spec y 0); [|lia]. rewrite ?append_cons, ?append_nil. cbn [read_year].
    rewrite read_pad6 by lia. cbn [mbind option_bind].
    destruct (Z.eqb_spec (1000000 * 0 + Z.abs y) 0); [lia|].
    by replace (- (1000000 * 0 + Z.abs y)) with y by lia.
Qed.
End JSDateFacts.

Module CalendarFacts.
Import JSDate Calendar.

Lemma all_from_spec (p : Z → bool) (depth : nat) (lo : Z) :
  all_from depth lo p = true →
  ∀ z, lo ≤ z < lo + 2 ^ Z.of_nat depth → p z = true.
Proof.
  revert lo. induction depth as [|depth IH]; intros lo Hall z Hz.
  - simpl in *. by replace z with lo by lia.
  - cbn [all_from] in Hall. apply andb_prop in Hall as [Hlow Hhigh].
    rewrite Nat2Z.inj_succ, Z.pow_succ_r in Hz by lia.
    destruct (Z_lt_le_dec z (lo + 2 ^ Z.of_nat depth)).
    + apply (IH lo); [done|lia].
    + apply (IH (lo + 2 ^ Z.of_nat depth)); [done|lia].
Qed.

Lemma era_checked :
  all_from 18 0 (λ z, (146097 <=? z) || era_day_ok z)%bool = true.
Proof. vm_cast_no_check (eq_refl true). Qed.

Lemma era_days_ok (doe : Z) :
  0 ≤ doe < 146097 → era_day_ok doe = true.
Proof.
  intros Hdoe.
  pose proof (all_from_spec _ _ _ era_checked doe) as Hz.
  change (2 ^ Z.of_nat 18) with 262144 in Hz.
  assert (0 ≤ doe < 0 + 262144) as Hrange by lia.
  apply Hz in Hrange. clear Hz.
  apply orb_prop in Hrange as [Hz|Hz]; [|exact Hz].
  apply Z.leb_le in Hz. lia.
Qed.

Lemma is_leap_era (a e : Z) : is_leap (a + e * 400) = is_leap a.
Proof.
  unfold is_leap.
  replace ((a + e * 400) mod 4) with (a mod 4)
    by (Z.div_mod_to_equations; lia).
  replace ((a + e * 400) mod 100) with (a mod 100)
    by (Z.div_mod_to_equations; lia).
  replace ((a + e * 400) mod 400) with (a mod 400)
    by (Z.div_mod_to_equations; lia).
  reflexivity.
Qed.

Lemma days_in_month_era (a e m : Z) :
  days_in_month (a + e * 400) m = days_in_month a m.
Proof. unfold days_in_month. by rewrite is_leap_era. Qed.

(** [civil_from_days] gives a date of the calendar, and
    [days_from_civil] leads back from it. *)
Lemma civil_from_days_spec (z : Z) :
  ∃ y m d,
    civil_from_days z = (y, m, d)
    ∧ 1 ≤ m ≤ 12
    ∧ 1 ≤ d ≤ days_in_month y m
    ∧ days_from_civil y m d = z
    ∧ 400 * ((z + 719468) / 146097) ≤ y
        ≤ 400 * ((z + 719468) / 146097) + 400.
Proof.
  unfold civil_from_days.
  set (era := (z + 719468) / 146097).
  set (doe := z + 719468 - era * 146097).
  assert (0 ≤ doe < 146097) as Hdoe
    by (unfold doe, era; Z.div_mod_to_equations; lia).
  pose proof (era_days_ok doe Hdoe) as Hok. unfold era_day_ok in Hok.
  set (yoe := (doe - doe / 1460 + doe / 36524 - doe / 146096) / 365) in *.
  set (doy := doe - (365 * yoe + yoe / 4 - yoe / 100)) in *.
  set (mp := (5 * doy + 2) / 153) in *.
  set (d := doy - (153 * mp + 2) / 5 + 1) in *.
  set (m := if mp <? 10 then mp + 3 else mp - 9) in *.
  repeat (apply andb_prop in Hok as [Hok ?]).
  repeat match goal with
         | H : (_ <=? _) = true |- _ => apply Z.leb_le in H
         end.
  assert (0 ≤ mp) as Hmp by (unfold mp; Z.div_mod_to_equations; lia).
  assert (1 ≤ m ≤ 12 ∧ (m ≤ 2 ↔ 10 ≤ mp)
          ∧ (if 2 <? m then m - 3 else m + 9) = mp) as (Hm & Hm2 & Hback).
  { unfold m. destruct (Z.ltb_spec mp 10).
    - destruct (Z.ltb_spec 2 (mp + 3)); lia.
    - destruct (Z.ltb_spec 2 (mp - 9)); lia. }
  eexists _, m, d. split; [reflexivity|]. split; [done|].
  destruct (Z.leb_spec m 2) as [Hle|Hgt].
  - replace (yoe + era * 400 + 1) with (yoe + 1 + era * 400) by lia.
    rewrite days_in_month_era. split; [lia|]. split; [|lia].
    unfold days_from_civil. destruct (Z.leb_spec m 2); [|lia].
    rewrite Hback.
    replace (yoe + 1 + era * 400 - 1) with (yoe + era * 400) by lia.
    replace ((yoe + era * 400) / 400) with era
      by (Z.div_mod_to_equations; lia).
    replace (yoe + era * 400 - era * 400) with yoe by lia.
    unfold d, doy, doe. lia.
  - rewrite days_in_month_era. split; [lia|]. split; [|lia].
    unfold days_from_civil. destruct (Z.leb_spec m 2); [lia|].
    rewrite Hback.
    replace ((yoe + era * 400) / 400) with era
      by (Z.div_mod_to_equations; lia).
    replace (yoe + era * 400 - era * 400) with yoe by lia.
    unfold d, doy, doe. lia.
Qed.
End CalendarFacts.

Module RoundTrip.
Import JS JSDate JSDateFacts.

Lemma expect_here (c : ascii) (s : string) : expect c (String c s) = Some s.
Proof. unfold expect. by rewrite Ascii.eqb_refl. Qed.

Lemma read2 (n : Z) (rest : string) :
  0 ≤ n < 100 → read_digits 2 0 (pad2 n +:+ rest) = Some (n, rest).
Proof. intros Hn. by rewrite read_pad2 by done. Qed.

Lemma read3 (n : Z) (rest : string) :
  0 ≤ n < 1000 → read_digits 3 0 (pad3 n +:+ rest) = Some (n, rest).
Proof. intros Hn. by rewrite read_pad3 by done. Qed.

Lemma days_in_month_le (y m : Z) : days_in_month y m ≤ 31.
Proof.
  unfold days_in_month.
  destruct (m =? 2); [destruct (is_leap y); lia|].
  destruct (_ || _)%bool; lia.
Qed.

(** Reading back what [toISOString] wrote gives the time value again,
    to the millisecond, over the whole range of a [Date]. *)
Lemma parse_iso_toISOString (t : Z) :
  Z.abs t ≤ maxTime → parse_iso (toISOString t) = Some t.
Proof.
  intros Ht. unfold toISOString.
  set (day := t / msPerDay). set (ms := t mod msPerDay).
  assert (0 ≤ ms < 86400000) as Hms
    by (unfold ms, msPerDay; Z.div_mod_to_equations; lia).
  assert (t = day * msPerDay + ms) as Hsplit
    by (unfold day, ms, msPerDay; Z.div_mod_to_equations; lia).
  assert (-100000001 ≤ day ≤ 100000000) as Hday
    by (unfold day, msPerDay; unfold maxTime in Ht;
        Z.div_mod_to_equations; lia).
  destruct (CalendarFacts.civil_from_days_spec day)
    as (y & m & d & -> & Hm & Hd & Hback & Hy).
  pose proof (days_in_month_le y m) as Hdim.
  assert (-1000000 < y < 1000000) as Hyr
    by (Z.div_mod_to_equations; lia).
  unfold parse_iso.
  rewrite read_format_year by done. cbn [mbind option_bind].
  rewrite append_cons, append_nil, expect_here. cbn [mbind option_bind].
  rewrite read2 by lia. cbn [mbind option_bind].
  rewrite append_cons, append_nil, expect_here. cbn [mbind option_bind].
  rewrite read2 by lia. cbn [mbind option_bind].
  rewrite append_cons, append_nil, expect_here. cbn [mbind option_bind].
  rewrite read2 by (Z.div_mod_to_equations; lia). cbn [mbind option_bind].
  rewrite append_cons, append_nil, expect_here. cbn [mbind option_bind].
  rewrite read2 by (Z.div_mod_to_equations; lia). cbn [mbind option_bind].
  rewrite append_cons, append_nil, expect_here. cbn [mbind option_bind].
  rewrite read2 by (Z.div_mod_to_equations; lia). cbn [mbind option_bind].
  rewrite append_cons, append_nil, expect_here. cbn [mbind option_bind].
  rewrite read3 by (Z.div_mod_to_equations; lia). cbn [mbind option_bind].
  rewrite expect_here. cbn [mbind option_bind].
  change (String.eqb "" "") with true.
  rewrite !(proj2 (Z.leb_le _ _)) by (Z.div_mod_to_equations; lia).
  cbn [andb]. f_equal. rewrite Hback.
  unfold msPerDay in *. Z.div_mod_to_equations. lia.
Qed.

Lemma parse_toISOString (legacy : string → Date) (t : Z) :
  Z.abs t ≤ maxTime → parse legacy (toISOString t) = ValidDate t.
Proof.
  intros Ht. unfold parse, time_clip.
  rewrite parse_iso_toISOString by done.
  by rewrite (proj2 (Z.leb_le _ _)).
Qed.
End RoundTrip.

(** * Facts about fetchAllFeeds *)

Section FetchFacts.
Context (env : Env).

Lemma push_item_normal fc arts item w :
  ∃ arts' w', push_item env fc arts item w = Normal (arts', w')
    ∧ same_object w w' ∧ console w' = console w.
Proof.
  unfold push_item.
  destruct (String.eqb _ ""); [by eexists _, _|].
  destruct (JS.truthy (Item.pubDate item)); by eexists _, _.
Qed.

Lemma push_items_normal fc items arts w :
  ∃ arts' w', for_each (push_item env fc) arts items w = Normal (arts', w')
    ∧ same_object w w' ∧ console w' = console w.
Proof.
  revert arts w. induction items as [|item items IH]; intros arts w; simpl.
  { by eexists _, _. }
  destruct (push_item_normal fc arts item w) as (a1 & w1 & E1 & [S1 D1] & C1).
  destruct (IH a1 w1) as (a2 & w2 & E2 & [S2 D2] & C2).
  exists a2, w2. run. rewrite E1. simpl. rewrite E2.
  repeat split; congruence.
Qed.

Lemma collect_normal acc result w :
  ∃ acc' w', collect env acc result w = Normal (acc', w')
    ∧ same_object w w'
    ∧ successCount acc' =
        successCount acc + (if is_fulfilled result then 1 else 0)
    ∧ errorCount acc' =
        errorCount acc + (if is_fulfilled result then 0 else 1)
    ∧ (is_fulfilled result = false → newArticles acc' = newArticles acc).
Proof.
  destruct result as [[feed fc]|reason]; simpl.
  - destruct (push_items_normal fc (items feed) (newArticles acc) w)
      as (a1 & w1 & E1 & [S1 D1] & C1).
    eexists _, _. run. rewrite E1. simpl.
    split; [done|]. repeat split; simpl; try done; lia.
  - eexists _, _. run. split; [done|]. repeat split; simpl; try done; lia.
Qed.

Lemma collect_all_normal results acc w :
  ∃ acc' w', for_each (collect env) acc results w = Normal (acc', w')
    ∧ same_object w w'
    ∧ successCount acc' =
        successCount acc + Z.of_nat (length (filter (λ r, is_fulfilled r = true) results))
    ∧ errorCount acc' =
        errorCount acc + Z.of_nat (length (filter (λ r, is_fulfilled r = false) results))
    ∧ (Forall (λ r, is_fulfilled r = false) results →
       newArticles acc' = newArticles acc).
Proof.
  revert acc w. induction results as [|r results IH]; intros acc w; simpl.
  { eexists _, _. split; [done|]. repeat split; simpl; try done; lia. }
  destruct (collect_normal acc r w) as (a1 & w1 & E1 & [S1 D1] & Hs1 & He1 & Hn1).
  destruct (IH a1 w1) as (a2 & w2 & E2 & [S2 D2] & Hs2 & He2 & Hn2).
  exists a2, w2. run. rewrite E1. simpl. rewrite E2.
  split; [done|]. split; [split; congruence|].
  rewrite !filter_cons.
  destruct r as [v|reason]; simpl in *;
    repeat case_decide; try done; simpl length.
  - split; [lia|]. split; [lia|].
    intros HF. by inversion HF.
  - split; [lia|]. split; [lia|].
    intros HF. inversion HF; subst. rewrite Hn2 by done. by apply Hn1.
Qed.

Lemma filter_feed_promises (b : bool) (this : RSSAggregator) :
  length (filter (λ r, is_fulfilled r = b) (feed_promises env this)) =
  length (filter (λ fc, is_fulfilled (parseURL env (feed_url fc)) = b)
                 (feeds this)).
Proof.
  unfold feed_promises. induction (feeds this) as [|fc l IH]; [done|].
  simpl. rewrite !filter_cons.
  destruct (parseURL env (feed_url fc)); simpl; destruct b;
    repeat case_decide; simpl; try done; by rewrite IH.
Qed.

(** The first half of a refresh always completes; it leaves the object
    and the cache file alone and counts every feed once. *)
Lemma gather_normal w :
  ∃ tally w',
    gather env w = Normal (clock env (ticks w), tally, w')
    ∧ same_object w w'
    ∧ successCount tally = Z.of_nat (length (fulfilled_feeds env (self w)))
    ∧ errorCount tally = Z.of_nat (length (rejected_feeds env (self w)))
    ∧ (fulfilled_feeds env (self w) = [] → newArticles tally = []).
Proof.
  unfold gather. run.
  match goal with |- context [for_each _ ?a ?r ?w0] =>
    destruct (collect_all_normal r a w0) as (t & w1 & E & [S D] & Hs & He & Hn)
  end.
  exists t, w1. rewrite E. simpl in *.
  split; [done|]. split; [by split|].
  rewrite Hs, He, !filter_feed_promises. split; [done|]. split; [done|].
  intros Hnone. apply Hn. unfold feed_promises.
  rewrite Forall_forall. intros r Hr.
  apply list_elem_of_fmap in Hr as (fc & -> & Hfc).
  destruct (parseURL env (feed_url fc)) eqn:Hp; [|done].
  assert (fc ∈ fulfilled_feeds env (self w)) as Hin.
  { apply list_elem_of_filter. by rewrite Hp. }
  rewrite Hnone in Hin. by apply elem_of_nil in Hin.
Qed.

(** What a refresh does, in one equation: it completes, and the new
    collection is the sorted, deduplicated candidate list, whatever the
    collection was before. *)
Lemma fetchAllFeeds_normal w :
  ∃ w',
    fetchAllFeeds env w =
      Normal (JS.sort by_pubDate (removeDuplicates (candidates env w)), w')
    ∧ articles (self w') =
        JS.sort by_pubDate (removeDuplicates (candidates env w))
    ∧ feeds (self w') = feeds (self w)
    ∧ (∃ t, lastUpdate (self w') = Some (JS.ValidDate t))
    ∧ disk w' = disk w
    ∧ LogFetched (Z.of_nat (length (fulfilled_feeds env (self w))))
                 (length (feeds (self w))) ∈ console w'
    ∧ LogFailed (Z.of_nat (length (rejected_feeds env (self w))))
        ∈ console w'.
Proof.
  destruct (gather_normal w) as (t & w1 & E & [S D] & Hs & He & _).
  unfold candidates, fetchAllFeeds. run. rewrite E. simpl.
  eexists. split; [reflexivity|]. simpl.
  rewrite S, D, Hs, He. repeat split; try done.
  - by eexists.
  - rewrite !elem_of_app, !list_elem_of_singleton. tauto.
  - rewrite !elem_of_app, !list_elem_of_singleton. tauto.
Qed.
End FetchFacts.

(** * Deduplication *)

Section Dedup.
Implicit Types (seen : gset string) (l : list Article) (u : string).

Lemma removeDuplicates_go_unseen seen l a :
  a ∈ removeDuplicates_go seen l → (url a ∉ seen) ∧ (a ∈ l).
Proof.
  revert seen. induction l as [|b l IH]; intros seen; simpl.
  { by intros ?%elem_of_nil. }
  case_decide as Hb.
  - intros Ha. apply IH in Ha as [? ?]. split; [done|by right].
  - intros Ha. apply elem_of_cons in Ha as [->|Ha].
    + split; [done|by left].
    + apply IH in Ha as [Hn ?]. split; [|by right].
      intros Hs. apply Hn, elem_of_union. by right.
Qed.

Lemma removeDuplicates_go_sublist seen l :
  sublist (removeDuplicates_go seen l) l.
Proof.
  revert seen. induction l as [|b l IH]; intros seen; simpl.
  { constructor. }
  case_decide; [apply sublist_cons|apply sublist_skip]; apply IH.
Qed.

Lemma removeDuplicates_go_NoDup seen l :
  NoDup (url <$> removeDuplicates_go seen l).
Proof.
  revert seen. induction l as [|b l IH]; intros seen; simpl.
  { constructor. }
  case_decide as Hb; [done|]. rewrite fmap_cons. constructor; [|done].
  intros (a & Ea & Ha)%list_elem_of_fmap.
  apply removeDuplicates_go_unseen in Ha as [Hn _].
  apply Hn, elem_of_union. left. by apply elem_of_singleton.
Qed.

(** The articles of url [u] that survive: none if [u] was seen before,
    otherwise the first one of [l] alone. *)
Lemma removeDuplicates_go_filter seen l u :
  filter (λ a, url a = u) (removeDuplicates_go seen l) =
  if decide (u ∈ seen) then []
  else option_list (head (filter (λ a, url a = u) l)).
Proof.
  revert seen. induction l as [|b l IH]; intros seen; simpl.
  { by case_decide. }
  destruct (decide (url b ∈ seen)) as [Hb|Hb].
  - rewrite IH. case_decide as Hu; [done|].
    rewrite (filter_cons _ b). rewrite decide_False; [done|].
    intros Hbu. apply Hu. by rewrite <- Hbu.
  - rewrite !(filter_cons _ b). destruct (decide (url b = u)) as [<-|Hne].
    + rewrite IH. rewrite decide_True.
      * by rewrite decide_False.
      * apply elem_of_union. left. by apply elem_of_singleton.
    + rewrite IH. destruct (decide (u ∈ seen)) as [Hu|Hu].
      * rewrite decide_True; [done|]. apply elem_of_union. by right.
      * rewrite decide_False; [done|].
        intros [Hin%elem_of_singleton|Hin]%elem_of_union; congruence.
Qed.
End Dedup.

(** C5: deduplication keeps, for every url, exactly the first article of
    that url in candidate order and drops the later ones, whatever their
    source; the articles kept stay in candidate order. *)
Theorem removeDuplicates_keeps_first (candidate_list : list Article) :
  (∀ u, filter (λ a, url a = u) (removeDuplicates candidate_list)
        = option_list (head (filter (λ a, url a = u) candidate_list)))
  ∧ NoDup (url <$> removeDuplicates candidate_list)
  ∧ sublist (removeDuplicates candidate_list) candidate_list.
Proof.
  unfold removeDuplicates. split; [|split].
  - intros u. rewrite removeDuplicates_go_filter.
    rewrite decide_False; [done|]. apply not_elem_of_empty.
  - apply removeDuplicates_go_NoDup.
  - apply removeDuplicates_go_sublist.
Qed.

(** * The refresh cycle *)

(** C2, as stated, fails: a refresh in which the only source fails
    replaces a collection of one article by the empty collection. *)
Lemma refresh_all_fail_overwrites :
  let w := Sample.world [Sample.ai (JS.ValidDate 0)]
                        [Sample.feed "https://down.example/rss"] in
  fulfilled_feeds Sample.env (self w) = []
  ∧ articles (self w) ≠ []
  ∧ ∃ w', fetchAllFeeds Sample.env w = Normal ([], w')
          ∧ articles (self w') = []
          ∧ articles (self w') ≠ articles (self w).
Proof.
  simpl. split; [done|]. split; [done|].
  eexists. split; [vm_compute; reflexivity|]. by simpl.
Qed.

(** C2, amended: after a refresh in which every source fails, the live
    collection is empty, whatever it held before. *)
Theorem refresh_all_fail_gives_empty (env : Env) (w : World) :
  fulfilled_feeds env (self w) = [] →
  ∃ w', fetchAllFeeds env w = Normal ([], w') ∧ articles (self w') = [].
Proof.
  intros Hnone.
  destruct (fetchAllFeeds_normal env w) as (w' & E & Ha & _).
  destruct (gather_normal env w) as (t & w1 & Eg & _ & _ & _ & Hn).
  assert (candidates env w = []) as Hc.
  { unfold candidates. rewrite Eg. by apply Hn. }
  rewrite Hc in E, Ha. exists w'. by split.
Qed.

Lemma refresh_all_fail_gives_empty_witness :
  let w := Sample.world [Sample.ai (JS.ValidDate 0)]
                        [Sample.feed "https://down.example/rss"] in
  fulfilled_feeds Sample.env (self w) = []
  ∧ ∃ w', fetchAllFeeds Sample.env w = Normal ([], w')
          ∧ articles (self w') = [].
Proof.
  simpl. split; [reflexivity|].
  apply refresh_all_fail_gives_empty. reflexivity.
Defined.

(** C9, as stated, fails: with an empty registry the refresh does not
    fail, it completes with an empty collection. *)
Lemma refresh_empty_registry_succeeds :
  let w := Sample.world [Sample.ai (JS.ValidDate 0)] [] in
  feeds (self w) = []
  ∧ ∃ w', fetchAllFeeds Sample.env w = Normal ([], w').
Proof. simpl. split; [done|]. eexists. vm_compute. reflexivity. Qed.

(** C9, amended: a refresh never fails, whatever the registry, the empty
    one included; the failure of a source is only counted: the console
    reports how many sources were fetched and how many failed, and the two
    counts add up to the number of sources. *)
Theorem refresh_never_fails (env : Env) (w : World) :
  ∃ arts w',
    fetchAllFeeds env w = Normal (arts, w')
    ∧ LogFetched (Z.of_nat (length (fulfilled_feeds env (self w))))
                 (length (feeds (self w))) ∈ console w'
    ∧ LogFailed (Z.of_nat (length (rejected_feeds env (self w))))
        ∈ console w'
    ∧ (length (fulfilled_feeds env (self w))
       + length (rejected_feeds env (self w)) = length (feeds (self w)))%nat.
Proof.
  destruct (fetchAllFeeds_normal env w) as (w' & E & _ & _ & _ & _ & Hs & He).
  eexists _, w'. split; [exact E|]. split; [done|]. split; [done|].
  clear. unfold fulfilled_feeds, rejected_feeds.
  induction (feeds (self w)) as [|fc l IH]; [done|].
  rewrite !filter_cons.
  destruct (is_fulfilled (parseURL env (feed_url fc)));
    repeat case_decide; try done; cbn [length]; lia.
Qed.

(** ** The order of the refreshed collection *)

Lemma by_pubDate_descending (l : list Article) :
  Forall has_valid_date l →
  descending_on by_pubDate (λ a, time_of (pubDate a)) l.
Proof.
  rewrite Forall_forall. intros Hv x y Hx Hy.
  destruct (Hv x Hx) as [tx Ex], (Hv y Hy) as [ty Ey].
  unfold JS.sorts_after, by_pubDate, time_of. rewrite Ex, Ey. simpl.
  destruct (Z.ltb_spec 0 (ty - tx)); symmetry;
    [apply bool_decide_eq_true | apply bool_decide_eq_false]; lia.
Qed.

Lemma StronglySorted_weaken {A} (R R' : A → A → Prop) (l : list A) :
  (∀ a b, a ∈ l → b ∈ l → R a b → R' a b) →
  StronglySorted R l → StronglySorted R' l.
Proof.
  intros Himp Hs. induction Hs as [|x l Hs IH Hx]; constructor.
  - apply IH. intros a b Ha Hb. apply Himp; by right.
  - rewrite Forall_forall in Hx |- *. intros y Hy.
    apply Himp; [by left|by right|by apply Hx].
Qed.

Lemma filter_agree {A} (P Q : A → Prop) `{!∀ a, Decision (P a)}
    `{!∀ a, Decision (Q a)} (l : list A) :
  (∀ a, a ∈ l → P a ↔ Q a) → filter P l = filter Q l.
Proof.
  induction l as [|x l IH]; intros Hagree; [done|].
  rewrite !filter_cons, IH by (intros; apply Hagree; by right).
  destruct (decide (P x)) as [p|p], (decide (Q x)) as [q|q]; try done;
    destruct (Hagree x); try (by left); tauto.
Qed.

Lemma filter_none {A} (P : A → Prop) `{!∀ a, Decision (P a)} (l : list A) :
  (∀ a, a ∈ l → ¬ P a) → filter P l = [].
Proof.
  induction l as [|x l IH]; intros Hno; [done|].
  rewrite filter_cons, IH by (intros; apply Hno; by right).
  rewrite decide_False; [done|]. apply Hno. by left.
Qed.

(** Lines 539-544 on candidates whose dates are all valid: the collection
    is sorted newest first, and the articles of one date keep the order
    they had among the deduplicated candidates. *)
Lemma sort_by_pubDate_valid (l : list Article) :
  Forall has_valid_date l →
  newest_first (JS.sort by_pubDate l)
  ∧ ∀ d, filter (λ a, pubDate a = d) (JS.sort by_pubDate l)
         = filter (λ a, pubDate a = d) l.
Proof.
  intros Hv. pose proof (by_pubDate_descending l Hv) as Hd.
  assert (Forall has_valid_date (JS.sort by_pubDate l)) as Hv'.
  { by rewrite JSFacts.sort_perm. }
  split.
  - eapply StronglySorted_weaken; [|by apply JSFacts.sort_sorted].
    rewrite Forall_forall in Hv'.
    intros a b Ha Hb. destruct (Hv' a Ha) as [ta Ea], (Hv' b Hb) as [tb Eb].
    unfold not_older, time_of. by rewrite Ea, Eb.
  - intros [t|].
    + rewrite (filter_agree _ (λ a, time_of (pubDate a) = t) (JS.sort _ _)),
              (filter_agree _ (λ a, time_of (pubDate a) = t) l).
      * by apply JSFacts.sort_stable.
      * rewrite Forall_forall in Hv. intros a Ha.
        destruct (Hv a Ha) as [ta Ea]. unfold time_of. rewrite Ea. simpl.
        split; congruence.
      * rewrite Forall_forall in Hv'. intros a Ha.
        destruct (Hv' a Ha) as [ta Ea]. unfold time_of. rewrite Ea. simpl.
        split; congruence.
    + rewrite !filter_none; [done| |].
      * rewrite Forall_forall in Hv. intros a Ha.
        destruct (Hv a Ha) as [ta Ea]. by rewrite Ea.
      * rewrite Forall_forall in Hv'. intros a Ha.
        destruct (Hv' a Ha) as [ta Ea]. by rewrite Ea.
Qed.

(** The refresh as a whole, when every candidate has a valid date. *)
Lemma refresh_sorted_when_dates_valid (env : Env) (w : World) :
  Forall has_valid_date (candidates env w) →
  ∃ arts w',
    fetchAllFeeds env w = Normal (arts, w')
    ∧ articles (self w') = arts
    ∧ newest_first arts
    ∧ ∀ d, filter (λ a, pubDate a = d) arts
           = filter (λ a, pubDate a = d) (removeDuplicates (candidates env w)).
Proof.
  intros Hv.
  destruct (fetchAllFeeds_normal env w) as (w' & E & Ha & _).
  eexists _, w'. split; [exact E|]. split; [done|].
  apply sort_by_pubDate_valid.
  rewrite Forall_forall in Hv |- *. intros a Hin. apply Hv.
  by apply removeDuplicates_go_unseen in Hin as [_ ?].
Qed.

(** A collection of two or more articles that is sorted newest first
    holds valid dates only. *)
Lemma newest_first_valid (l : list Article) :
  newest_first l → (2 ≤ length l)%nat → Forall has_valid_date l.
Proof.
  intros Hs Hlen. destruct Hs as [|x l Hs Hx]; [simpl in Hlen; lia|].
  destruct l as [|y l]; [simpl in Hlen; lia|].
  assert (∀ a b, not_older a b → has_valid_date a ∧ has_valid_date b) as Hv.
  { intros a b. unfold not_older, has_valid_date.
    destruct (pubDate a), (pubDate b); simpl; try done. eauto. }
  constructor.
  - apply Forall_cons in Hx as [Hxy _]. by apply Hv in Hxy as [? _].
  - rewrite Forall_forall in Hx |- *. intros z Hz.
    by apply Hx, Hv in Hz as [_ ?].
Qed.

(** C6 at a failing input: the feed of [Sample.env] carries an entry whose
    date no parser reads, between two dated entries.  The refresh gives it
    an invalid date, on which the comparator answers NaN, and the sort
    leaves the entry of second 1 in front of the entry of second 2: the
    refreshed collection is not sorted newest first, and no arrangement
    of its articles is. *)
Theorem refresh_unsorted_with_invalid_date :
  let w := Sample.world [] [Sample.feed "https://up.example/rss"] in
  ∃ arts w',
    fetchAllFeeds Sample.env w = Normal (arts, w')
    ∧ articles (self w') = arts
    ∧ pubDate <$> arts =
        [JS.ValidDate 1000; JS.InvalidDate; JS.ValidDate 2000]
    ∧ ∀ l, l ≡ₚ arts → ¬ newest_first l.
Proof.
  simpl. eexists _, _. split; [vm_compute; reflexivity|].
  split; [reflexivity|]. split; [reflexivity|].
  intros l Hperm Hs. apply newest_first_valid in Hs.
  - rewrite Hperm in Hs.
    apply Forall_cons in Hs as [_ Hs]. apply Forall_cons in Hs as [[t Ht] _].
    discriminate Ht.
  - rewrite (Permutation_length Hperm). simpl. lia.
Qed.

(** * Search *)

Section Scoring.

Lemma fold_left_count {A} (p : A → bool) (c : Z) (l : list A) (s : Z) :
  fold_left (λ score x, if p x then score + c else score) l s
  = s + c * count p l.
Proof.
  unfold count. revert s. induction l as [|x l IH]; intros s; simpl.
  { lia. }
  rewrite IH, filter_cons.
  destruct (p x); case_decide; try done; cbn [length]; lia.
Qed.

Lemma count_app {A} (p : A → bool) (l1 l2 : list A) :
  count p (l1 ++ l2) = count p l1 + count p l2.
Proof. unfold count. rewrite filter_app, length_app. lia. Qed.

Lemma count_fmap {A B} (f : A → B) (p : B → bool) (l : list A) :
  count p (f <$> l) = count (p ∘ f) l.
Proof.
  unfold count. f_equal. induction l as [|x l IH]; [done|].
  rewrite fmap_cons, !filter_cons. simpl.
  destruct (p (f x)); repeat case_decide; try done; cbn [length];
    by rewrite IH.
Qed.

Lemma fold_left_keywords (words : list string) (ks : list string) (s : Z) :
  fold_left (λ score keyword,
    fold_left (λ score word,
      if (JS.includes (JS.toLowerCase keyword) word
          || JS.includes word (JS.toLowerCase keyword))%bool
      then score + 3 else score) words score) ks s
  = s + 3 * count keyword_hit (cprod ks words).
Proof.
  revert s. induction ks as [|k ks IH]; intros s; simpl.
  { unfold count. simpl. lia. }
  rewrite IH.
  pose proof (fold_left_count (λ word, keyword_hit (k, word)) 3 words s)
    as Hinner.
  change (cprod (k :: ks) words)
    with ((pair k <$> words) ++ cprod ks words).
  rewrite count_app, count_fmap. unfold compose.
  etransitivity; [apply (f_equal (λ z, z + _)), Hinner|]. lia.
Qed.

(** The loops of the scoring callback add up to the closed form. *)
Lemma score_article_formula (now : Z) (queryLower : string)
    (words : list string) (a : Article) :
  score_article now queryLower words a
  = {| sc_article := a; sc_score := score_formula now queryLower words a |}.
Proof.
  unfold score_article, score_formula, text_score. f_equal.
  rewrite fold_left_keywords, !fold_left_count.
  destruct (JS.includes (JS.toLowerCase (category a)) queryLower); lia.
Qed.



End Scoring.

Section SearchFacts.
Context (this : RSSAggregator) (now : Z).

Lemma search_no_query (query : string) (limit offset : Z) :
  no_query query = true →
  search this now query limit offset = JS.slice 0 limit (articles this).
Proof. unfold search. by intros ->. Qed.

Lemma search_query (query : string) (limit offset : Z) :
  no_query query = false →
  search this now query limit offset
  = JS.slice offset (offset + limit) (full_results this now query).
Proof.
  unfold search, full_results. intros ->. by rewrite JSFacts.slice_fmap.
Qed.

(** The ranked items are the scored articles with a positive score. *)
Lemma elem_of_ranked (query : string) (item : Scored) :
  item ∈ ranked this now query ↔
  0 < sc_score item ∧
  ∃ a, a ∈ articles this ∧
       item = {| sc_article := a; sc_score := score now query a |}.
Proof.
  unfold ranked. rewrite JSFacts.elem_of_sort, list_elem_of_filter.
  rewrite list_elem_of_fmap. unfold score, split_words.
  split.
  - intros [Hpos (a & E & Ha)]. split; [done|]. exists a.
    split; [done|]. rewrite E. by rewrite !score_article_formula.
  - intros [Hpos (a & Ha & E)]. split; [done|]. exists a.
    split; [|done]. rewrite E. by rewrite !score_article_formula.
Qed.


(** For a query that is not empty, two consecutive pages make up the
    window of twice the width on the ranked results. *)
Lemma search_pages_partition (query : string) (limit offset : Z) :
  no_query query = false → 0 ≤ limit → 0 ≤ offset →
  search this now query limit offset
    ++ search this now query limit (offset + limit)
  = JS.slice offset (offset + limit + limit) (full_results this now query).
Proof.
  intros Hq Hl Ho. rewrite !search_query by done.
  by apply JSFacts.slice_consecutive.
Qed.
End SearchFacts.

(** C1 at a failing input: on a collection of two articles the empty query
    with limit 1 and offset 1 returns the first article again, where C1
    has the second one, the window of length 1 from index 1. *)
Theorem search_empty_query_ignores_offset :
  let this := Sample.two (JS.ValidDate 0) (JS.ValidDate 0) in
  search this 0 "" 1 1 = [Sample.ai (JS.ValidDate 0)]
  ∧ JS.slice 1 (1 + 1) (articles this) = [Sample.sports (JS.ValidDate 0)]
  ∧ search this 0 "" 1 1 ≠ JS.slice 1 (1 + 1) (articles this).
Proof. simpl. split; [reflexivity|]. split; [reflexivity|]. discriminate. Qed.

(** C4 at a failing input: for the empty query the pages at offsets 0 and
    1 are the same article, so that they overlap and leave the second
    article out of the window of length 2. *)
Theorem search_empty_query_pages_overlap :
  let this := Sample.two (JS.ValidDate 0) (JS.ValidDate 0) in
  search this 0 "" 1 0 ++ search this 0 "" 1 (0 + 1)
    = [Sample.ai (JS.ValidDate 0); Sample.ai (JS.ValidDate 0)]
  ∧ JS.slice 0 (0 + 1 + 1) (full_results this 0 "")
    = [Sample.ai (JS.ValidDate 0); Sample.sports (JS.ValidDate 0)].
Proof. simpl. split; reflexivity. Qed.




(** * Image extraction *)




(** * search and the state of the aggregator *)

Module HeapFacts.
Implicit Types (h : gmap Heap.ref Heap.Cell) (r : Heap.ref) (c : Heap.Cell).

Lemma fresh_unused h : h !! fresh (dom h) = None.
Proof. apply not_elem_of_dom, is_fresh. Qed.

(** A reference in use is not the next one allocated. *)
Lemma used_not_fresh h r : r ∈ dom h → r ≠ fresh (dom h).
Proof. intros Hr ->. by apply (is_fresh (dom h)). Qed.

(** Allocation leaves the cells in use as they are. *)
Lemma lookup_alloc h c r :
  r ∈ dom h → <[fresh (dom h) := c]> h !! r = h !! r.
Proof.
  intros Hr. apply lookup_insert_ne. intros E. by apply (used_not_fresh h r).
Qed.

Lemma dom_alloc h c r : r ∈ dom h → r ∈ dom (<[fresh (dom h) := c]> h).
Proof. intros Hr. rewrite dom_insert. apply elem_of_union. by right. Qed.

(** [search] run on a store whose [articles] reference holds [a]. *)
Lemma search_run (s : Heap.Store) (a : list Article) (now : Z) (query : string)
    (limit offset : Z) :
  Heap.cells s !! Heap.articles_ref (Heap.this_obj s) = Some (Heap.ArticleArray a) →
  ∃ r h',
    Heap.search s now query limit offset
      = Some (r, {| Heap.this_obj := Heap.this_obj s; Heap.cells := h' |})
    ∧ (∀ r0, r0 ∈ dom (Heap.cells s) → h' !! r0 = Heap.cells s !! r0)
    ∧ h' !! r = Some (Heap.ArticleArray
        (search {| articles := a; feeds := []; lastUpdate := None |}
                    now query limit offset)).
Proof.
  intros Ha. unfold Heap.search, search. simpl.
  destruct (no_query query).
  - unfold Heap.slice_articles, Heap.op_bind, Heap.read_articles, Heap.alloc. rewrite Ha.
    eexists _, _. split; [reflexivity|]. split.
    + intros r0 Hr0. by apply lookup_alloc.
    + by rewrite lookup_insert_eq.
  - unfold Heap.map_score, Heap.filter_scored, Heap.sort_scored,
      Heap.slice_scored, Heap.map_article, Heap.op_bind, Heap.op_ret,
      Heap.read_articles, Heap.read_scored, Heap.write, Heap.alloc.
    rewrite Ha. rewrite lookup_insert_eq. rewrite lookup_insert_eq.
    rewrite lookup_insert_eq. rewrite lookup_insert_eq.
    eexists _, _. split; [reflexivity|]. split.
    + intros r0 Hr0.
      set (h1 := <[fresh (dom (Heap.cells s)) := _]> (Heap.cells s)).
      assert (r0 ∈ dom h1) as Hr1 by by apply dom_alloc.
      set (r2 := fresh (dom h1)).
      set (h2 := <[r2 := _]> h1).
      assert (r0 ∈ dom h2) as Hr2 by by apply dom_alloc.
      set (h3 := <[r2 := _]> h2).
      assert (r0 ∈ dom h3) as Hr3.
      { unfold h3. rewrite dom_insert. apply elem_of_union. by right. }
      set (h4 := <[fresh (dom h3) := _]> h3).
      assert (r0 ∈ dom h4) as Hr4 by by apply dom_alloc.
      etransitivity; [by apply lookup_alloc|].
      etransitivity; [by apply lookup_alloc|].
      etransitivity.
      { apply lookup_insert_ne. symmetry. by apply used_not_fresh. }
      etransitivity; [by apply lookup_alloc|].
      by apply lookup_alloc.
    + by rewrite lookup_insert_eq.
Qed.
End HeapFacts.

(** C10: a call of [search] leaves the state of the aggregator as it
    was: the fields of [this] keep their values, every array that existed
    before the call keeps its content (the articles and the feeds among
    them), and so the aggregator seen through [this] is the same before
    and after.  The call returns a new array, which holds what [search]
    computes from the collection. *)
Theorem search_leaves_state (s : Heap.Store) (this : RSSAggregator)
    (now : Z) (query : string) (limit offset : Z) :
  Heap.view s = Some this →
  ∃ r s',
    Heap.search s now query limit offset = Some (r, s')
    ∧ Heap.this_obj s' = Heap.this_obj s
    ∧ (∀ r0, r0 ∈ dom (Heap.cells s) →
             Heap.cells s' !! r0 = Heap.cells s !! r0)
    ∧ Heap.view s' = Some this
    ∧ Heap.cells s' !! r
      = Some (Heap.ArticleArray (search this now query limit offset)).
Proof.
  intros Hview. unfold Heap.view in Hview.
  destruct (Heap.cells s !! Heap.articles_ref (Heap.this_obj s))
    as [[a| |]|] eqn:Ha; try done.
  destruct (Heap.cells s !! Heap.feeds_ref (Heap.this_obj s))
    as [[| |f]|] eqn:Hf; try done.
  injection Hview as <-.
  destruct (HeapFacts.search_run s a now query limit offset Ha)
    as (r & h' & E & Hframe & Hres).
  exists r, {| Heap.this_obj := Heap.this_obj s; Heap.cells := h' |}.
  split; [done|]. split; [done|]. split; [done|]. split.
  - unfold Heap.view. simpl.
    rewrite !Hframe by (apply elem_of_dom; by eexists).
    by rewrite Ha, Hf.
  - done.
Qed.

Lemma search_leaves_state_witness :
  Heap.view Sample.store
    = Some (Sample.two (JS.ValidDate 0) (JS.ValidDate 0))
  ∧ ∃ r s',
      Heap.search Sample.store (100 * Sample.day) "ai" 20 0 = Some (r, s')
      ∧ Heap.this_obj s' = Heap.this_obj Sample.store
      ∧ (∀ r0, r0 ∈ dom (Heap.cells Sample.store) →
               Heap.cells s' !! r0 = Heap.cells Sample.store !! r0)
      ∧ Heap.view s' = Some (Sample.two (JS.ValidDate 0) (JS.ValidDate 0))
      ∧ Heap.cells s' !! r
        = Some (Heap.ArticleArray
                  (search (Sample.two (JS.ValidDate 0) (JS.ValidDate 0))
                          (100 * Sample.day) "ai" 20 0)).
Proof.
  split; [vm_compute; reflexivity|].
  apply search_leaves_state. vm_compute. reflexivity.
Defined.

(** * The cache *)

Section Cache.
Context (legacy : string → JS.Date).

Lemma date_of_json_of_date (d : JS.Date) :
  in_range d → date_of_json legacy (Some (json_of_date d)) = Some d.
Proof.
  destruct d as [t|]; [|done]. intros Ht. unfold json_of_date. simpl.
  by rewrite RoundTrip.parse_toISOString.
Qed.

Lemma as_strings_of_strings (l : list string) :
  as_strings (Some (JSON.Arr (map JSON.Str l))) = Some l.
Proof.
  unfold as_strings. induction l as [|s l IH]; [done|].
  cbn [map mapM]. rewrite IH. done.
Qed.

Lemma as_nullable_of_nullable (o : option string) :
  as_nullable (Some (json_of_nullable o)) = Some o.
Proof. by destruct o. Qed.

(** An article written to the cache and read back is the same record. *)
Lemma revive_json_of_article (a : Article) :
  dates_in_range a →
  revive legacy (json_of_article a) = Some (RevivedArticle a).
Proof.
  intros [Hpub Hfetched]. unfold revive, json_of_article.
  change (JSON.get "title" _) with (Some (JSON.Str (title a))).
  change (JSON.get "url" _) with (Some (JSON.Str (url a))).
  change (JSON.get "snippet" _) with (Some (JSON.Str (snippet a))).
  change (JSON.get "content" _) with (Some (JSON.Str (content a))).
  change (JSON.get "imageUrl" _) with (Some (json_of_nullable (imageUrl a))).
  change (JSON.get "source" _) with (Some (JSON.Str (source a))).
  change (JSON.get "category" _) with (Some (JSON.Str (category a))).
  change (JSON.get "keywords" _)
    with (Some (JSON.Arr (map JSON.Str (keywords a)))).
  change (JSON.get "pubDate" _) with (Some (json_of_date (pubDate a))).
  change (JSON.get "fetchedAt" _) with (Some (json_of_date (fetchedAt a))).
  rewrite as_nullable_of_nullable, as_strings_of_strings.
  rewrite !date_of_json_of_date by done.
  by destruct a.
Qed.

Lemma revive_all_json (arts : list Article) :
  Forall dates_in_range arts →
  revive_all legacy (map json_of_article arts) = Some (Normal arts).
Proof.
  induction 1 as [|a arts Ha _ IH]; [done|].
  cbn [map revive_all]. rewrite revive_json_of_article by done.
  cbn [mbind option_bind]. by rewrite IH.
Qed.

End Cache.

Lemma saveToFile_written (env : Env) (w : World) :
  write_error env = None →
  saveToFile env w =
  Normal (tt, {| self := self w; ticks := ticks w;
                 console := console w ++ [LogCached];
                 disk := Document (json_of_data (self w)) |}).
Proof.
  intros Hwrite. unfold saveToFile, mbind, M_bind, get_this.
  by rewrite Hwrite.
Qed.

Lemma revive_document_json (legacy : string → JS.Date) (this : RSSAggregator) :
  Forall dates_in_range (articles this) →
  ∃ lu, revive_document legacy (json_of_data this)
        = Some (Normal (articles this, lu)).
Proof.
  intros Hdates. unfold json_of_data, revive_document.
  change (JSON.get "articles" _)
    with (Some (JSON.Arr (map json_of_article (articles this)))).
  cbv beta iota.
  rewrite revive_all_json by done. cbn [mbind option_bind].
  change (JSON.get "lastUpdate" _)
    with (Some match lastUpdate this with
               | Some d => json_of_date d
               | None => JSON.Null
               end).
  destruct (lastUpdate this) as [[t|]|]; by eexists.
Qed.

(** The cache on a collection whose dates are all valid: when the write
    succeeds, loading the file gives back every article, field by field,
    the time values to the millisecond. *)
Lemma save_then_load_valid (env : Env) (w : World) :
  write_error env = None →
  Forall dates_in_range (articles (self w)) →
  ∃ w1 w2,
    saveToFile env w = Normal (tt, w1)
    ∧ loadFromFile env w1 = Some (Normal (true, w2))
    ∧ articles (self w2) = articles (self w).
Proof.
  intros Hwrite Hdates.
  destruct (revive_document_json (legacy_date env) (self w) Hdates)
    as [lu Hdoc].
  eexists _, _. split; [by apply saveToFile_written|].
  unfold loadFromFile. cbn [disk]. rewrite Hdoc. cbn [mbind option_bind].
  split; reflexivity.
Qed.

(** C8 at a failing input: the collection that a refresh builds from the
    feed of [Sample.env] holds an article with an invalid date.  The cache
    file has [null] for it, and loading makes the epoch of [null]: the
    article comes back with the publication date 1970-01-01T00:00:00.000Z
    in place of the invalid date. *)
Theorem cache_turns_invalid_date_into_epoch :
  let w := Sample.world [] [Sample.feed "https://up.example/rss"] in
  ∃ arts w1 w2 w3,
    fetchAllFeeds Sample.env w = Normal (arts, w1)
    ∧ saveToFile Sample.env w1 = Normal (tt, w2)
    ∧ loadFromFile Sample.env w2 = Some (Normal (true, w3))
    ∧ pubDate <$> articles (self w1)
      = [JS.ValidDate 1000; JS.InvalidDate; JS.ValidDate 2000]
    ∧ pubDate <$> articles (self w3)
      = [JS.ValidDate 1000; JS.ValidDate 0; JS.ValidDate 2000]
    ∧ articles (self w3) ≠ articles (self w1).
Proof.
  simpl. eexists _, _, _, _.
  split; [vm_compute; reflexivity|].
  split; [vm_compute; reflexivity|].
  split; [vm_compute; reflexivity|].
  split; [reflexivity|]. split; [reflexivity|]. discriminate.
Qed.

(** * Strings *)

Module StringFacts.

Import JSDateFacts (append_cons, append_nil).
Lemma append_nil_r (a : string) : a +:+ "" = a.
Proof. induction a as [|c a IH]; [done|]. by rewrite append_cons, IH. Qed.

Lemma append_assoc (a b c : string) : (a +:+ b) +:+ c = a +:+ (b +:+ c).
Proof.
  induction a as [|x a IH]; [done|]. by rewrite !append_cons, IH.
Qed.

Lemma length_append (a b : string) :
  String.length (a +:+ b) = (String.length a + String.length b)%nat.
Proof.
  induction a as [|x a IH]; [done|]. rewrite append_cons. simpl. by rewrite IH.
Qed.

Lemma rev_app_append (s acc : string) :
  String.rev_app s acc = String.rev s +:+ acc.
Proof.
  unfold String.rev. revert acc.
  induction s as [|c s IH]; intros acc; simpl; [done|].
  rewrite (IH (String c "")), IH, append_assoc. done.
Qed.

Lemma rev_cons c (s : string) :
  String.rev (String c s) = String.rev s +:+ String c "".
Proof. unfold String.rev at 1. simpl. apply rev_app_append. Qed.

Lemma rev_append (a b : string) :
  String.rev (a +:+ b) = String.rev b +:+ String.rev a.
Proof.
  induction a as [|c a IH].
  - rewrite append_nil. by rewrite append_nil_r.
  - rewrite append_cons, !rev_cons, IH, append_assoc. done.
Qed.

Lemma rev_involutive (s : string) : String.rev (String.rev s) = s.
Proof.
  induction s as [|c s IH]; [done|].
  rewrite rev_cons, rev_append, IH. done.
Qed.

(** [substring(0, n)] *)
Lemma substring0_length n (s : string) :
  (String.length (JS.substring0 n s) ≤ n)%nat.
Proof.
  revert s. induction n as [|n IH]; intros [|c s]; simpl; try lia.
  specialize (IH s). lia.
Qed.

Lemma substring0_prefix n (s : string) :
  ∃ t, s = JS.substring0 n s +:+ t.
Proof.
  revert s. induction n as [|n IH]; intros s.
  { exists s. by destruct s. }
  destruct s as [|c s]; [by exists ""|].
  destruct (IH s) as [t Ht]. exists t. simpl. rewrite append_cons.
  by rewrite <- Ht.
Qed.

(** The white-space run in front of [s] and what [dropWhile_space]
    keeps. *)
Lemma dropWhile_space_suffix (s : string) :
  ∃ u, s = u +:+ JS.dropWhile_space s.
Proof.
  induction s as [|c s [u IH]]; [by exists ""|]. simpl.
  destruct (Ascii.is_space c).
  - exists (String c u). rewrite append_cons. by rewrite <- IH.
  - by exists "".
Qed.

Lemma dropWhile_space_head (s : string) :
  starts_with_space (JS.dropWhile_space s) = false.
Proof.
  induction s as [|c s IH]; [done|]. simpl.
  destruct (Ascii.is_space c) eqn:E; [done|]. simpl. done.
Qed.

(** A character that is no white space stops the removal from the left,
    wherever it stands. *)
Lemma dropWhile_space_keeps (x : string) c (t : string) :
  Ascii.is_space c = false →
  ∃ y, JS.dropWhile_space (x +:+ String c t) = y +:+ String c t.
Proof.
  intros Hc. induction x as [|d x [y IH]].
  - exists "". rewrite !append_nil. simpl. by rewrite Hc.
  - rewrite append_cons. simpl. destruct (Ascii.is_space d).
    + by exists y.
    + exists (String d x). by rewrite append_cons.
Qed.

(** [trim] keeps a part of [s] that begins where the leading white space
    ends. *)
Lemma trim_prefix (s : string) :
  ∃ t, JS.dropWhile_space s = JS.trim s +:+ t.
Proof.
  unfold JS.trim.
  destruct (dropWhile_space_suffix (String.rev (JS.dropWhile_space s)))
    as [u Hu].
  exists (String.rev u).
  rewrite <- rev_append, <- Hu. by rewrite rev_involutive.
Qed.

Lemma trim_head (s : string) : starts_with_space (JS.trim s) = false.
Proof.
  unfold JS.trim.
  pose proof (dropWhile_space_head s) as Hh.
  destruct (JS.dropWhile_space s) as [|c r]; [done|].
  simpl in Hh. rewrite rev_cons.
  destruct (dropWhile_space_keeps (String.rev r) c "" Hh) as [y ->].
  rewrite rev_append. simpl. done.
Qed.

Lemma trim_length (s : string) :
  (String.length (JS.trim s) ≤ String.length s)%nat.
Proof.
  destruct (trim_prefix s) as [t Ht].
  destruct (dropWhile_space_suffix s) as [u Hu].
  rewrite Hu at 2. rewrite Ht, !length_append. lia.
Qed.

End StringFacts.

(** * What a refresh puts into the collection *)

Section Provenance.
Context (env : Env).

Lemma push_item_spec fc arts item w arts' w' :
  push_item env fc arts item w = Normal (arts', w') →
  (item_url item = "" ∧ arts' = arts)
  ∨ (item_url item ≠ "" ∧ ∃ a, arts' = arts ++ [a] ∧ built_from fc item a).
Proof.
  unfold push_item. fold (item_url item).
  destruct (String.eqb_spec (item_url item) "") as [Hu|Hu].
  { intros [= <- _]. by left. }
  intros Hrun. right. split; [done|].
  destruct (JS.truthy (Item.pubDate item));
    injection Hrun as <- _; eexists; (split; [reflexivity|]);
    unfold built_from; simpl; repeat split; try done; by eexists.
Qed.

(** The articles that the items of one feed add: one for each item with a
    url, each built from its item. *)
Lemma push_items_spec fc its arts w arts' w' :
  for_each (push_item env fc) arts its w = Normal (arts', w') →
  ∃ added,
    arts' = arts ++ added
    ∧ Forall (λ a, ∃ item, item ∈ its ∧ built_from fc item a) added
    ∧ ∀ item, item ∈ its → item_url item ≠ "" →
        ∃ a, a ∈ added ∧ built_from fc item a.
Proof.
  revert arts w. induction its as [|item its IH]; intros arts w; simpl.
  { intros [= <- _]. exists []. rewrite app_nil_r.
    split; [done|]. split; [constructor|]. by intros item ?%elem_of_nil. }
  unfold mbind, M_bind.
  destruct (push_item env fc arts item w) as [[a1 w1]|] eqn:E1; [|done].
  intros Hrest. apply IH in Hrest as (added & -> & Hall & Hcov).
  apply push_item_spec in E1 as [[Hu ->]|[Hu (a & -> & Hb)]].
  - exists added. split; [done|]. split.
    + eapply Forall_impl; [exact Hall|].
      intros b (it & Hit & Hb). exists it. split; [by right|done].
    + intros it [->|Hit]%elem_of_cons Hne; [done|]. by apply Hcov.
  - exists (a :: added). rewrite <- app_assoc. split; [done|]. split.
    + constructor; [exists item; split; [by left|done]|].
      eapply Forall_impl; [exact Hall|].
      intros b (it & Hit & Hb'). exists it. split; [by right|done].
    + intros it [->|Hit]%elem_of_cons Hne.
      * exists a. split; [by left|done].
      * destruct (Hcov it Hit Hne) as (b & Hin & Hb').
        exists b. split; [by right|done].
Qed.

(** The same for the loop over the settled results. *)
Lemma collect_all_spec results acc w acc' w' :
  for_each (collect env) acc results w = Normal (acc', w') →
  ∃ added,
    newArticles acc' = newArticles acc ++ added
    ∧ Forall (λ a, ∃ feed fc item,
                Fulfilled (feed, fc) ∈ results ∧ item ∈ items feed
                ∧ built_from fc item a) added
    ∧ ∀ feed fc item,
        Fulfilled (feed, fc) ∈ results → item ∈ items feed →
        item_url item ≠ "" →
        ∃ a, a ∈ added ∧ built_from fc item a.
Proof.
  revert acc w. induction results as [|r results IH]; intros acc w; simpl.
  { intros [= <- _]. exists []. rewrite app_nil_r.
    split; [done|]. split; [constructor|].
    by intros feed fc item ?%elem_of_nil. }
  unfold mbind, M_bind.
  destruct (collect env acc r w) as [[a1 w1]|] eqn:E1; [|done].
  intros Hrest. apply IH in Hrest as (added & Heq & Hall & Hcov).
  destruct r as [[feed fc]|reason]; simpl in E1.
  - unfold mbind, M_bind in E1.
    destruct (for_each (push_item env fc) (newArticles acc) (items feed) w)
      as [[arts1 w0]|] eqn:E0; [|done].
    apply push_items_spec in E0 as (added0 & -> & Hall0 & Hcov0).
    injection E1 as <- _. simpl in Heq.
    exists (added0 ++ added). rewrite Heq, <- app_assoc.
    split; [done|]. split.
    + apply Forall_app. split.
      * eapply Forall_impl; [exact Hall0|].
        intros b (it & Hit & Hb). exists feed, fc, it.
        split; [by left|done].
      * eapply Forall_impl; [exact Hall|].
        intros b (f & c & it & Hin & Hit & Hb). exists f, c, it.
        split; [by right|done].
    + intros f c it [Heq'|Hin]%elem_of_cons Hit Hne.
      * injection Heq' as -> ->.
        destruct (Hcov0 it Hit Hne) as (b & Hb & Hbuilt).
        exists b. split; [apply elem_of_app; by left|done].
      * destruct (Hcov f c it Hin Hit Hne) as (b & Hb & Hbuilt).
        exists b. split; [apply elem_of_app; by right|done].
  - injection E1 as <- _. simpl in Heq.
    exists added. split; [done|]. split.
    + eapply Forall_impl; [exact Hall|].
      intros b (f & c & it & Hin & Hit & Hb). exists f, c, it.
      split; [by right|done].
    + intros f c it [Heq'|Hin]%elem_of_cons Hit Hne; [done|].
      by apply (Hcov f c it).
Qed.

Lemma elem_of_feed_promises (this : RSSAggregator) feed fc :
  Fulfilled (feed, fc) ∈ feed_promises env this ↔
  fc ∈ feeds this ∧ parseURL env (feed_url fc) = Fulfilled feed.
Proof.
  unfold feed_promises. rewrite list_elem_of_fmap. split.
  - intros (fc' & Heq & Hin).
    destruct (parseURL env (feed_url fc')) as [f|] eqn:Hp; [|done].
    simpl in Heq. injection Heq as -> ->. done.
  - intros [Hin Hp]. exists fc. by rewrite Hp.
Qed.

(** The candidates of a refresh are built from the items of the feeds that
    answered, and every such item that has a url gives a candidate. *)
Lemma candidates_spec (w : World) :
  Forall (fetched_from env (self w)) (candidates env w)
  ∧ ∀ fc feed item,
      fc ∈ feeds (self w) → parseURL env (feed_url fc) = Fulfilled feed →
      item ∈ items feed → item_url item ≠ "" →
      ∃ a, a ∈ candidates env w ∧ built_from fc item a.
Proof.
  unfold candidates, gather, mbind, mret, M_bind, M_ret. simpl.
  match goal with |- context [for_each _ ?a ?r ?w0] =>
    destruct (for_each (collect env) a r w0) as [[t w1]|] eqn:E
  end; simpl.
  - apply collect_all_spec in E as (added & Heq & Hall & Hcov).
    simpl in Heq. rewrite Heq. split.
    + eapply Forall_impl; [exact Hall|].
      intros a (feed & fc & item & Hin & Hit & Hb).
      apply elem_of_feed_promises in Hin as [Hfc Hp].
      by exists fc, feed, item.
    + intros fc feed item Hfc Hp Hit Hne.
      apply (Hcov feed fc item); [|done..].
      by apply elem_of_feed_promises.
  - match type of E with for_each _ ?a ?r ?w0 = _ =>
      destruct (collect_all_normal env r a w0) as (? & ? & E' & _)
    end. congruence.
Qed.

(** The refreshed collection holds the candidates, each url once. *)
Lemma refreshed_collection (l : list Article) :
  let arts := JS.sort by_pubDate (removeDuplicates l) in
  (∀ a, a ∈ arts → a ∈ l)
  ∧ (∀ u, u ∈ url <$> l → u ∈ url <$> arts)
  ∧ NoDup (url <$> arts).
Proof.
  simpl. split; [|split].
  - intros a Ha. rewrite JSFacts.elem_of_sort in Ha.
    by apply removeDuplicates_go_unseen in Ha as [_ ?].
  - intros u Hu. rewrite JSFacts.sort_perm.
    assert (filter (λ a, url a = u) (removeDuplicates l) ≠ []) as Hne.
    { unfold removeDuplicates. rewrite removeDuplicates_go_filter.
      rewrite decide_False by apply not_elem_of_empty.
      apply list_elem_of_fmap in Hu as (a & -> & Ha).
      destruct (filter (λ a0, url a0 = url a) l) as [|b k] eqn:Hf; [|done].
      assert (a ∈ filter (λ a0, url a0 = url a) l) as Hin
        by by apply list_elem_of_filter.
      rewrite Hf in Hin. by apply elem_of_nil in Hin. }
    destruct (filter _ (removeDuplicates l)) as [|b k] eqn:Hf; [done|].
    assert (b ∈ filter (λ a, url a = u) (removeDuplicates l)) as Hb
      by (rewrite Hf; by left).
    apply list_elem_of_filter in Hb as [<- Hb].
    apply list_elem_of_fmap. by exists b.
  - rewrite JSFacts.sort_perm. apply removeDuplicates_go_NoDup.
Qed.
End Provenance.

(** * cleanDescription and extractImageFromItem *)

Module CleanFacts.
Import JSDateFacts (append_cons, append_nil).
Import StringFacts.

Lemma cleanDescription_length (text : string) :
  (String.length (cleanDescription text) ≤ 300)%nat.
Proof. apply substring0_length. Qed.

Lemma has_gt_strip_tags_go b (s : string) :
  Clean.has_gt (Clean.strip_tags_go b s) = true → Clean.has_gt s = true.
Proof.
  revert b. induction s as [|c s IH]; intros b; simpl; [done|].
  destruct b.
  - intros H%IH. rewrite H. by rewrite orb_true_r.
  - destruct (Ascii.eqb c "<" && Clean.has_gt s)%bool eqn:E.
    + intros H%IH. rewrite H. by rewrite orb_true_r.
    + simpl. destruct (Ascii.eqb c ">"); [done|]. simpl. apply IH.
Qed.

(** The tag removal leaves no < that has a > after it. *)
Lemma strip_tags_go_no_tag b (s : string) :
  has_tag (Clean.strip_tags_go b s) = false.
Proof.
  revert b. induction s as [|c s IH]; intros b; simpl; [done|].
  destruct b; [apply IH|].
  destruct (Ascii.eqb c "<" && Clean.has_gt s)%bool eqn:E; [apply IH|].
  simpl. rewrite IH, orb_false_r.
  destruct (Ascii.eqb c "<"); [|done]. simpl in *.
  destruct (Clean.has_gt (Clean.strip_tags_go false s)) eqn:G; [|done].
  apply has_gt_strip_tags_go in G. congruence.
Qed.

Lemma has_char_strip_tags_go x b (s : string) :
  has_char x s = false → has_char x (Clean.strip_tags_go b s) = false.
Proof.
  revert b. induction s as [|c s IH]; intros b; simpl; [done|].
  intros [Hc Hs]%orb_false_iff.
  destruct b; [by apply IH|].
  destruct (Ascii.eqb c "<" && Clean.has_gt s)%bool; [by apply IH|].
  simpl. by rewrite Hc, IH.
Qed.

(** A pattern whose first character does not occur in [s] matches
    nowhere. *)
Lemma replaceAll_absent x (pat rep s : string) :
  has_char x s = false → Clean.replaceAll (String x pat) rep s = s.
Proof.
  unfold Clean.replaceAll. induction s as [|c s IH]; [done|].
  intros [Hc Hs]%orb_false_iff. cbn [Clean.replace_go String.prefix].
  destruct (ascii_dec x c) as [->|Hne].
  { by rewrite Ascii.eqb_refl in Hc. }
  by rewrite IH.
Qed.

Lemma strip_tags_go_length b (s : string) :
  (String.length (Clean.strip_tags_go b s) ≤ String.length s)%nat.
Proof.
  revert b. induction s as [|c s IH]; intros b; simpl; [done|].
  destruct b; [specialize (IH (negb (Ascii.eqb c ">"))); lia|].
  destruct (Ascii.eqb c "<" && Clean.has_gt s)%bool.
  - specialize (IH true). lia.
  - simpl. specialize (IH false). lia.
Qed.

Lemma prefix_length (p s : string) :
  String.prefix p s = true → (String.length p ≤ String.length s)%nat.
Proof.
  revert s. induction p as [|a p IH]; intros s; simpl; [intros _; lia|].
  destruct s as [|b s]; [done|]. cbn [String.prefix String.length].
  destruct (ascii_dec a b); [|done]. intros H%IH. lia.
Qed.

(** A replacement that is no longer than its pattern does not lengthen
    the string. *)
Lemma replace_go_length (pat rep : string) k (s : string) :
  (String.length rep ≤ String.length pat)%nat →
  (String.length (Clean.replace_go pat rep k s) + k `min` String.length s
   ≤ String.length s)%nat.
Proof.
  intros Hrep. revert k. induction s as [|c s IH]; intros k.
  { simpl. lia. }
  cbn [Clean.replace_go]. destruct k as [|k].
  - destruct (String.prefix pat (String c s)) eqn:E.
    + apply prefix_length in E. simpl in E.
      rewrite StringFacts.length_append.
      specialize (IH (String.length pat - 1)%nat). simpl. lia.
    + specialize (IH 0%nat). simpl. lia.
  - specialize (IH k). simpl. lia.
Qed.

Lemma replaceAll_length (pat rep s : string) :
  (String.length rep ≤ String.length pat)%nat →
  (String.length (Clean.replaceAll pat rep s) ≤ String.length s)%nat.
Proof.
  intros H. pose proof (replace_go_length pat rep 0 s H).
  unfold Clean.replaceAll. lia.
Qed.

Lemma has_gt_append (a b : string) :
  Clean.has_gt (a +:+ b) = (Clean.has_gt a || Clean.has_gt b)%bool.
Proof.
  induction a as [|c a IH]; [done|]. rewrite append_cons. simpl.
  by rewrite IH, orb_assoc.
Qed.

Lemma has_tag_append (a b : string) :
  has_tag (a +:+ b) = false → has_tag a = false ∧ has_tag b = false.
Proof.
  induction a as [|c a IH]; [done|]. rewrite append_cons. simpl.
  rewrite has_gt_append.
  intros [H1 H2]%orb_false_iff. destruct (IH H2) as [Ha Hb].
  rewrite Ha, Hb, orb_false_r. split; [|done].
  destruct (Ascii.eqb c "<"); [|done]. simpl in *.
  by apply orb_false_iff in H1 as [-> _].
Qed.

Lemma trim_no_tag (s : string) :
  has_tag s = false → has_tag (JS.trim s) = false.
Proof.
  intros Hs. destruct (dropWhile_space_suffix s) as [u Hu].
  destruct (trim_prefix s) as [t Ht].
  rewrite Hu in Hs. apply has_tag_append in Hs as [_ Hs].
  rewrite Ht in Hs. by apply has_tag_append in Hs as [Hs _].
Qed.

Lemma substring0_no_tag n (s : string) :
  has_tag s = false → has_tag (JS.substring0 n s) = false.
Proof.
  intros Hs. destruct (substring0_prefix n s) as [t Ht].
  rewrite Ht in Hs. by apply has_tag_append in Hs as [Hs _].
Qed.

End CleanFacts.

Module ImageFacts.

Lemma truthy_nonempty (o : option string) (u : string) :
  JS.truthy o = true → o = Some u → u ≠ "".
Proof.
  intros Ht ->. simpl in Ht. intros ->. done.
Qed.

Lemma media_content_loop_nonempty entries u :
  media_content_loop entries = Some u → u ≠ "".
Proof.
  induction entries as [|m rest IH]; simpl; [done|].
  destruct (JS.truthy (media_url m)) eqn:Ht; simpl; [|done].
  destruct (_ || _)%bool; [|done].
  by apply truthy_nonempty.
Qed.

Lemma span_until_no_stop stop (s : string) c :
  has_char c (fst (ImgRegex.span_until stop s)) = true → stop c = false.
Proof.
  induction s as [|d s IH]; simpl; [done|].
  destruct (stop d) eqn:Hd; simpl; [done|].
  destruct (ImgRegex.span_until stop s) as [run rest]. simpl in *.
  destruct (Ascii.eqb_spec d c) as [->|Hne]; simpl; [done|]. done.
Qed.

(** The group of the pattern: one or more characters, none of them a
    quote. *)
Lemma match_src_group (s group : string) :
  ImgRegex.match_src s = Some group →
  group ≠ "" ∧ ∀ c, has_char c group = true → ImgRegex.is_quote c = false.
Proof.
  unfold ImgRegex.match_src.
  destruct (ImgRegex.prefix_ci "src=" s); [|done].
  destruct (JS.drop_chars 4 s) as [|q r]; [done|].
  destruct (ImgRegex.is_quote q); [|done].
  pose proof (span_until_no_stop ImgRegex.is_quote r) as Hspan.
  destruct (ImgRegex.span_until ImgRegex.is_quote r) as [run rest].
  destruct run as [|c run]; [done|]. destruct rest; [done|].
  intros [= <-]. split; [done|]. intros x. apply Hspan.
Qed.

Lemma exec_group (html group : string) :
  ImgRegex.exec html = Some group →
  group ≠ "" ∧ ∀ c, has_char c group = true → ImgRegex.is_quote c = false.
Proof.
  assert (∀ k r, ImgRegex.backtrack k r = Some group →
    group ≠ "" ∧ ∀ c, has_char c group = true → ImgRegex.is_quote c = false)
    as Hback.
  { induction k as [|k IH]; intros r; [done|]. cbn [ImgRegex.backtrack].
    destruct (ImgRegex.match_src (JS.drop_chars (S k) r)) as [g|] eqn:E.
    - intros [= <-]. by apply match_src_group in E.
    - apply IH. }
  assert (∀ s, ImgRegex.match_here s = Some group →
    group ≠ "" ∧ ∀ c, has_char c group = true → ImgRegex.is_quote c = false)
    as Hhere.
  { intros s. unfold ImgRegex.match_here.
    destruct (ImgRegex.prefix_ci "<img" s); [|done]. apply Hback. }
  induction html as [|c html IH].
  - cbn [ImgRegex.exec].
    destruct (ImgRegex.match_here "") as [g|] eqn:E; [|done].
    intros [= <-]. by apply Hhere in E.
  - cbn [ImgRegex.exec].
    destruct (ImgRegex.match_here (String c html)) as [g|] eqn:E.
    + intros [= <-]. by apply Hhere in E.
    + apply IH.
Qed.

Lemma extractImage_nonempty (item : Item.t) (u : string) :
  extractImageFromItem item = Some u → u ≠ "".
Proof.
  unfold extractImageFromItem.
  destruct (from_media_content item) as [u1|] eqn:E1.
  { intros [= <-]. unfold from_media_content in E1.
    destruct (Item.media_content item) as [mc|]; [|done].
    by apply media_content_loop_nonempty in E1. }
  destruct (from_media_thumbnail item) as [u2|] eqn:E2.
  { intros [= <-]. unfold from_media_thumbnail in E2.
    destruct (Item.media_thumbnail item) as [mt|]; [|done].
    destruct (JS.truthy (thumbnail_url mt)) eqn:Ht; [|done].
    by apply (truthy_nonempty _ _ Ht). }
  destruct (from_enclosure item) as [u3|] eqn:E3.
  { intros [= <-]. unfold from_enclosure in E3.
    destruct (Item.enclosure item) as [e|]; [|done].
    destruct (JS.truthy (Item.enc_url e)) eqn:Ht; simpl in E3; [|done].
    destruct (match Item.enc_type e with Some _ => _ | None => _ end);
      [|done].
    by apply (truthy_nonempty _ _ Ht). }
  intros H. unfold from_img_tag in H. by apply exec_group in H as [? _].
Qed.

End ImageFacts.

(** X4: the snippet that cleanDescription returns has at most 300
    characters, is never longer than the text it was given, and does not
    begin with white space. *)
Theorem cleanDescription_short_and_trimmed (text : string) :
  (String.length (cleanDescription text) ≤ 300)%nat
  ∧ (String.length (cleanDescription text) ≤ String.length text)%nat
  ∧ starts_with_space (cleanDescription text) = false.
Proof.
  split; [apply CleanFacts.cleanDescription_length|].
  unfold cleanDescription.
  set (cleaned := Clean.replaceAll _ _ _).
  split.
  - pose proof (StringFacts.substring0_prefix 300 (JS.trim cleaned))
      as [t Ht].
    pose proof (StringFacts.trim_length cleaned) as Hl.
    rewrite Ht, StringFacts.length_append in Hl.
    assert (String.length cleaned ≤ String.length text)%nat; [|lia].
    subst cleaned.
    repeat (etransitivity;
            [apply CleanFacts.replaceAll_length; simpl; lia|]).
    apply CleanFacts.strip_tags_go_length.
  - pose proof (StringFacts.trim_head cleaned) as Hh.
    destruct (JS.trim cleaned) as [|c r]; [done|]. done.
Qed.

(** X5: on a text without an ampersand, what cleanDescription returns holds
    no tag: no < with a > after it.  (With an ampersand this fails: the
    entities of < and > are decoded after the tags were removed.) *)
Theorem cleanDescription_removes_tags (text : string) :
  has_char "&" text = false →
  has_tag (cleanDescription text) = false.
Proof.
  intros Hamp. unfold cleanDescription, Clean.strip_tags.
  pose proof (CleanFacts.has_char_strip_tags_go "&" false text Hamp) as Hs.
  repeat match goal with
  | |- context [Clean.replaceAll (String "&" ?p) ?r
                  (Clean.strip_tags_go false text)] =>
      rewrite (CleanFacts.replaceAll_absent "&" p r _ Hs)
  end.
  apply CleanFacts.substring0_no_tag, CleanFacts.trim_no_tag.
  apply CleanFacts.strip_tags_go_no_tag.
Qed.

Lemma cleanDescription_removes_tags_witness :
  has_char "&" "<p>Big <b>news</b> today</p>  " = false
  ∧ cleanDescription "<p>Big <b>news</b> today</p>  " = "Big news today"
  ∧ has_tag (cleanDescription "<p>Big <b>news</b> today</p>  ") = false.
Proof.
  split; [reflexivity|]. split; [reflexivity|].
  apply (cleanDescription_removes_tags "<p>Big <b>news</b> today</p>  ").
  reflexivity.
Defined.

(** The entity decoding runs after the tag removal, so an escaped tag
    comes out as a tag. *)
Example cleanDescription_decodes_into_tag :
  cleanDescription "&lt;b&gt;bold&lt;/b&gt;" = "<b>bold</b>"
  ∧ has_tag (cleanDescription "&lt;b&gt;bold&lt;/b&gt;") = true.
Proof. split; reflexivity. Qed.

(** X6: extractImageFromItem never returns the empty string: it returns
    null or a non-empty url; and the url taken from an img tag holds no
    quote character. *)
Theorem extractImage_never_empty (item : Item.t) :
  extractImageFromItem item ≠ Some ""
  ∧ ∀ u, from_img_tag item = Some u →
      u ≠ "" ∧ ∀ c, has_char c u = true → ImgRegex.is_quote c = false.
Proof.
  split.
  - intros H. by apply ImageFacts.extractImage_nonempty in H.
  - intros u H. by apply ImageFacts.exec_group in H.
Qed.

Section Refresh.
Context (env : Env).

Lemma built_from_well_formed fc item a :
  built_from fc item a →
  url a ≠ "" ∧ title a ≠ ""
  ∧ (String.length (snippet a) ≤ 300)%nat
  ∧ imageUrl a ≠ Some ""
  ∧ ∃ t, fetchedAt a = JS.ValidDate t.
Proof.
  intros (_ & Hu & Ht & Hs & _ & Hi & _ & _ & _ & Hf).
  split; [done|]. split; [|split; [|split; [|done]]].
  - rewrite Ht. unfold JS.or_else.
    destruct (JS.truthy (Item.title item)) eqn:E; [|done].
    destruct (Item.title item) as [t|]; [|done]. simpl in *.
    intros ->. done.
  - rewrite Hs. apply CleanFacts.cleanDescription_length.
  - rewrite Hi. intros H. by apply ImageFacts.extractImage_nonempty in H.
Qed.

(** X1: every refresh succeeds with a collection in which no two articles
    share a url and every article has a non-empty url, a non-empty title,
    a snippet of at most 300 characters, an image url that is absent or
    non-empty, and a valid fetch time. *)
Theorem refresh_articles_well_formed (w : World) :
  ∃ arts w',
    fetchAllFeeds env w = Normal (arts, w')
    ∧ articles (self w') = arts
    ∧ NoDup (url <$> arts)
    ∧ ∀ a, a ∈ arts →
        url a ≠ "" ∧ title a ≠ ""
        ∧ (String.length (snippet a) ≤ 300)%nat
        ∧ imageUrl a ≠ Some ""
        ∧ ∃ t, fetchedAt a = JS.ValidDate t.
Proof.
  destruct (fetchAllFeeds_normal env w) as (w' & E & Ha & _).
  destruct (refreshed_collection (candidates env w)) as (Hin & _ & Hnd).
  destruct (candidates_spec env w) as [Hall _].
  eexists _, w'. split; [exact E|]. split; [done|]. split; [done|].
  intros a Ha'%Hin. rewrite Forall_forall in Hall.
  destruct (Hall a Ha') as (fc & feed & item & _ & _ & _ & Hb).
  by apply built_from_well_formed in Hb.
Qed.

(** X2: every article of the refreshed collection was built in this
    refresh from an item of a configured feed whose fetch succeeded: its
    url is the item's link (or guid), its source, category and keywords
    are those of that feed's configuration.  Nothing of the previous
    collection is carried over. *)
Theorem refresh_articles_provenance (w : World) :
  ∃ arts w',
    fetchAllFeeds env w = Normal (arts, w')
    ∧ ∀ a, a ∈ arts → fetched_from env (self w) a.
Proof.
  destruct (fetchAllFeeds_normal env w) as (w' & E & _).
  destruct (refreshed_collection (candidates env w)) as (Hin & _ & _).
  destruct (candidates_spec env w) as [Hall _].
  eexists _, w'. split; [exact E|].
  intros a Ha'%Hin. rewrite Forall_forall in Hall. by apply Hall.
Qed.

(** X3: no entry with a url is lost: for every item of a configured feed
    whose fetch succeeded, if the item has a link or a guid then the
    refreshed collection holds an article with that url. *)
Theorem refresh_covers_items (w : World) fc feed item :
  fc ∈ feeds (self w) →
  parseURL env (feed_url fc) = Fulfilled feed →
  item ∈ items feed →
  item_url item ≠ "" →
  ∃ arts w',
    fetchAllFeeds env w = Normal (arts, w')
    ∧ item_url item ∈ url <$> arts.
Proof.
  intros Hfc Hp Hit Hne.
  destruct (fetchAllFeeds_normal env w) as (w' & E & _).
  destruct (refreshed_collection (candidates env w)) as (_ & Hcov & _).
  destruct (candidates_spec env w) as [_ Hall].
  eexists _, w'. split; [exact E|]. apply Hcov.
  destruct (Hall fc feed item Hfc Hp Hit Hne) as (a & Ha & Hb).
  apply list_elem_of_fmap. exists a. split; [|done].
  by destruct Hb as (-> & _).
Qed.
End Refresh.

Lemma refresh_covers_items_witness :
  ∃ arts w',
    fetchAllFeeds Sample.env
      (Sample.world [] [Sample.feed "https://up.example/rss"])
      = Normal (arts, w')
    ∧ "https://up.example/2" ∈ url <$> arts.
Proof.
  apply (refresh_covers_items Sample.env
           (Sample.world [] [Sample.feed "https://up.example/rss"])
           (Sample.feed "https://up.example/rss")
           {| items := [
                Sample.item "https://up.example/1"
                  (Some "1970-01-01T00:00:01.000Z");
                Sample.item "https://up.example/2" (Some "not a date");
                Sample.item "https://up.example/3"
                  (Some "1970-01-01T00:00:02.000Z") ] |}
           (Sample.item "https://up.example/2" (Some "not a date"))).
  - simpl. by left.
  - reflexivity.
  - simpl. right. by left.
  - simpl. unfold item_url. simpl. done.
Defined.

(** * The order and the size of search results *)

Section Ranking.
Context (this : RSSAggregator) (now : Z).

Lemma by_score_descending (l : list Scored) :
  descending_on by_score sc_score l.
Proof.
  intros x y _ _. unfold JS.sorts_after, by_score.
  destruct (Z.ltb_spec 0 (sc_score y - sc_score x)); symmetry;
    [apply bool_decide_eq_true | apply bool_decide_eq_false]; lia.
Qed.

Lemma StronglySorted_fmap {A B} (f : A → B) (R : B → B → Prop)
    (l : list A) :
  StronglySorted (λ x y, R (f x) (f y)) l → StronglySorted R (f <$> l).
Proof.
  induction 1 as [|x l Hs IH Hx]; [constructor|].
  rewrite fmap_cons. constructor; [done|]. by apply Forall_fmap.
Qed.

Lemma StronglySorted_slice {A} (R : A → A → Prop) (s e : Z) (l : list A) :
  StronglySorted R l → StronglySorted R (JS.slice s e l).
Proof.
  intros Hs. unfold JS.slice.
  set (k := Z.to_nat (JS.relative_index _ s)).
  set (n := Z.to_nat _).
  rewrite <- (take_drop k l) in Hs. apply StronglySorted_app_1_r in Hs.
  rewrite <- (take_drop n (drop k l)) in Hs.
  by apply StronglySorted_app_1_l in Hs.
Qed.

(** What [ranked] sorts: each article with its score. *)
Lemma ranked_unfold (query : string) :
  ranked this now query =
  JS.sort by_score
    (filter (λ item, 0 < sc_score item)
       ((λ a, {| sc_article := a; sc_score := score now query a |})
          <$> articles this)).
Proof.
  unfold ranked. cbv zeta.
  set (f := score_article now _ _).
  set (g := λ a, {| sc_article := a; sc_score := score now query a |}).
  assert (map f (articles this) = g <$> articles this) as ->; [|done].
  induction (articles this) as [|a l IH]; [done|].
  simpl. rewrite IH. reflexivity.
Qed.

Lemma ranked_score (query : string) (item : Scored) :
  item ∈ ranked this now query →
  sc_score item = score now query (sc_article item).
Proof.
  intros Hin. apply elem_of_ranked in Hin as [_ (a & _ & ->)]. done.
Qed.

Lemma ranked_sorted (query : string) :
  StronglySorted (λ x y, sc_score y ≤ sc_score x) (ranked this now query).
Proof. apply JSFacts.sort_sorted, by_score_descending. Qed.

Lemma filter_fmap {A B} (f : A → B) (P : B → Prop)
    `{!∀ b, Decision (P b)} (l : list A) :
  filter P (f <$> l) = f <$> filter (λ a, P (f a)) l.
Proof.
  induction l as [|x l IH]; [done|].
  rewrite fmap_cons, !filter_cons, IH. by case_decide.
Qed.

Lemma slice_window_length {A} (s n : Z) (l : list A) :
  0 ≤ n → (length (JS.slice s (s + n) l) ≤ Z.to_nat n)%nat.
Proof.
  intros Hn. unfold JS.slice, JS.relative_index. rewrite length_take.
  destruct (Z.ltb_spec s 0), (Z.ltb_spec (s + n) 0); lia.
Qed.
End Ranking.

(** X7: for a query that is not empty, every page that search returns is
    ordered by score, highest first, and articles of equal score stand in
    the order of the collection (the sort is stable): for every score k > 0
    the results of score k are the articles of score k in collection
    order. *)
Theorem search_ranked_by_score (this : RSSAggregator) (now : Z)
    (query : string) (limit offset : Z) :
  no_query query = false →
  StronglySorted (λ a b, score now query b ≤ score now query a)
    (search this now query limit offset)
  ∧ ∀ k, 0 < k →
      filter (λ a, score now query a = k) (full_results this now query)
      = filter (λ a, score now query a = k) (articles this).
Proof.
  intros Hq. split.
  - unfold search. rewrite Hq. apply StronglySorted_fmap.
    apply StronglySorted_slice.
    eapply StronglySorted_weaken; [|apply ranked_sorted].
    intros a b Ha Hb. cbv beta.
    by rewrite (ranked_score this now query a Ha),
               (ranked_score this now query b Hb).
  - intros k Hk. unfold full_results. rewrite Hq.
    rewrite (ranked_unfold this now query).
    set (g := λ a, {| sc_article := a; sc_score := score now query a |}).
    set (L := filter _ (g <$> articles this)).
    rewrite filter_fmap.
    rewrite (filter_agree _ (λ x, sc_score x = k)); last first.
    { intros x Hx. rewrite JSFacts.elem_of_sort in Hx.
      apply list_elem_of_filter in Hx as [_ Hx].
      apply list_elem_of_fmap in Hx as (a & -> & _). done. }
    rewrite (JSFacts.sort_stable by_score sc_score)
      by apply by_score_descending.
    subst L. rewrite list_filter_filter.
    rewrite (filter_agree _ (λ x, sc_score x = k))
      by (intros x _; lia).
    rewrite filter_fmap, <- list_fmap_compose.
    apply list_fmap_id.
Qed.

Lemma search_ranked_by_score_witness :
  no_query "ai tech" = false
  ∧ search (Sample.two (JS.ValidDate 0) (JS.ValidDate 0)) 0 "ai tech" 20 0
    = [Sample.ai (JS.ValidDate 0); Sample.sports (JS.ValidDate 0)]
  ∧ StronglySorted (λ a b, score 0 "ai tech" b ≤ score 0 "ai tech" a)
      (search (Sample.two (JS.ValidDate 0) (JS.ValidDate 0)) 0 "ai tech"
         20 0).
Proof.
  split; [reflexivity|]. split; [reflexivity|].
  apply (search_ranked_by_score
           (Sample.two (JS.ValidDate 0) (JS.ValidDate 0)) 0 "ai tech" 20 0).
  reflexivity.
Defined.

(** X8: with a limit that is not negative, search returns at most limit
    articles, for every query and every offset (a negative offset
    included, which slice counts from the end). *)
Theorem search_page_length (this : RSSAggregator) (now : Z)
    (query : string) (limit offset : Z) :
  0 ≤ limit →
  (length (search this now query limit offset) ≤ Z.to_nat limit)%nat.
Proof.
  intros Hl. unfold search. destruct (no_query query).
  - apply (slice_window_length 0 limit). done.
  - rewrite length_map. by apply slice_window_length.
Qed.

Lemma search_page_length_witness :
  0 ≤ 1
  ∧ (length (search (Sample.two (JS.ValidDate 0) (JS.ValidDate 0)) 0
               "update" 1 (-1)) ≤ Z.to_nat 1)%nat.
Proof.
  split; [lia|].
  apply (search_page_length
           (Sample.two (JS.ValidDate 0) (JS.ValidDate 0)) 0 "update" 1 (-1)).
  lia.
Defined.

(** A negative limit is no bound: on the empty query, slice(0, -1) is the
    collection without its last article. *)
Example search_negative_limit :
  search (Sample.two (JS.ValidDate 0) (JS.ValidDate 0)) 0 "" (-1) 0
  = [Sample.ai (JS.ValidDate 0)].
Proof. reflexivity. Qed.

(** * removeDuplicates, again, and getStats *)

Lemma removeDuplicates_go_fixed (seen : gset string) (l : list Article) :
  NoDup (url <$> l) → (∀ a, a ∈ l → url a ∉ seen) →
  removeDuplicates_go seen l = l.
Proof.
  revert seen. induction l as [|b l IH]; intros seen Hnd Hseen; [done|].
  rewrite fmap_cons in Hnd. apply NoDup_cons in Hnd as [Hb Hnd].
  simpl. rewrite decide_False by (apply Hseen; by left).
  f_equal. apply IH; [done|].
  intros a Ha [Hin|Hin]%elem_of_union.
  - apply elem_of_singleton in Hin. apply Hb.
    apply list_elem_of_fmap. by exists a.
  - apply (Hseen a); [by right|done].
Qed.

(** X9: removeDuplicates changes nothing exactly when the urls are
    pairwise distinct, and running it twice is running it once. *)
Theorem removeDuplicates_idempotent (l : list Article) :
  (removeDuplicates l = l ↔ NoDup (url <$> l))
  ∧ removeDuplicates (removeDuplicates l) = removeDuplicates l.
Proof.
  assert (∀ k, NoDup (url <$> k) → removeDuplicates k = k) as Hfix.
  { intros k Hk. apply removeDuplicates_go_fixed; [done|].
    intros a _. apply not_elem_of_empty. }
  split; [split|].
  - intros <-. apply removeDuplicates_go_NoDup.
  - apply Hfix.
  - apply Hfix, removeDuplicates_go_NoDup.
Qed.

Module StatsFacts.

Lemma elem_of_Set_spread_go (seen : gset string) (l : list string) x :
  x ∈ Set_spread_go seen l ↔ x ∈ l ∧ x ∉ seen.
Proof.
  revert seen. induction l as [|y l IH]; intros seen; simpl.
  { rewrite elem_of_nil. tauto. }
  case_decide as Hy.
  - rewrite IH, elem_of_cons. split; [tauto|].
    intros [[->|Hx] Hn]; [done|tauto].
  - rewrite elem_of_cons, IH, elem_of_cons, elem_of_union,
      elem_of_singleton.
    destruct (decide (x = y)) as [->|Hne]; [tauto|]. tauto.
Qed.

Lemma NoDup_Set_spread_go (seen : gset string) (l : list string) :
  NoDup (Set_spread_go seen l).
Proof.
  revert seen. induction l as [|y l IH]; intros seen; simpl.
  { constructor. }
  case_decide as Hy; [done|]. constructor; [|done].
  rewrite elem_of_Set_spread_go, elem_of_union, elem_of_singleton. tauto.
Qed.

Lemma Set_spread_go_sublist (seen : gset string) (l : list string) :
  sublist (Set_spread_go seen l) l.
Proof.
  revert seen. induction l as [|y l IH]; intros seen; simpl.
  { constructor. }
  case_decide; [apply sublist_cons|apply sublist_skip]; apply IH.
Qed.

Lemma elem_of_Set_spread (l : list string) x : x ∈ Set_spread l ↔ x ∈ l.
Proof.
  unfold Set_spread. rewrite elem_of_Set_spread_go.
  pose proof (not_elem_of_empty (C:=gset string) x). tauto.
Qed.

Lemma elem_of_map {A B} (f : A → B) (l : list A) y :
  y ∈ map f l ↔ ∃ x, x ∈ l ∧ f x = y.
Proof.
  change (map f l) with (f <$> l). rewrite list_elem_of_fmap.
  split; intros (x & ? & ?); exists x; by split.
Qed.

End StatsFacts.

(** X10: the category and source lists of getStats name each category and
    each source of the collection exactly once, in the order of first
    occurrence, and nothing else; so neither list is longer than the
    collection, and both are empty when the collection is. *)
Theorem getStats_lists (this : RSSAggregator) :
  let stats := getStats this in
  Stats.totalArticles stats = length (articles this)
  ∧ NoDup (Stats.categories stats)
  ∧ (∀ c, c ∈ Stats.categories stats ↔
          ∃ a, a ∈ articles this ∧ category a = c)
  ∧ sublist (Stats.categories stats) (category <$> articles this)
  ∧ NoDup (Stats.sources stats)
  ∧ (∀ s, s ∈ Stats.sources stats ↔
          ∃ a, a ∈ articles this ∧ source a = s)
  ∧ sublist (Stats.sources stats) (source <$> articles this).
Proof.
  simpl. split; [done|].
  split; [apply StatsFacts.NoDup_Set_spread_go|].
  split.
  { intros c. rewrite StatsFacts.elem_of_Set_spread.
    apply StatsFacts.elem_of_map. }
  split; [apply StatsFacts.Set_spread_go_sublist|].
  split; [apply StatsFacts.NoDup_Set_spread_go|].
  split.
  { intros c. rewrite StatsFacts.elem_of_Set_spread.
    apply StatsFacts.elem_of_map. }
  apply StatsFacts.Set_spread_go_sublist.
Qed.

(** * loadFromFile *)

Lemma loadFromFile_cache_of (env : Env) (w : World) :
  loadFromFile env w =
  match cache_of env (disk w) with
  | Some (Some (arts, lu)) =>
      Some (Normal (true,
        {| self := {| articles := arts; feeds := feeds (self w);
                      lastUpdate := Some lu |};
           ticks := ticks w;
           console := console w ++ [LogLoaded (length arts)];
           disk := disk w |}))
  | Some None =>
      Some (Normal (false,
        {| self := self w; ticks := ticks w;
           console := console w ++ [LogNoCache]; disk := disk w |}))
  | None => None
  end.
Proof.
  destruct w as [this n out file]. unfold loadFromFile, cache_of.
  cbn [disk]. destruct file as [| |parsed]; try reflexivity.
  destruct (revive_document (legacy_date env) parsed) as [[[arts lu]|e]|];
    reflexivity.
Qed.

(** X11: loadFromFile never throws, never writes the cache file and never
    reads the clock or changes the feeds.  When it returns false (no file,
    no JSON, no articles array, a null element) the aggregator is exactly
    as before: the articles are assigned only after every element was
    converted.  When it returns true the date of the last update is set,
    whatever the file holds for it. *)
Theorem loadFromFile_all_or_nothing (env : Env) (w : World)
    (c : Completion (bool * World)) :
  loadFromFile env w = Some c →
  ∃ loaded w',
    c = Normal (loaded, w')
    ∧ disk w' = disk w ∧ ticks w' = ticks w
    ∧ feeds (self w') = feeds (self w)
    ∧ (loaded = false → self w' = self w)
    ∧ (loaded = true → is_Some (lastUpdate (self w'))
                       ∧ ∃ parsed, disk w = Document parsed).
Proof.
  rewrite loadFromFile_cache_of. unfold cache_of.
  destruct (disk w) as [| |parsed] eqn:Hd.
  - intros [= <-]. eexists _, _. split; [reflexivity|]. simpl.
    repeat split; done.
  - intros [= <-]. eexists _, _. split; [reflexivity|]. simpl.
    repeat split; done.
  - destruct (revive_document (legacy_date env) parsed)
      as [[[arts lu]|e]|]; [| |done].
    + intros [= <-]. eexists _, _. split; [reflexivity|]. simpl.
      repeat split; try done. by eexists.
    + intros [= <-]. eexists _, _. split; [reflexivity|]. simpl.
      repeat split; done.
Qed.

Lemma loadFromFile_all_or_nothing_witness :
  ∃ loaded w',
    loadFromFile Sample.env
      {| self := Sample.two (JS.ValidDate 0) (JS.ValidDate 0);
         ticks := 0; console := [];
         disk := Document (JSON.Obj [("articles", JSON.Arr [JSON.Null])]) |}
    = Some (Normal (loaded, w'))
    ∧ loaded = false
    ∧ self w' = Sample.two (JS.ValidDate 0) (JS.ValidDate 0).
Proof.
  destruct (loadFromFile_all_or_nothing Sample.env
    {| self := Sample.two (JS.ValidDate 0) (JS.ValidDate 0);
       ticks := 0; console := [];
       disk := Document (JSON.Obj [("articles", JSON.Arr [JSON.Null])]) |}
    _ eq_refl) as (loaded & w' & E & _ & _ & _ & Hf & _).
  injection E as <- <-. eexists _, _. split; [reflexivity|].
  split; [reflexivity|]. reflexivity.
Defined.

(** * The search endpoint *)




(** * The life of the server *)

Section ProcessFacts.
Context (env : Env).

Lemma loadFeeds_fails (file : File) (error : string) (p : Process) :
  feeds_error file = Some error →
  loadFeeds file p =
  Some (Thrown error (with_stdout p (stdout p ++ [FeedsError error]))).
Proof.
  unfold loadFeeds, try_catch, feeds_error.
  destruct file as [| |[]]; try done; by intros [= <-].
Qed.

(** [loadFeeds] on a file that holds a registry. *)
Lemma loadFeeds_ok (file : File) (fs : list FeedConfig) (p : Process) :
  feeds_of_file file = Some fs →
  loadFeeds file p =
  Some (Done tt
    {| world :=
         {| self := {| articles := articles (self (world p)); feeds := fs;
                       lastUpdate := lastUpdate (self (world p)) |};
            ticks := ticks (world p); console := console (world p);
            disk := disk (world p) |};
       stdout := stdout p ++ [FeedsLoaded (length fs)];
       timer := timer p; listening := listening p;
       exit_code := exit_code p |}).
Proof.
  unfold loadFeeds, try_catch, feeds_of_file, loadFeeds_try.
  destruct file as [| |[]]; try done.
  destruct (JSON.get "feeds" _) as [[]|]; try done.
  intros ->. unfold mbind, P_bind, lift, set_feeds, mbind, M_bind, get_this,
    set_this, print, with_stdout, with_world. simpl.
  rewrite drop_all, app_nil_r. done.
Qed.

(** [loadFromFile] run by the process. *)
Lemma lift_load_cache_of (p : Process) :
  lift_load env p =
  match cache_of env (disk (world p)) with
  | Some (Some (arts, lu)) =>
      Some (Done true
        {| world :=
             {| self := {| articles := arts;
                           feeds := feeds (self (world p));
                           lastUpdate := Some lu |};
                ticks := ticks (world p);
                console := console (world p) ++ [LogLoaded (length arts)];
                disk := disk (world p) |};
           stdout := stdout p ++ [Aggregator (LogLoaded (length arts))];
           timer := timer p; listening := listening p;
           exit_code := exit_code p |})
  | Some None =>
      Some (Done false
        {| world :=
             {| self := self (world p); ticks := ticks (world p);
                console := console (world p) ++ [LogNoCache];
                disk := disk (world p) |};
           stdout := stdout p ++ [Aggregator LogNoCache];
           timer := timer p; listening := listening p;
           exit_code := exit_code p |})
  | None => None
  end.
Proof.
  unfold lift_load. rewrite loadFromFile_cache_of.
  destruct (cache_of env (disk (world p))) as [[[arts lu]|]|]; [| |done].
  - unfold lift, with_stdout, with_world. simpl.
    rewrite drop_app_length. done.
  - unfold lift, with_stdout, with_world. simpl.
    rewrite drop_app_length. done.
Qed.

(** [saveToFile] run by the process: the aggregator, the timer and the
    sockets stay; the cache file is rewritten unless the write fails. *)
Lemma lift_saveToFile (p : Process) :
  ∃ p',
    lift (saveToFile env) p = Some (Done tt p')
    ∧ self (world p') = self (world p)
    ∧ ticks (world p') = ticks (world p)
    ∧ timer p' = timer p ∧ listening p' = listening p
    ∧ exit_code p' = exit_code p
    ∧ disk (world p') =
        match write_error env with
        | None => Document (json_of_data (self (world p)))
        | Some _ => disk (world p)
        end.
Proof.
  unfold lift, saveToFile, mbind, M_bind, get_this.
  destruct (write_error env) as [message|]; simpl;
    eexists; (split; [reflexivity|]); simpl; done.
Qed.

(** [fetchAllFeeds] run by the process. *)
Lemma lift_fetchAllFeeds (p : Process) :
  ∃ arts p',
    lift (fetchAllFeeds env) p = Some (Done arts p')
    ∧ articles (self (world p')) =
        JS.sort by_pubDate (removeDuplicates (candidates env (world p)))
    ∧ feeds (self (world p')) = feeds (self (world p))
    ∧ (∃ t, lastUpdate (self (world p')) = Some (JS.ValidDate t))
    ∧ disk (world p') = disk (world p)
    ∧ timer p' = timer p ∧ listening p' = listening p
    ∧ exit_code p' = exit_code p.
Proof.
  destruct (fetchAllFeeds_normal env (world p))
    as (w' & E & Ha & Hf & Hl & Hd & _).
  unfold lift. rewrite E. eexists _, _. split; [reflexivity|]. simpl.
  done.
Qed.

(** [fetchAllFeeds] and then [saveToFile]. *)
Lemma refresh_and_save_done (p : Process) :
  ∃ p',
    refresh_and_save env p = Some (Done tt p')
    ∧ articles (self (world p')) =
        JS.sort by_pubDate (removeDuplicates (candidates env (world p)))
    ∧ feeds (self (world p')) = feeds (self (world p))
    ∧ (∃ t, lastUpdate (self (world p')) = Some (JS.ValidDate t))
    ∧ timer p' = timer p ∧ listening p' = listening p
    ∧ exit_code p' = exit_code p
    ∧ disk (world p') =
        match write_error env with
        | None => Document (json_of_data (self (world p')))
        | Some _ => disk (world p)
        end.
Proof.
  destruct (lift_fetchAllFeeds p)
    as (arts & p1 & E1 & Ha & Hf & Hl & Hd & Ht & Hli & He).
  destruct (lift_saveToFile p1) as (p2 & E2 & Hs & _ & Ht2 & Hli2 & He2 & Hd2).
  exists p2. unfold refresh_and_save, mbind, P_bind. rewrite E1, E2.
  split; [done|]. rewrite Hs, Ht2, Hli2, He2, Hd2.
  repeat split; try done. by destruct (write_error env).
Qed.

(** The articles of a refreshed collection, by where they come from. *)
Lemma refreshed_from_feeds (w : World) (a : Article) :
  a ∈ JS.sort by_pubDate (removeDuplicates (candidates env w)) →
  fetched_from env (self w) a.
Proof.
  destruct (refreshed_collection (candidates env w)) as (Hin & _ & _).
  destruct (candidates_spec env w) as [Hall _].
  intros Ha%Hin. rewrite Forall_forall in Hall. by apply Hall.
Qed.

Lemma fetched_from_feeds (this this' : RSSAggregator) (a : Article) :
  feeds this = feeds this' →
  fetched_from env this a → fetched_from env this' a.
Proof. unfold fetched_from. by intros ->. Qed.

(** The start of a server that finds a cache it can load. *)
Lemma start_loads_cache (feeds_file : File)
    (fs : list FeedConfig) (arts : list Article) (lu : JS.Date)
    (p : Process) :
  feeds_of_file feeds_file = Some fs →
  cache_of env (disk (world p)) = Some (Some (arts, lu)) →
  exit_code p = None →
  start env feeds_file p =
  Some (Done tt
    {| world :=
         {| self := {| articles := arts; feeds := fs;
                       lastUpdate := Some lu |};
            ticks := ticks (world p);
            console := console (world p) ++ [LogLoaded (length arts)];
            disk := disk (world p) |};
       stdout :=
         stdout p ++
         [Starting; FeedsLoaded (length fs);
          Aggregator (LogLoaded (length arts)); Scheduled 30;
          Running; SearchEndpoint; StatsEndpoint];
       timer := true; listening := true; exit_code := None |}).
Proof.
  intros Hfeeds Hcache Hexit.
  unfold start, initialize, try_catch, mbind, P_bind at 1 2.
  unfold print at 1. cbn [stdout].
  rewrite (loadFeeds_ok feeds_file fs) by done.
  unfold P_bind at 1. rewrite lift_load_cache_of.
  unfold with_stdout. cbn [world disk self feeds]. rewrite Hcache.
  cbn [negb]. unfold mbind, mret, P_bind, P_ret, set_timer,
    print, with_stdout, listen. simpl. rewrite Hexit.
  by rewrite <- !app_assoc.
Qed.

End ProcessFacts.

(** X13: when feeds.json cannot be read (no file, no JSON, or the document
    null), the server logs the error twice and exits with code 1: it never
    fetches, never touches the aggregator or the cache file, sets no timer
    and never listens. *)
Theorem start_feeds_unreadable (env : Env) (feeds_file : File)
    (error : string) (p : Process) :
  feeds_error feeds_file = Some error →
  start env feeds_file p =
  Some (Done tt
    {| world := world p;
       stdout := stdout p ++ [Starting; FeedsError error; InitFailed error];
       timer := timer p; listening := listening p;
       exit_code := Some 1 |}).
Proof.
  intros Herr. unfold start, initialize, try_catch, mbind, P_bind at 1 2.
  unfold print at 1. cbn [stdout].
  rewrite (loadFeeds_fails feeds_file error) by done.
  unfold print, exit, with_stdout. simpl.
  by rewrite <- !app_assoc.
Qed.

Lemma start_feeds_unreadable_witness :
  start Sample.env Absent (new_process Absent) =
  Some (Done tt
    {| world := world (new_process Absent);
       stdout := [Starting; FeedsError "ENOENT"; InitFailed "ENOENT"];
       timer := false; listening := false; exit_code := Some 1 |}).
Proof.
  apply (start_feeds_unreadable Sample.env Absent "ENOENT"
           (new_process Absent)).
  reflexivity.
Defined.

(** X14: when the cache file can be loaded, the server starts from it and
    does not fetch, whatever the age of the cache and even when it holds
    no article: the collection and the date of the last update are those
    of the file, the clock is not read, the file is not rewritten, and
    the console shows the load and no aggregation. *)
Theorem start_with_cache (env : Env) (feeds_file : File)
    (fs : list FeedConfig) (arts : list Article) (lu : JS.Date)
    (p : Process) :
  feeds_of_file feeds_file = Some fs →
  cache_of env (disk (world p)) = Some (Some (arts, lu)) →
  exit_code p = None →
  start env feeds_file p =
  Some (Done tt
    {| world :=
         {| self := {| articles := arts; feeds := fs;
                       lastUpdate := Some lu |};
            ticks := ticks (world p);
            console := console (world p) ++ [LogLoaded (length arts)];
            disk := disk (world p) |};
       stdout :=
         stdout p ++
         [Starting; FeedsLoaded (length fs);
          Aggregator (LogLoaded (length arts)); Scheduled 30;
          Running; SearchEndpoint; StatsEndpoint];
       timer := true; listening := true; exit_code := None |}).
Proof. apply start_loads_cache. Qed.

Lemma start_with_cache_witness :
  ∃ p',
    start Sample.env
      (Document (JSON.Obj [("feeds", JSON.Arr [])]))
      (new_process
         (Document (JSON.Obj [("articles", JSON.Arr []);
                              ("lastUpdate", JSON.Null)])))
    = Some (Done tt p')
    ∧ articles (self (world p')) = []
    ∧ lastUpdate (self (world p')) = Some (JS.ValidDate 0)
    ∧ ticks (world p') = 0%nat
    ∧ listening p' = true.
Proof.
  eexists. split.
  - apply (start_with_cache Sample.env
             (Document (JSON.Obj [("feeds", JSON.Arr [])])) [] []
             (JS.ValidDate 0)); reflexivity.
  - repeat split.
Defined.

(** X15: when the cache file cannot be loaded, the server fetches before it
    listens: once started, every article of its collection was built from
    an item of a feed of feeds.json that answered, no two articles share a
    url, the date of the last update is set, the timer is set, and the
    cache file holds the collection unless the write failed, in which case
    the file is as before and the server runs all the same. *)
Theorem start_without_cache (env : Env) (feeds_file : File)
    (fs : list FeedConfig) (p : Process) :
  feeds_of_file feeds_file = Some fs →
  cache_of env (disk (world p)) = Some None →
  exit_code p = None →
  ∃ p',
    start env feeds_file p = Some (Done tt p')
    ∧ feeds (self (world p')) = fs
    ∧ (∀ a, a ∈ articles (self (world p')) →
            fetched_from env (self (world p')) a)
    ∧ NoDup (url <$> articles (self (world p')))
    ∧ (∃ t, lastUpdate (self (world p')) = Some (JS.ValidDate t))
    ∧ timer p' = true ∧ listening p' = true ∧ exit_code p' = None
    ∧ disk (world p') =
        match write_error env with
        | None => Document (json_of_data (self (world p')))
        | Some _ => disk (world p)
        end.
Proof.
  intros Hfeeds Hcache Hexit.
  unfold start, initialize, try_catch, mbind, P_bind at 1 2.
  unfold print at 1. cbn [stdout].
  rewrite (loadFeeds_ok feeds_file fs) by done.
  unfold P_bind at 1. rewrite lift_load_cache_of.
  unfold with_stdout. cbn [world disk self feeds]. rewrite Hcache.
  cbn [negb]. cbv [P_bind].
  cbn [world disk self feeds ticks console stdout timer listening exit_code].
  match goal with |- context [refresh_and_save env ?q] =>
    destruct (refresh_and_save_done env q)
      as (p1 & E & Ha & Hf & Hl & Ht & Hli & He & Hd)
  end.
  rewrite E. clear E.
  cbn [world disk self feeds] in Hf, Hd.
  unfold set_timer, print, with_stdout, listen.
  cbn [world disk self feeds ticks console stdout timer listening exit_code].
  rewrite He. cbn [exit_code]. rewrite Hexit.
  eexists. split; [reflexivity|].
  cbn [world disk self feeds ticks console stdout timer listening exit_code].
  split; [exact Hf|]. split; [|split; [|split; [exact Hl|]]].
  - intros a Hin. rewrite Ha in Hin.
    apply refreshed_from_feeds in Hin.
    eapply fetched_from_feeds; [|exact Hin]. cbn [world self feeds].
    by rewrite Hf.
  - rewrite Ha. apply (refreshed_collection (candidates env _)).
  - repeat split; try reflexivity. exact Hd.
Qed.

Lemma start_without_cache_witness :
  ∃ p',
    start Sample.env ServerSample.feeds_file (new_process Absent)
    = Some (Done tt p')
    ∧ feeds (self (world p')) = [Sample.feed "https://up.example/rss"]
    ∧ (∀ a, a ∈ articles (self (world p')) →
            fetched_from Sample.env (self (world p')) a)
    ∧ NoDup (url <$> articles (self (world p')))
    ∧ (∃ t, lastUpdate (self (world p')) = Some (JS.ValidDate t))
    ∧ timer p' = true ∧ listening p' = true ∧ exit_code p' = None
    ∧ disk (world p') = Document (json_of_data (self (world p'))).
Proof.
  apply (start_without_cache Sample.env ServerSample.feeds_file
           [Sample.feed "https://up.example/rss"] (new_process Absent));
    reflexivity.
Defined.

Lemma revive_document_json_lu (legacy : string → JS.Date)
    (this : RSSAggregator) :
  Forall dates_in_range (articles this) →
  (∀ d, lastUpdate this = Some d → in_range d) →
  revive_document legacy (json_of_data this)
  = Some (Normal (articles this,
                  default (JS.ValidDate 0) (lastUpdate this))).
Proof.
  intros Hdates Hlu. unfold json_of_data, revive_document.
  change (JSON.get "articles" _)
    with (Some (JSON.Arr (map json_of_article (articles this)))).
  cbv beta iota.
  rewrite revive_all_json by done. cbn [mbind option_bind].
  change (JSON.get "lastUpdate" _)
    with (Some match lastUpdate this with
               | Some d => json_of_date d
               | None => JSON.Null
               end).
  destruct (lastUpdate this) as [d|]; [|done].
  rewrite date_of_json_of_date by by apply Hlu. done.
Qed.

(** X16: a server stopped by SIGINT and started again comes back with the
    collection it had, without fetching: the handler writes the cache and
    exits with code 0, and the next start loads every article back, field
    by field, takes the date of the last update from the file (the epoch
    when there was none), and listens without having read the clock.
    This needs a cache write that succeeds and dates within the range of
    a Date. *)
Theorem shutdown_then_start (env : Env) (feeds_file : File)
    (fs : list FeedConfig) (p : Process) :
  write_error env = None →
  feeds_of_file feeds_file = Some fs →
  Forall dates_in_range (articles (self (world p))) →
  (∀ d, lastUpdate (self (world p)) = Some d → in_range d) →
  ∃ p1,
    shutdown env p = Some (Done tt p1)
    ∧ exit_code p1 = Some 0
    ∧ self (world p1) = self (world p)
    ∧ start env feeds_file (new_process (disk (world p1))) =
      Some (Done tt
        {| world :=
             {| self :=
                  {| articles := articles (self (world p)); feeds := fs;
                     lastUpdate :=
                       Some (default (JS.ValidDate 0)
                               (lastUpdate (self (world p)))) |};
                ticks := 0;
                console := [LogLoaded (length (articles (self (world p))))];
                disk := Document (json_of_data (self (world p))) |};
           stdout :=
             [Starting; FeedsLoaded (length fs);
              Aggregator
                (LogLoaded (length (articles (self (world p)))));
              Scheduled 30; Running; SearchEndpoint; StatsEndpoint];
           timer := true; listening := true; exit_code := None |}).
Proof.
  intros Hwrite Hfeeds Hdates Hlu.
  unfold shutdown, mbind, P_bind, print, with_stdout.
  destruct (lift_saveToFile env
              {| world := world p; stdout := stdout p ++ [ShuttingDown];
                 timer := timer p; listening := listening p;
                 exit_code := exit_code p |})
    as (p1 & E & Hs & _ & _ & _ & _ & Hd).
  rewrite E. clear E. rewrite Hwrite in Hd. cbn [world] in Hs, Hd.
  unfold exit. eexists. split; [reflexivity|].
  cbn [world exit_code]. split; [reflexivity|]. split; [exact Hs|].
  rewrite Hd.
  rewrite (start_loads_cache env feeds_file fs
             (articles (self (world p)))
             (default (JS.ValidDate 0) (lastUpdate (self (world p))))).
  - reflexivity.
  - exact Hfeeds.
  - unfold cache_of, new_process. cbn [world disk].
    by rewrite revive_document_json_lu.
  - reflexivity.
Qed.

Lemma shutdown_then_start_witness :
  ∃ p1,
    shutdown Sample.env
      (ServerSample.running
         [Sample.ai (JS.ValidDate 2000); Sample.sports (JS.ValidDate 1000)]
         Absent)
    = Some (Done tt p1)
    ∧ exit_code p1 = Some 0
    ∧ ∃ p2,
        start Sample.env ServerSample.feeds_file
          (new_process (disk (world p1))) = Some (Done tt p2)
        ∧ articles (self (world p2)) =
            [Sample.ai (JS.ValidDate 2000);
             Sample.sports (JS.ValidDate 1000)]
        ∧ ticks (world p2) = 0%nat.
Proof.
  destruct (shutdown_then_start Sample.env ServerSample.feeds_file
              [Sample.feed "https://up.example/rss"]
              (ServerSample.running
                 [Sample.ai (JS.ValidDate 2000);
                  Sample.sports (JS.ValidDate 1000)] Absent))
    as (p1 & E1 & He & _ & E2).
  - reflexivity.
  - reflexivity.
  - repeat constructor; simpl; unfold JSDate.maxTime; lia.
  - intros d [= <-]. simpl. unfold JSDate.maxTime. lia.
  - exists p1. split; [exact E1|]. split; [exact He|].
    eexists. split; [exact E2|]. split; reflexivity.
Defined.

(** X17: POST /refresh always answers success, also when every feed fails
    or when the cache cannot be written (saveToFile keeps its error to
    itself).  The statistics it sends describe the refreshed collection:
    as many feeds as configured, a date of last update, and only sources
    and categories of configured feeds that answered.  The cache file
    holds the refreshed collection when the write succeeds and is left
    as it was when it fails; the server keeps running either way. *)
Theorem refresh_handler_reports (env : Env) (p : Process) :
  ∃ p',
    refresh_handler env p
      = Some (Done (Refreshed (getStats (self (world p')))) p')
    ∧ Stats.totalFeeds (getStats (self (world p')))
        = length (feeds (self (world p)))
    ∧ (∃ t, Stats.lastUpdate (getStats (self (world p')))
              = Some (JS.ValidDate t))
    ∧ (∀ s, s ∈ Stats.sources (getStats (self (world p'))) →
         ∃ fc feed, fc ∈ feeds (self (world p))
                    ∧ parseURL env (feed_url fc) = Fulfilled feed
                    ∧ feed_source fc = s)
    ∧ (∀ c, c ∈ Stats.categories (getStats (self (world p'))) →
         ∃ fc feed, fc ∈ feeds (self (world p))
                    ∧ parseURL env (feed_url fc) = Fulfilled feed
                    ∧ feed_category fc = c)
    ∧ disk (world p') =
        match write_error env with
        | None => Document (json_of_data (self (world p')))
        | Some _ => disk (world p)
        end
    ∧ listening p' = listening p ∧ exit_code p' = exit_code p.
Proof.
  unfold refresh_handler, try_catch, mbind, P_bind, print, with_stdout.
  destruct (refresh_and_save_done env
              {| world := world p; stdout := stdout p ++ [ManualRefresh];
                 timer := timer p; listening := listening p;
                 exit_code := exit_code p |})
    as (p1 & E & Ha & Hf & Hl & Ht & Hli & He & Hd).
  rewrite E. clear E. cbn [world listening exit_code] in *.
  unfold aggregator, mret, P_ret. exists p1.
  split; [reflexivity|]. cbn [getStats Stats.totalFeeds Stats.lastUpdate
    Stats.sources Stats.categories].
  split; [by rewrite Hf|]. split; [exact Hl|].
  assert (∀ a, a ∈ articles (self (world p1)) →
            fetched_from env (self (world p)) a) as Hfrom.
  { intros a Hin. rewrite Ha in Hin. by apply refreshed_from_feeds. }
  split; [|split].
  - intros s Hs. rewrite StatsFacts.elem_of_Set_spread in Hs.
    apply StatsFacts.elem_of_map in Hs as (a & Hin & <-).
    destruct (Hfrom a Hin) as (fc & feed & item & Hfc & Hp & _ & Hb).
    exists fc, feed. split; [done|]. split; [done|].
    by destruct Hb as (_ & _ & _ & _ & _ & _ & -> & _).
  - intros c Hc. rewrite StatsFacts.elem_of_Set_spread in Hc.
    apply StatsFacts.elem_of_map in Hc as (a & Hin & <-).
    destruct (Hfrom a Hin) as (fc & feed & item & Hfc & Hp & _ & Hb).
    exists fc, feed. split; [done|]. split; [done|].
    by destruct Hb as (_ & _ & _ & _ & _ & _ & _ & -> & _).
  - split; [exact Hd|]. split; [exact Hli|exact He].
Qed.

(** X18: a refresh by the timer never stops the server and never throws:
    it replaces the collection by articles built from the items of the
    configured feeds that answered, with pairwise distinct urls (an
    article of the collection before the refresh stays only if it is
    fetched again), sets the date of the last update, and rewrites the
    cache file unless the write fails; the feeds, the timer, the
    listening socket and the exit code are as before. *)
Theorem auto_refresh_keeps_running (env : Env) (p : Process) :
  ∃ p',
    auto_refresh env p = Some (Done tt p')
    ∧ (∀ a, a ∈ articles (self (world p')) →
            fetched_from env (self (world p)) a)
    ∧ NoDup (url <$> articles (self (world p')))
    ∧ feeds (self (world p')) = feeds (self (world p))
    ∧ (∃ t, lastUpdate (self (world p')) = Some (JS.ValidDate t))
    ∧ disk (world p') =
        match write_error env with
        | None => Document (json_of_data (self (world p')))
        | Some _ => disk (world p)
        end
    ∧ timer p' = timer p ∧ listening p' = listening p
    ∧ exit_code p' = exit_code p.
Proof.
  unfold auto_refresh, try_catch, mbind, P_bind, print, with_stdout.
  destruct (refresh_and_save_done env
              {| world := world p;
                 stdout := stdout p ++ [AutoRefreshTriggered];
                 timer := timer p; listening := listening p;
                 exit_code := exit_code p |})
    as (p1 & E & Ha & Hf & Hl & Ht & Hli & He & Hd).
  rewrite E. clear E. cbn [world timer listening exit_code] in *.
  exists p1. split; [reflexivity|]. split.
  { intros a Hin. rewrite Ha in Hin. by apply refreshed_from_feeds. }
  split.
  { rewrite Ha. apply (refreshed_collection (candidates env _)). }
  split; [exact Hf|]. split; [exact Hl|]. split; [exact Hd|].
  split; [exact Ht|]. split; [exact Hli|exact He].
Qed.

(** * Numbers as text *)

Module NumFacts.
Import JSDateFacts (append_cons, append_nil).













End NumFacts.



(** * The page *)

Module FrontendFacts.
Import Frontend FrontendSpec.

Lemma with_loaded_same (page : Page) :
  with_loaded (loadedArticles page) page = page.
Proof. by destruct page. Qed.

Lemma with_loaded_twice (l1 l2 : gset string) (page : Page) :
  with_loaded l2 (with_loaded l1 page) = with_loaded l2 page.
Proof. reflexivity. Qed.

(** The loop over the articles of one answer: it appends articles made
    from some of the answer's, in their order, with urls that are new and
    pairwise distinct, records exactly these urls as loaded, and appends
    no more than [articlesPerInterest] allows. *)
Lemma take_articles_spec (perInterest : JS.number) (interest : string)
    (articles : list Wire) (allArticles : list Shown) (added : Z)
    (page : Page) :
  ∃ taken : list Wire,
    take_articles perInterest interest articles allArticles added page
    = (allArticles ++ (to_shown interest <$> taken),
       with_loaded (list_to_set (w_url <$> taken) ∪ loadedArticles page)
                   page)
    ∧ sublist taken articles
    ∧ NoDup (w_url <$> taken)
    ∧ (∀ u, u ∈ w_url <$> taken → u ∉ loadedArticles page)
    ∧ (∀ n, perInterest = Some n →
         (added + Z.of_nat (length taken) ≤ Z.max added n)).
Proof.
  revert allArticles added page.
  induction articles as [|article rest IH]; intros allArticles added page.
  { exists []. simpl. rewrite app_nil_r, union_empty_l_L, with_loaded_same.
    split; [done|]. split; [done|]. split; [constructor|].
    split; [by intros u ?%elem_of_nil|]. intros n _. lia. }
  cbn [take_articles].
  destruct (at_least added perInterest) eqn:Hge.
  { exists []. simpl. rewrite app_nil_r, union_empty_l_L, with_loaded_same.
    split; [done|]. split; [apply sublist_nil_l|]. split; [constructor|].
    split; [by intros u ?%elem_of_nil|]. intros n _. lia. }
  unfold mbind, F_bind, get.
  destruct (decide (w_url article ∈ loadedArticles page)) as [Hin|Hnew].
  - destruct (IH allArticles added page)
      as (taken & E & Hsub & Hnd & Hfresh & Hlen).
    exists taken. split; [done|]. split; [by apply sublist_cons|]. done.
  - unfold set_loadedArticles at 1.
    match goal with |- context [take_articles _ _ _ ?all' ?added' ?page'] =>
      destruct (IH all' added' page')
        as (taken & E & Hsub & Hnd & Hfresh & Hlen)
    end.
    cbn [loadedArticles] in E, Hfresh.
    exists (article :: taken). rewrite E. split.
    { rewrite fmap_cons, <- app_assoc. cbn [app]. f_equal.
      unfold with_loaded, set_loadedArticles. cbn.
      f_equal. apply set_eq. intros u.
      rewrite !elem_of_union, elem_of_singleton. tauto. }
    split; [by apply sublist_skip|]. rewrite fmap_cons. split.
    { constructor; [|done]. intros Hu. apply Hfresh in Hu.
      apply Hu, elem_of_union. left. by apply elem_of_singleton. }
    split.
    { intros u [->|Hu]%elem_of_cons; [done|].
      apply Hfresh in Hu. intros HL. apply Hu, elem_of_union. by right. }
    intros n Hn. specialize (Hlen n Hn). rewrite Hn in Hge. simpl in Hge.
    apply Z.leb_gt in Hge. cbn [length]. lia.
Qed.

Lemma fetching_refl (page : Page) : fetching page page.
Proof.
  repeat split; try done. exists []. by rewrite app_nil_r.
Qed.

Lemma fetching_trans (p1 p2 p3 : Page) :
  fetching p1 p2 → fetching p2 p3 → fetching p1 p3.
Proof.
  intros (Hs1 & Hc1 & Hi1 & Hl1 & ops1 & Hf1 & Ha1)
         (Hs2 & Hc2 & Hi2 & Hl2 & ops2 & Hf2 & Ha2).
  split; [congruence|]. split; [congruence|]. split; [congruence|].
  split; [by etransitivity|].
  exists (ops1 ++ ops2). rewrite Hf2, Hf1, app_assoc. split; [done|].
  unfold appended in *. by rewrite omap_app, Ha1, Ha2.
Qed.

(** One turn of the loop over the interests. *)
Lemma fetch_interest_spec (browser : Browser) (perInterest : JS.number)
    (allArticles : list Shown) (interest : string) (page : Page) :
  ∃ (taken : list Wire) (page' : Page),
    fetch_interest browser perInterest allArticles interest page
    = (allArticles ++ (to_shown interest <$> taken), page')
    ∧ fetching page page'
    ∧ requests page' = S (requests page)
    ∧ sorts page' = sorts page
    ∧ loadedArticles page'
      = list_to_set (w_url <$> taken) ∪ loadedArticles page
    ∧ NoDup (w_url <$> taken)
    ∧ (∀ u, u ∈ w_url <$> taken → u ∉ loadedArticles page)
    ∧ (∀ n, perInterest = Some n → 0 ≤ n →
         (length taken ≤ Z.to_nat n)%nat)
    ∧ match backend browser (requests page)
              {| r_q := interest;
                 r_limit := JSNum.toString perInterest;
                 r_offset :=
                   JSNum.toString (times (currentPage page) perInterest) |}
      with
      | Answer articles => sublist taken articles
      | Failed _ => taken = []
      end.
Proof.
  unfold fetch_interest, mbind, F_bind, get, fetch.
  destruct (backend browser (requests page) _) as [articles|error].
  - match goal with |- context [take_articles _ _ _ _ _ ?page1] =>
      destruct (take_articles_spec perInterest interest articles
                  allArticles 0 page1)
        as (taken & E & Hsub & Hnd & Hfresh & Hlen)
    end.
    exists taken. eexists. split; [exact E|].
    cbn [loadedArticles] in *. unfold with_loaded, set_loadedArticles.
    cbn. split.
    { repeat split; try done.
      - intros u Hu. apply elem_of_union. by right.
      - exists []. by rewrite app_nil_r. }
    repeat split; try done.
    intros n Hn H0. specialize (Hlen n Hn). lia.
  - exists []. eexists. unfold console_error, feed_op, mret, F_ret.
    cbn. rewrite app_nil_r. split; [reflexivity|]. cbn. split.
    { repeat split; try done. by exists [ShowMessage (FetchFailed interest)]. }
    rewrite union_empty_l_L. repeat split; try done.
    + constructor.
    + by intros u ?%elem_of_nil.
    + intros n _ _. simpl. lia.
Qed.

Lemma s_url_to_shown (interest : string) (taken : list Wire) :
  s_url <$> (to_shown interest <$> taken) = w_url <$> taken.
Proof. by rewrite <- list_fmap_compose. Qed.

Lemma s_interest_to_shown (interest : string) (taken : list Wire)
    (a : Shown) :
  a ∈ to_shown interest <$> taken → s_interest a = interest.
Proof. by intros (w & -> & _)%list_elem_of_fmap. Qed.

(** The loop over the interests. *)
Lemma fetch_loop_spec (browser : Browser) (perInterest : JS.number)
    (todo : list string) (allArticles : list Shown) (page : Page) :
  ∃ (new : list Shown) (page' : Page),
    for_each (fetch_interest browser perInterest) allArticles todo page
    = (allArticles ++ new, page')
    ∧ fetching page page'
    ∧ requests page' = (requests page + length todo)%nat
    ∧ sorts page' = sorts page
    ∧ loadedArticles page'
      = list_to_set (s_url <$> new) ∪ loadedArticles page
    ∧ NoDup (s_url <$> new)
    ∧ (∀ u, u ∈ s_url <$> new → u ∉ loadedArticles page)
    ∧ (∀ a, a ∈ new →
         s_interest a ∈ todo
         ∧ ∃ (n : nat) (articles : list Wire) (w : Wire),
             (requests page ≤ n < requests page + length todo)%nat
             ∧ backend browser n
                 {| r_q := s_interest a;
                    r_limit := JSNum.toString perInterest;
                    r_offset :=
                      JSNum.toString
                        (times (currentPage page) perInterest) |}
               = Answer articles
             ∧ w ∈ articles
             ∧ a = to_shown (s_interest a) w)
    ∧ (∀ i n, perInterest = Some n → 0 ≤ n →
         (length (filter (λ a, s_interest a = i) new)
          ≤ Z.to_nat n * length (filter (λ j, j = i) todo))%nat).
Proof.
  revert allArticles page.
  induction todo as [|interest todo IH]; intros allArticles page.
  { exists [], page. cbn. rewrite app_nil_r, union_empty_l_L.
    split; [done|]. split; [apply fetching_refl|].
    split; [lia|]. split; [done|]. split; [done|].
    split; [constructor|]. split; [by intros u ?%elem_of_nil|].
    split; [by intros a ?%elem_of_nil|]. intros i n _ _. simpl. lia. }
  cbn [for_each]. unfold mbind, F_bind.
  destruct (fetch_interest_spec browser perInterest allArticles interest page)
    as (taken & page1 & E1 & Hf1 & Hr1 & Hs1 & Hl1 & Hnd1 & Hfresh1
        & Hlen1 & Hans1).
  rewrite E1.
  destruct (IH (allArticles ++ (to_shown interest <$> taken)) page1)
    as (new & page2 & E2 & Hf2 & Hr2 & Hs2 & Hl2 & Hnd2 & Hfresh2
        & Hfrom2 & Hlen2).
  rewrite E2. exists ((to_shown interest <$> taken) ++ new), page2.
  split; [by rewrite app_assoc|].
  split; [by eapply fetching_trans|].
  split; [rewrite Hr2, Hr1; cbn [length]; lia|].
  split; [congruence|].
  rewrite fmap_app, s_url_to_shown.
  split.
  { rewrite Hl2, Hl1, list_to_set_app_L. apply set_eq. intros u.
    rewrite !elem_of_union. tauto. }
  split.
  { apply NoDup_app. split; [done|]. split; [|done].
    intros u Hu Hu2. apply Hfresh2 in Hu2. apply Hu2. rewrite Hl1.
    apply elem_of_union. left. by apply elem_of_list_to_set. }
  split.
  { intros u [Hu|Hu]%elem_of_app; [by apply Hfresh1|].
    apply Hfresh2 in Hu. intros HL. apply Hu. rewrite Hl1.
    apply elem_of_union. by right. }
  destruct Hf1 as (_ & Hc1 & _).
  split.
  - intros a [Ha|Ha]%elem_of_app.
    + pose proof (s_interest_to_shown _ _ _ Ha) as Hi. rewrite Hi.
      split; [by left|].
      apply list_elem_of_fmap in Ha as (w & -> & Hw).
      destruct (backend browser (requests page) _) as [articles|error]
        eqn:Hb; [|by subst taken; apply elem_of_nil in Hw].
      exists (requests page), articles, w. split; [cbn [length]; lia|].
      split; [exact Hb|]. split; [|done].
      eapply sublist_subseteq; [exact Hans1|exact Hw].
    + destruct (Hfrom2 a Ha) as (Hin & n & articles & w & Hn & Hb & Hw & Ea).
      split; [by right|]. exists n, articles, w.
      split; [rewrite Hr1 in Hn; cbn [length]; lia|].
      rewrite Hc1 in Hb. done.
  - intros i n Hn H0. rewrite filter_app, length_app, filter_cons.
    specialize (Hlen2 i n Hn H0). specialize (Hlen1 n Hn H0).
    destruct (decide (interest = i)) as [->|Hne].
    + cbn [length].
      pose proof (length_filter (λ a, s_interest a = i)
                    (to_shown i <$> taken)) as Hle.
      rewrite length_fmap in Hle. lia.
    + rewrite (filter_none (λ a, s_interest a = i)); [simpl; lia|].
      intros a Ha. by rewrite (s_interest_to_shown _ _ _ Ha).
Qed.

End FrontendFacts.

Lemma slice_sublist {A} (s e : Z) (l : list A) : sublist (JS.slice s e l) l.
Proof.
  unfold JS.slice. etransitivity; [apply sublist_take|apply sublist_drop].
Qed.

(** [fetchArticles], step by step. *)
Lemma fetchArticles_unfold (browser : Frontend.Browser)
    (page : Frontend.Page) :
  ∃ page1,
    Frontend.for_each
      (Frontend.fetch_interest browser
         (Frontend.articlesPerInterest (Frontend.settings page)))
      [] (Frontend.interests (Frontend.settings page)) page
    = (FrontendSpec.gathered browser page, page1)
    ∧ Frontend.fetchArticles browser page
      = (JS.slice 0
           (default 0 (Frontend.totalArticles (Frontend.settings page1)))
           (Frontend.shuffle browser (Frontend.sorts page1)
              (FrontendSpec.gathered browser page)),
         snd (Frontend.random_sort browser
                (FrontendSpec.gathered browser page) page1)).
Proof.
  unfold Frontend.fetchArticles, FrontendSpec.gathered, mbind,
    Frontend.F_bind, Frontend.get.
  destruct (Frontend.for_each _ _ _ page) as [all page1].
  exists page1. split; [done|]. reflexivity.
Qed.

(** What [fetchArticles] returns and what it leaves. *)
Lemma fetchArticles_spec (browser : Frontend.Browser)
    (page : Frontend.Page) :
  ∃ result page',
    Frontend.fetchArticles browser page = (result, page')
    ∧ NoDup (Frontend.s_url <$> result)
    ∧ (∀ a, a ∈ result →
         (Frontend.s_url a ∉ Frontend.loadedArticles page)
         ∧ Frontend.s_url a ∈ Frontend.loadedArticles page'
         ∧ Frontend.s_interest a
             ∈ Frontend.interests (Frontend.settings page)
         ∧ FrontendSpec.answered browser page a)
    ∧ FrontendSpec.fetching page page'
    ∧ Frontend.requests page'
      = (Frontend.requests page
         + length (Frontend.interests (Frontend.settings page)))%nat.
Proof.
  destruct (fetchArticles_unfold browser page) as (page1 & Eloop & ->).
  destruct (FrontendFacts.fetch_loop_spec browser
              (Frontend.articlesPerInterest (Frontend.settings page))
              (Frontend.interests (Frontend.settings page)) [] page)
    as (new & page1' & E & Hf & Hr & Hs & Hl & Hnd & Hfresh & Hfrom & _).
  rewrite Eloop in E. injection E as Hg <-.
  rewrite Hg. cbn [app] in *. clear Hg Eloop.
  eexists _, _. split; [reflexivity|].
  set (shuffled := Frontend.shuffle browser _ new).
  assert (shuffled ≡ₚ new) as Hperm by apply Frontend.shuffle_perm.
  set (result := JS.slice 0 _ shuffled).
  assert (sublist result shuffled) as Hsub by apply slice_sublist.
  split.
  { apply (sublist_NoDup _ (Frontend.s_url <$> shuffled));
      [by rewrite Hperm|by apply fmap_sublist]. }
  split.
  { intros a Ha.
    assert (a ∈ new) as Hin.
    { rewrite <- Hperm. eapply sublist_subseteq; [exact Hsub|exact Ha]. }
    assert (Frontend.s_url a ∈ Frontend.s_url <$> new) as Hu.
    { apply list_elem_of_fmap. by exists a. }
    split; [by apply Hfresh|]. split.
    { cbn. rewrite Hl. apply elem_of_union. left.
      by apply elem_of_list_to_set. }
    destruct (Hfrom a Hin) as (Hi & n & articles & w & Hn & Hb & Hw & Ea).
    split; [done|]. by exists n, articles, w. }
  split.
  { destruct Hf as (H1 & H2 & H3 & H4 & H5). by repeat split. }
  exact Hr.
Qed.


(** X21: the cut to totalArticles comes after the articles were recorded
    as loaded.  fetchArticles returns a part of the articles it gathered:
    as many as totalArticles allows, none when totalArticles is NaN, and
    all but the last -n when it is a negative n.  It gathers at most
    articlesPerInterest articles for each occurrence of an interest in the
    settings.  And it records every gathered article as loaded, so that a
    gathered article that the cut leaves out is not returned by a later
    call either. *)
Theorem fetchArticles_cut_after_recording (browser : Frontend.Browser)
    (page : Frontend.Page) :
  let gathered := FrontendSpec.gathered browser page in
  let result := fst (Frontend.fetchArticles browser page) in
  let page' := snd (Frontend.fetchArticles browser page) in
  result ⊆ gathered
  ∧ length result
    = match Frontend.totalArticles (Frontend.settings page) with
      | Some n =>
          if n <? 0 then (length gathered - Z.to_nat (- n))%nat
          else (Z.to_nat n `min` length gathered)%nat
      | None => 0%nat
      end
  ∧ Frontend.loadedArticles page'
    = list_to_set (Frontend.s_url <$> gathered)
      ∪ Frontend.loadedArticles page
  ∧ ∀ i n, Frontend.articlesPerInterest (Frontend.settings page) = Some n →
      0 ≤ n →
      (length (filter (λ a, Frontend.s_interest a = i) gathered)
       ≤ Z.to_nat n
         * length (filter (λ j, j = i)
                     (Frontend.interests (Frontend.settings page))))%nat.
Proof.
  cbv zeta.
  destruct (fetchArticles_unfold browser page) as (page1 & Eloop & ->).
  destruct (FrontendFacts.fetch_loop_spec browser
              (Frontend.articlesPerInterest (Frontend.settings page))
              (Frontend.interests (Frontend.settings page)) [] page)
    as (new & page1' & E & Hf & Hr & Hs & Hl & Hnd & Hfresh & Hfrom & Hlen).
  rewrite Eloop in E. injection E as Hg <-.
  rewrite Hg. cbn [app fst snd] in *. clear Hg Eloop.
  destruct Hf as (Hset & _).
  set (shuffled := Frontend.shuffle browser _ new).
  assert (shuffled ≡ₚ new) as Hperm by apply Frontend.shuffle_perm.
  split.
  { intros a Ha. rewrite <- Hperm.
    eapply sublist_subseteq; [apply slice_sublist|exact Ha]. }
  split.
  { rewrite Hset, <- (Permutation_length Hperm).
    unfold JS.slice, JS.relative_index. rewrite length_take, length_drop.
    destruct (Frontend.totalArticles (Frontend.settings page)) as [n|];
      cbn [default].
    - change (0 <? 0) with false. cbv iota.
      unfold id. destruct (Z.ltb_spec n 0); lia.
    - change (0 <? 0) with false. cbv iota. lia. }
  split; [exact Hl|]. exact Hlen.
Qed.

(** * loadFeed *)

Lemma appended_articles (l : list Frontend.Shown) :
  FrontendSpec.appended
    ((λ a, Frontend.AppendInner (Frontend.ArticleHTML a)) <$> l) = l.
Proof.
  unfold FrontendSpec.appended. induction l as [|a l IH]; [done|].
  rewrite fmap_cons. cbn [omap list_omap]. by rewrite IH.
Qed.

Lemma appended_app (l1 l2 : list Frontend.FeedOp) :
  FrontendSpec.appended (l1 ++ l2)
  = FrontendSpec.appended l1 ++ FrontendSpec.appended l2.
Proof. apply omap_app. Qed.

(** The loop that writes the articles into the feed. *)
Lemma append_articles (l : list Frontend.Shown) (page : Frontend.Page) :
  Frontend.for_each
    (λ _ article,
       Frontend.feed_op (Frontend.AppendInner (Frontend.ArticleHTML article)))
    tt l page
  = (tt, {| Frontend.settings := Frontend.settings page;
            Frontend.loadedArticles := Frontend.loadedArticles page;
            Frontend.currentPage := Frontend.currentPage page;
            Frontend.isLoading := Frontend.isLoading page;
            Frontend.interestInput := Frontend.interestInput page;
            Frontend.totalArticlesInput := Frontend.totalArticlesInput page;
            Frontend.articlesPerInterestInput :=
              Frontend.articlesPerInterestInput page;
            Frontend.interestList := Frontend.interestList page;
            Frontend.feed :=
              Frontend.feed page ++
              ((λ a, Frontend.AppendInner (Frontend.ArticleHTML a)) <$> l);
            Frontend.newsReaderSettings := Frontend.newsReaderSettings page;
            Frontend.requests := Frontend.requests page;
            Frontend.sorts := Frontend.sorts page;
            Frontend.errors := Frontend.errors page |}).
Proof.
  revert page. induction l as [|a l IH]; intros page.
  { cbn. rewrite app_nil_r. by destruct page. }
  cbn [Frontend.for_each]. unfold mbind, Frontend.F_bind.
  unfold Frontend.feed_op at 1. rewrite IH. cbn.
  by rewrite <- app_assoc.
Qed.

(** A call of [loadFeed] that gets past its two guards. *)
Lemma loadFeed_spec (browser : Frontend.Browser) (loadMore : bool)
    (page : Frontend.Page) :
  Frontend.isLoading page = false →
  Frontend.interests (Frontend.settings page) ≠ [] →
  ∃ page' ops,
    Frontend.loadFeed browser loadMore page = (tt, page')
    ∧ Frontend.feed page' = Frontend.feed page ++ ops
    ∧ NoDup (Frontend.s_url <$> FrontendSpec.appended ops)
    ∧ (∀ a, a ∈ FrontendSpec.appended ops →
         (loadMore = true →
          Frontend.s_url a ∉ Frontend.loadedArticles page)
         ∧ Frontend.s_url a ∈ Frontend.loadedArticles page'
         ∧ Frontend.s_interest a
             ∈ Frontend.interests (Frontend.settings page))
    ∧ (loadMore = true →
       Frontend.loadedArticles page ⊆ Frontend.loadedArticles page')
    ∧ Frontend.currentPage page'
      = (if loadMore then Frontend.currentPage page else 0) + 1
    ∧ Frontend.isLoading page' = false
    ∧ Frontend.settings page' = Frontend.settings page
    ∧ Frontend.requests page'
      = (Frontend.requests page
         + length (Frontend.interests (Frontend.settings page)))%nat.
Proof.
  intros Hload Hint. unfold Frontend.loadFeed, mbind, Frontend.F_bind,
    Frontend.get. rewrite Hload.
  destruct (Frontend.interests (Frontend.settings page)) as [|i0 rest] eqn:Hi;
    [done|].
  cbn [length Nat.eqb]. rewrite <- Hi. clear Hint.
  destruct loadMore; cbn [negb].
  - unfold mret, Frontend.F_ret, Frontend.set_isLoading at 1.
    match goal with |- context [Frontend.fetchArticles browser ?p1] =>
      destruct (fetchArticles_spec browser p1)
        as (result & p2 & E & Hnd & Hres & Hf & Hr)
    end.
    rewrite E. cbn [Frontend.settings Frontend.loadedArticles
      Frontend.requests Frontend.feed Frontend.currentPage
      Frontend.isLoading] in Hres, Hf, Hr.
    destruct Hf as (Hs & Hc & Hl & Hsub & msgs & Hfeed & Hmsgs).
    cbn [Frontend.settings Frontend.loadedArticles
      Frontend.requests Frontend.feed Frontend.currentPage
      Frontend.isLoading] in Hs, Hc, Hl, Hsub, Hfeed.
    destruct result as [|a0 result'] eqn:Hresult.
    + cbn [length Nat.eqb]. unfold Frontend.feed_op,
        Frontend.set_currentPage, Frontend.set_isLoading. cbn.
      eexists _, (msgs ++ [Frontend.AppendInner Frontend.NoArticles]).
      split; [reflexivity|]. cbn.
      rewrite Hfeed, <- app_assoc. split; [done|].
      rewrite appended_app, Hmsgs. cbn.
      split; [constructor|]. split; [by intros a ?%elem_of_nil|].
      rewrite Hc, Hr, Hi. by repeat split.
    + cbn [length Nat.eqb]. rewrite <- Hresult in *. clear Hresult.
      rewrite append_articles.
      unfold Frontend.feed_op, Frontend.set_currentPage,
        Frontend.set_isLoading. cbn.
      eexists _,
        (msgs ++ ((λ a, Frontend.AppendInner (Frontend.ArticleHTML a))
                    <$> result)
              ++ [Frontend.AppendInner Frontend.DoomscrollWarning]).
      split; [reflexivity|]. cbn.
      rewrite Hfeed, <- !app_assoc. split; [done|].
      rewrite !appended_app, Hmsgs, appended_articles. cbn.
      rewrite app_nil_r.
      split; [done|]. split.
      { intros a Ha. destruct (Hres a Ha) as (H1 & H2 & H3 & _).
        done. }
      rewrite Hc, Hr, Hi. by repeat split.
  - unfold Frontend.set_currentPage at 1, Frontend.set_loadedArticles at 1,
      Frontend.set_isLoading at 1, Frontend.feed_op at 1.
    cbn [Frontend.settings Frontend.loadedArticles
      Frontend.requests Frontend.feed Frontend.currentPage
      Frontend.isLoading Frontend.interestInput Frontend.totalArticlesInput
      Frontend.articlesPerInterestInput Frontend.interestList
      Frontend.newsReaderSettings Frontend.sorts Frontend.errors].
    match goal with |- context [Frontend.fetchArticles browser ?p1] =>
      destruct (fetchArticles_spec browser p1)
        as (result & p2 & E & Hnd & Hres & Hf & Hr)
    end.
    rewrite E. cbn [Frontend.settings Frontend.loadedArticles
      Frontend.requests Frontend.feed Frontend.currentPage
      Frontend.isLoading] in Hres, Hf, Hr.
    destruct Hf as (Hs & Hc & Hl & Hsub & msgs & Hfeed & Hmsgs).
    cbn [Frontend.settings Frontend.loadedArticles
      Frontend.requests Frontend.feed Frontend.currentPage
      Frontend.isLoading] in Hs, Hc, Hl, Hsub, Hfeed.
    destruct result as [|a0 result'] eqn:Hresult.
    + cbn [length Nat.eqb]. unfold Frontend.feed_op,
        Frontend.set_currentPage, Frontend.set_isLoading. cbn.
      eexists _,
        ([Frontend.SetInner Frontend.Loading] ++ msgs
         ++ [Frontend.SetInner Frontend.Heading;
             Frontend.AppendInner Frontend.NoArticles]).
      split; [reflexivity|]. cbn.
      rewrite Hfeed, <- !app_assoc. split; [done|].
      change (FrontendSpec.appended (Frontend.SetInner Frontend.Loading :: ?l))
        with (FrontendSpec.appended l).
      rewrite appended_app, Hmsgs. cbn.
      split; [constructor|]. split; [by intros a ?%elem_of_nil|].
      rewrite Hc, Hr, Hi. by repeat split.
    + cbn [length Nat.eqb]. rewrite <- Hresult in *. clear Hresult.
      unfold Frontend.feed_op at 1. rewrite append_articles.
      unfold Frontend.feed_op, Frontend.set_currentPage,
        Frontend.set_isLoading. cbn.
      eexists _,
        ([Frontend.SetInner Frontend.Loading] ++ msgs
         ++ [Frontend.SetInner Frontend.Heading]
         ++ ((λ a, Frontend.AppendInner (Frontend.ArticleHTML a))
               <$> result)
         ++ [Frontend.AppendInner Frontend.DoomscrollWarning]).
      split; [reflexivity|]. cbn.
      rewrite Hfeed, <- !app_assoc. split; [done|].
      change (FrontendSpec.appended (Frontend.SetInner Frontend.Loading :: ?l))
        with (FrontendSpec.appended l).
      rewrite appended_app, Hmsgs.
      change (FrontendSpec.appended (Frontend.SetInner Frontend.Heading :: ?l))
        with (FrontendSpec.appended l).
      rewrite appended_app, appended_articles. cbn. rewrite app_nil_r.
      split; [done|]. split.
      { intros a Ha. destruct (Hres a Ha) as (H1 & H2 & H3 & _).
        done. }
      rewrite Hc, Hr, Hi. by repeat split.
Qed.



(** X23: however often the reader asks for more, no article is shown
    twice: after a fresh load followed by any number of calls of
    loadMoreArticles, the articles written to the feed since the fresh
    load began have pairwise distinct urls, and the page number is the
    number of loads. *)
Theorem load_more_never_repeats (browser : Frontend.Browser)
    (page : Frontend.Page) (n : nat) :
  Frontend.isLoading page = false →
  Frontend.interests (Frontend.settings page) ≠ [] →
  let later :=
    FrontendSpec.more_times browser n
      (snd (Frontend.loadFeed browser false page)) in
  NoDup (Frontend.s_url <$> FrontendSpec.shown_since page later)
  ∧ Frontend.currentPage later = 1 + Z.of_nat n.
Proof.
  intros Hload Hint. cbv zeta.
  assert (∀ later,
    later = FrontendSpec.more_times browser n
              (snd (Frontend.loadFeed browser false page)) →
    Frontend.isLoading later = false
    ∧ Frontend.settings later = Frontend.settings page
    ∧ Frontend.currentPage later = 1 + Z.of_nat n
    ∧ ∃ ops, Frontend.feed later = Frontend.feed page ++ ops
             ∧ NoDup (Frontend.s_url <$> FrontendSpec.appended ops)
             ∧ ∀ a, a ∈ FrontendSpec.appended ops →
                 Frontend.s_url a ∈ Frontend.loadedArticles later) as Hinv.
  { induction n as [|n IH]; intros later ->.
    - cbn [FrontendSpec.more_times].
      destruct (loadFeed_spec browser false page Hload Hint)
        as (page' & ops & E & Hfeed & Hnd & Hres & _ & Hc & Hl & Hs & _).
      rewrite E. cbn [snd]. split; [done|]. split; [done|].
      split; [rewrite Hc; lia|]. exists ops. split; [done|].
      split; [done|]. intros a Ha. by apply Hres.
    - cbn [FrontendSpec.more_times]. destruct (IH _ eq_refl)
        as (Hl & Hs & Hc & ops & Hfeed & Hnd & Hin).
      set (p := FrontendSpec.more_times browser n _) in *.
      unfold Frontend.loadMoreArticles, mbind, Frontend.F_bind,
        Frontend.feed_op.
      match goal with |- context [Frontend.loadFeed browser true ?q] =>
        destruct (loadFeed_spec browser true q)
          as (page' & ops' & E & Hfeed' & Hnd' & Hres' & Hsub' & Hc' & Hl'
              & Hs' & _)
      end.
      { exact Hl. }
      { cbn [Frontend.settings]. by rewrite Hs. }
      rewrite E. cbn [snd].
      cbn [Frontend.settings Frontend.loadedArticles Frontend.feed
        Frontend.currentPage] in Hfeed', Hres', Hsub', Hc', Hs'.
      split; [done|]. split; [congruence|].
      split; [rewrite Hc', Hc; lia|].
      exists (ops ++ [Frontend.RemoveWarning] ++ ops').
      split; [by rewrite Hfeed', Hfeed, <- !app_assoc|].
      rewrite !appended_app.
      change (FrontendSpec.appended [Frontend.RemoveWarning]) with
        (@nil Frontend.Shown).
      cbn [app]. rewrite fmap_app. split.
      + apply NoDup_app. split; [done|]. split; [|done].
        intros u (a & -> & Ha)%list_elem_of_fmap
                 (b & Eb & Hb)%list_elem_of_fmap.
        destruct (Hres' b Hb) as (Hnew & _). apply (Hnew eq_refl).
        rewrite <- Eb. by apply Hin.
      + intros a [Ha|Ha]%elem_of_app.
        * apply (Hsub' eq_refl). by apply Hin.
        * by apply Hres'. }
  destruct (Hinv _ eq_refl) as (_ & _ & Hc & ops & Hfeed & Hnd & _).
  split; [|exact Hc].
  unfold FrontendSpec.shown_since. rewrite Hfeed, drop_app_length. exact Hnd.
Qed.

Lemma load_more_never_repeats_witness :
  Frontend.s_url <$>
    FrontendSpec.shown_since (FrontendSample.page ["ai"])
      (FrontendSpec.more_times FrontendSample.browser 2
         (snd (Frontend.loadFeed FrontendSample.browser false
                 (FrontendSample.page ["ai"]))))
  = ["https://up.example/2"; "https://up.example/1"]
  ∧ NoDup (Frontend.s_url <$>
      FrontendSpec.shown_since (FrontendSample.page ["ai"])
        (FrontendSpec.more_times FrontendSample.browser 2
           (snd (Frontend.loadFeed FrontendSample.browser false
                   (FrontendSample.page ["ai"])))))
  ∧ Frontend.currentPage
      (FrontendSpec.more_times FrontendSample.browser 2
         (snd (Frontend.loadFeed FrontendSample.browser false
                 (FrontendSample.page ["ai"])))) = 1 + Z.of_nat 2.
Proof.
  split; [vm_compute; reflexivity|].
  apply (load_more_never_repeats FrontendSample.browser
           (FrontendSample.page ["ai"]) 2); [reflexivity|done].
Defined.

(** * The interests *)

Lemma dropWhile_space_fixed (s : string) :
  starts_with_space s = false → JS.dropWhile_space s = s.
Proof. destruct s as [|c s]; [done|]. simpl. by intros ->. Qed.

Lemma trim_idempotent (s : string) : JS.trim (JS.trim s) = JS.trim s.
Proof.
  pose proof (StringFacts.trim_head s) as Hh.
  unfold JS.trim at 1. rewrite (dropWhile_space_fixed _ Hh).
  unfold JS.trim. rewrite StringFacts.rev_involutive.
  by rewrite (dropWhile_space_fixed _ (StringFacts.dropWhile_space_head _)).
Qed.

Lemma saveToLocalStorage_interests (page : Frontend.Page) :
  let page' := snd (Frontend.saveToLocalStorage page) in
  Frontend.interests (Frontend.settings page')
  = Frontend.interests (Frontend.settings page)
  ∧ Frontend.interestList page' = Frontend.interestList page
  ∧ Frontend.interestInput page' = Frontend.interestInput page
  ∧ Frontend.newsReaderSettings page'
    = Some (Frontend.json_of_settings (Frontend.settings page'))
  ∧ Frontend.totalArticles (Frontend.settings page')
    = JSNum.parseInt (Some (Frontend.totalArticlesInput page))
  ∧ Frontend.articlesPerInterest (Frontend.settings page')
    = JSNum.parseInt (Some (Frontend.articlesPerInterestInput page)).
Proof. repeat split. Qed.

(** X24: the interests stay a list of distinct, trimmed, non-empty
    strings under addInterest and removeInterest.  addInterest appends
    the trimmed input when it is not empty and not among the interests,
    and does nothing at all otherwise; removeInterest leaves no
    occurrence of the interest it is given, so that removing an interest
    that was just added gives back the list as it was.  After each
    change the list is rendered and the settings are stored as they
    are. *)
Theorem interests_stay_tidy (page : Frontend.Page) (interest : string) :
  NoDup (Frontend.interests (Frontend.settings page)) →
  Forall FrontendSpec.tidy (Frontend.interests (Frontend.settings page)) →
  let added := snd (Frontend.addInterest page) in
  let removed := snd (Frontend.removeInterest interest page) in
  let new := JS.trim (Frontend.interestInput page) in
  NoDup (Frontend.interests (Frontend.settings added))
  ∧ Forall FrontendSpec.tidy (Frontend.interests (Frontend.settings added))
  ∧ (if decide (new = "" ∨ new ∈ Frontend.interests (Frontend.settings page))
     then added = page
     else Frontend.interests (Frontend.settings added)
          = Frontend.interests (Frontend.settings page) ++ [new]
          ∧ Frontend.interestInput added = ""
          ∧ Frontend.interestList added
            = Frontend.Tags (Frontend.interests (Frontend.settings added))
          ∧ Frontend.newsReaderSettings added
            = Some (Frontend.json_of_settings (Frontend.settings added))
          ∧ Frontend.interests
              (Frontend.settings (snd (Frontend.removeInterest new added)))
            = Frontend.interests (Frontend.settings page))
  ∧ NoDup (Frontend.interests (Frontend.settings removed))
  ∧ Forall FrontendSpec.tidy (Frontend.interests (Frontend.settings removed))
  ∧ (interest ∉ Frontend.interests (Frontend.settings removed))
  ∧ Frontend.newsReaderSettings removed
    = Some (Frontend.json_of_settings (Frontend.settings removed)).
Proof.
  intros Hnd Htidy. cbv zeta.
  set (l := Frontend.interests (Frontend.settings page)) in *.
  set (new := JS.trim (Frontend.interestInput page)).
  assert (∀ i p,
            Frontend.interests
              (Frontend.settings (snd (Frontend.removeInterest i p)))
            = filter (λ j, j ≠ i)
                (Frontend.interests (Frontend.settings p))) as Hrem.
  { intros i p. unfold Frontend.removeInterest, mbind, Frontend.F_bind, Frontend.get,
      Frontend.set_settings, Frontend.renderInterests.
    cbn [Frontend.settings Frontend.interests].
    unfold mbind, Frontend.F_bind, Frontend.get.
    cbn [Frontend.settings Frontend.interests].
    by destruct (Nat.eqb _ 0). }
  assert (∀ p, Frontend.newsReaderSettings
                 (snd (Frontend.removeInterest interest p))
               = Some (Frontend.json_of_settings
                         (Frontend.settings
                            (snd (Frontend.removeInterest interest p)))))
    as Hstore.
  { intros p. unfold Frontend.removeInterest, mbind, Frontend.F_bind,
      Frontend.get, Frontend.set_settings, Frontend.renderInterests.
    cbn [Frontend.settings Frontend.interests].
    unfold mbind, Frontend.F_bind, Frontend.get.
    cbn [Frontend.settings Frontend.interests].
    by destruct (Nat.eqb _ 0). }
  assert (Frontend.addInterest page
          = if decide (new = "" ∨ new ∈ l) then (tt, page)
            else Frontend.saveToLocalStorage
                   (snd (Frontend.set_interestList (Frontend.Tags (l ++ [new]))
                     (snd (Frontend.set_interestInput ""
                       (snd (Frontend.set_settings
                         {| Frontend.interests := l ++ [new];
                            Frontend.totalArticles :=
                              Frontend.totalArticles (Frontend.settings page);
                            Frontend.articlesPerInterest :=
                              Frontend.articlesPerInterest
                                (Frontend.settings page) |} page)))))))
    as Hadd.
  { unfold Frontend.addInterest, mbind, Frontend.F_bind, Frontend.get.
    fold new. fold l.
    destruct (String.eqb_spec new "") as [Hn|Hn].
    { rewrite decide_True by by left. done. }
    cbn [negb andb].
    destruct (bool_decide_reflect (new ∈ l)) as [Hin|Hin].
    { rewrite decide_True by by right. done. }
    cbn [negb]. rewrite decide_False by tauto.
    unfold Frontend.set_settings at 1, Frontend.set_interestInput at 1,
      Frontend.renderInterests, mbind, Frontend.F_bind, Frontend.get.
    cbn [Frontend.settings Frontend.interests].
    rewrite length_app. cbn [length].
    replace (length l + 1)%nat with (S (length l)) by lia.
    reflexivity. }
  rewrite Hadd, !Hrem. clear Hadd. fold l.
  split; [|split; [|split]].
  - case_decide as Hcase; [done|]. cbn.
    apply NoDup_app. split; [done|]. split; [|apply NoDup_singleton].
    intros x Hx ->%list_elem_of_singleton. tauto.
  - case_decide as Hcase; [done|]. cbn.
    apply Forall_app. split; [done|]. constructor; [|done].
    split; [tauto|]. apply trim_idempotent.
  - case_decide as Hcase; [done|]. cbn. split; [done|]. split; [done|].
    split; [done|]. split; [done|].
    change (filter (λ j, j ≠ new) (l ++ [new]) = l).
    { rewrite filter_app, filter_cons, decide_False by tauto.
      rewrite filter_nil, app_nil_r.
      clear -Hcase. induction l as [|x l IH]; [done|].
      rewrite filter_cons, decide_True.
      - f_equal. apply IH. intros [?|?]; apply Hcase; [by left|].
        right. by right.
      - intros ->. apply Hcase. right. by left. }
  - split; [by apply NoDup_filter|].
    split.
    { apply Forall_forall. intros x [_ Hx]%list_elem_of_filter.
      rewrite Forall_forall in Htidy. by apply Htidy. }
    split; [|apply Hstore].
    intros [H _]%list_elem_of_filter. done.
Qed.

Lemma interests_stay_tidy_witness :
  Frontend.settings (snd (Frontend.addInterest FrontendSample.editing))
  = {| Frontend.interests := ["ai"; "rust"];
       Frontend.totalArticles := Some 10;
       Frontend.articlesPerInterest := None |}
  ∧ NoDup (Frontend.interests
             (Frontend.settings
                (snd (Frontend.addInterest FrontendSample.editing)))).
Proof.
  split; [vm_compute; reflexivity|].
  apply (interests_stay_tidy FrontendSample.editing "ai").
  - apply NoDup_singleton.
  - constructor; [|constructor]. split; [done|reflexivity].
Defined.

(** * The page against the server *)





(** On the sample collection the page shows both articles for the
    interest "ai": the one that matches, and the other one for its age
    alone. *)
Example page_on_sample_server :
  Frontend.s_url <$>
    fst (Frontend.fetchArticles
           (FrontendSample.server_browser
              (Sample.two (JS.ValidDate 0) (JS.ValidDate 0)) 0)
           (FrontendSample.page ["ai"]))
  = ["https://example.com/sports"; "https://example.com/ai"].
Proof. vm_compute. reflexivity. Qed.
